(** * React-Demo-App: the reducers of UseReducerDemo.jsx and two components

    A shallow embedding of the JavaScript of
    [my-react-app/src/components/UseReducerDemo.jsx] (the four reducers and
    the component that owns them), of the [Counter] component and of the
    storage effect of [UseEffectDemo].

    JavaScript values live in a store of objects: a reducer receives
    references to its state and to the action, reads them, and allocates
    the objects of its object and array literals.  Nothing in the embedded
    code assigns to a property, so the store only grows. *)

From stdpp Require Import gmap strings list fin_maps pretty.

Open Scope Z_scope.

(** ** Values and the store *)

Abbreviation loc := nat.

(** Numbers.  The embedding covers the integers, with exact arithmetic (as
    JavaScript's doubles are on integers of magnitude below 2^53), and NaN,
    which arithmetic on [undefined] produces. *)
Inductive number :=
| Fin (z : Z)
| NaN.

Inductive value :=
| VUndef
| VNull
| VBool (b : bool)
| VNum (n : number)
| VStr (s : string)
| VRef (l : loc).

(** A plain object (own properties by name) or an array. *)
Inductive object :=
| Obj (props : gmap string value)
| Arr (elems : list value).

Abbreviation heap := (list object).

Inductive exn :=
| TypeError
| Error (msg : string).

(** The outcome of running a piece of code: it returns, it throws, or it
    leaves the fragment of JavaScript that the embedding covers (coercion of
    an object to a primitive, parsing a string as a number, built-in
    properties of arrays and strings). *)
Inductive result (A : Type) :=
| Ret (a : A)
| Throw (e : exn)
| Unsupported.
Arguments Ret {A} a.
Arguments Throw {A} e.
Arguments Unsupported {A}.

#[global] Instance number_eq_dec : EqDecision number.
Proof. solve_decision. Defined.
#[global] Instance value_eq_dec : EqDecision value.
Proof. solve_decision. Defined.
#[global] Instance object_eq_dec : EqDecision object.
Proof. solve_decision. Defined.
#[global] Instance exn_eq_dec : EqDecision exn.
Proof. solve_decision. Defined.

(** ** The monad of store-passing computations *)

Definition js (A : Type) : Type := heap → result (A * heap).

#[global] Instance js_ret : MRet js := λ A a h, Ret (a, h).
#[global] Instance js_bind : MBind js := λ A B k m h,
  match m h with
  | Ret (a, h') => k a h'
  | Throw e => Throw e
  | Unsupported => Unsupported
  end.

Definition throw {A} (e : exn) : js A := λ _, Throw e.
Definition unsupported {A} : js A := λ _, Unsupported.

(** Allocation of a new object: it gets the next free location. *)
Definition alloc (o : object) : js value :=
  λ h, Ret (VRef (length h), h ++ [o]).

Definition deref (l : loc) : js object :=
  λ h, match h !! l with
       | Some o => Ret (o, h)
       | None => Unsupported
       end.

(** ** The operators and built-ins the source uses *)

Definition num_add (a b : number) : number :=
  match a, b with Fin x, Fin y => Fin (x + y) | _, _ => NaN end.
Definition num_sub (a b : number) : number :=
  match a, b with Fin x, Fin y => Fin (x - y) | _, _ => NaN end.
Definition num_mul (a b : number) : number :=
  match a, b with Fin x, Fin y => Fin (x * y) | _, _ => NaN end.

(** ToString on primitives, as in a template literal, in [+] with a string
    and in a computed property key.  Integers print in decimal below 10^21
    (beyond that JavaScript switches to exponent notation). *)
Definition to_string (v : value) : js string :=
  match v with
  | VUndef => mret "undefined"%string
  | VNull => mret "null"%string
  | VBool true => mret "true"%string
  | VBool false => mret "false"%string
  | VNum (Fin z) =>
      if decide (Z.abs z < 10 ^ 21) then mret (pretty z) else unsupported
  | VNum NaN => mret "NaN"%string
  | VStr s => mret s
  | VRef _ => unsupported
  end.

(** ToNumber on primitives. *)
Definition to_number (v : value) : js number :=
  match v with
  | VUndef => mret NaN
  | VNull => mret (Fin 0)
  | VBool true => mret (Fin 1)
  | VBool false => mret (Fin 0)
  | VNum n => mret n
  | VStr _ => unsupported
  | VRef _ => unsupported
  end.

(** [a + b]: concatenation when either operand is a string, addition of
    numbers otherwise. *)
Definition js_add (a b : value) : js value :=
  match a, b with
  | VRef _, _ | _, VRef _ => unsupported
  | VStr _, _ | _, VStr _ =>
      sa ← to_string a; sb ← to_string b; mret (VStr (sa +:+ sb))
  | _, _ =>
      na ← to_number a; nb ← to_number b; mret (VNum (num_add na nb))
  end.

(** [a - b] *)
Definition js_sub (a b : value) : js value :=
  na ← to_number a; nb ← to_number b; mret (VNum (num_sub na nb)).

(** [a * b] *)
Definition js_mul (a b : value) : js value :=
  na ← to_number a; nb ← to_number b; mret (VNum (num_mul na nb)).

(** ToBoolean: what [if (v)], [!v] and the callbacks of [find] and
    [filter] test. *)
Definition truthy (v : value) : bool :=
  match v with
  | VUndef | VNull => false
  | VBool b => b
  | VNum (Fin z) => negb (z =? 0)
  | VNum NaN => false
  | VStr s => negb (String.eqb s "")
  | VRef _ => true
  end.

(** [!v] *)
Definition js_not (v : value) : value := VBool (negb (truthy v)).

(** [a === b]: same type and same value; NaN differs from itself; objects
    are compared by identity. *)
Definition strict_eq (a b : value) : bool :=
  match a, b with
  | VUndef, VUndef => true
  | VNull, VNull => true
  | VBool x, VBool y => bool_decide (x = y)
  | VNum (Fin x), VNum (Fin y) => bool_decide (x = y)
  | VStr x, VStr y => bool_decide (x = y)
  | VRef x, VRef y => bool_decide (x = y)
  | _, _ => false
  end.

(** The value of an own property; a missing property reads as
    [undefined]. *)
Definition prop (props : gmap string value) (k : string) : value :=
  default VUndef (props !! k).

(** [v.k] for the property names the source reads ([type], [count],
    [payload], [field], [value], [errors], [error], [todos], [nextId],
    [text], [id], [completed], [filter], [items], [total], [item], [price],
    [quantity]).  None of them is defined on [Object.prototype] or on the
    prototypes of the primitives, so on a plain object the read is a lookup
    among the own properties and on a number, boolean or string it is
    [undefined]; reading from [undefined] or [null] throws a TypeError.
    Arrays, which inherit [filter], are not covered. *)
Definition get_prop (v : value) (k : string) : js value :=
  match v with
  | VUndef | VNull => throw TypeError
  | VBool _ | VNum _ | VStr _ => mret VUndef
  | VRef l =>
      o ← deref l;
      match o with
      | Obj props => mret (prop props k)
      | Arr _ => unsupported
      end
  end.

(** The properties that [{ ...v }] copies: the own properties of a plain
    object, none for [undefined], [null], a number or a boolean. *)
Definition own_props (v : value) : js (gmap string value) :=
  match v with
  | VUndef | VNull | VBool _ | VNum _ => mret ∅
  | VStr _ => unsupported
  | VRef l =>
      o ← deref l;
      match o with
      | Obj props => mret props
      | Arr _ => unsupported
      end
  end.

(** The elements that [[ ...v ]] copies; a value that is not iterable
    throws a TypeError. *)
Definition iterate (v : value) : js (list value) :=
  match v with
  | VUndef | VNull | VBool _ | VNum _ => throw TypeError
  | VStr _ => unsupported
  | VRef l =>
      o ← deref l;
      match o with
      | Arr elems => mret elems
      | Obj _ => throw TypeError
      end
  end.

(** The receiver of [v.find(...)], [v.map(...)] and [v.filter(...)]: the
    call goes through only on an array; on anything else the method is
    missing and the call throws a TypeError. *)
Definition array_receiver (v : value) : js (list value) :=
  match v with
  | VUndef | VNull | VBool _ | VNum _ | VStr _ => throw TypeError
  | VRef l =>
      o ← deref l;
      match o with
      | Arr elems => mret elems
      | Obj _ => throw TypeError
      end
  end.

Fixpoint find_loop (cb : value → js value) (elems : list value) : js value :=
  match elems with
  | [] => mret VUndef
  | x :: rest =>
      b ← cb x;
      if truthy b then mret x else find_loop cb rest
  end.

Fixpoint map_loop (cb : value → js value) (elems : list value)
  : js (list value) :=
  match elems with
  | [] => mret []
  | x :: rest =>
      y ← cb x;
      ys ← map_loop cb rest;
      mret (y :: ys)
  end.

Fixpoint filter_loop (cb : value → js value) (elems : list value)
  : js (list value) :=
  match elems with
  | [] => mret []
  | x :: rest =>
      b ← cb x;
      ys ← filter_loop cb rest;
      mret (if truthy b then x :: ys else ys)
  end.

(** [v.find(cb)] *)
Definition array_find (v : value) (cb : value → js value) : js value :=
  elems ← array_receiver v; find_loop cb elems.

(** [v.map(cb)]; the new array is allocated once its elements are known. *)
Definition array_map (v : value) (cb : value → js value) : js value :=
  elems ← array_receiver v; ys ← map_loop cb elems; alloc (Arr ys).

(** [v.filter(cb)] *)
Definition array_filter (v : value) (cb : value → js value) : js value :=
  elems ← array_receiver v; ys ← filter_loop cb elems; alloc (Arr ys).

(** ToPropertyKey for a computed key [[v]: ...]. *)
Definition to_property_key (v : value) : js string := to_string v.

(** [switch (v) { case 'c': ...; default: ... }] where every case
    returns. *)
Fixpoint switch {A} (v : value) (cases : list (string * js A))
    (dflt : js A) : js A :=
  match cases with
  | [] => dflt
  | (c, body) :: rest =>
      if strict_eq v (VStr c) then body else switch v rest dflt
  end.

(** ** UseReducerDemo.jsx: the module-level initial states

    The object literals of the four [const ...InitialState] declarations,
    allocated when the module is loaded.  The reducers that return
    [formInitialState] or [cartInitialState] return these very objects. *)

Definition counterInitialState : value := VRef 0%nat.
Definition formInitialState : value := VRef 2%nat.
Definition todoInitialState : value := VRef 4%nat.
Definition cartInitialState : value := VRef 6%nat.

Definition module_heap : heap :=
  [ (* 0: counterInitialState *)
    Obj {[ "count" := VNum (Fin 0) ]};
    (* 1: the [errors: {}] of formInitialState *)
    Obj ∅;
    (* 2: formInitialState *)
    Obj (<["username" := VStr ""]> (<["email" := VStr ""]>
        (<["password" := VStr ""]> (<["age" := VStr ""]>
        (<["errors" := VRef 1%nat]> {[ "isSubmitting" := VBool false ]})))));
    (* 3: the [todos: []] of todoInitialState *)
    Arr [];
    (* 4: todoInitialState *)
    Obj (<["todos" := VRef 3%nat]> (<["filter" := VStr "all"]>
        {[ "nextId" := VNum (Fin 1) ]}));
    (* 5: the [items: []] of cartInitialState *)
    Arr [];
    (* 6: cartInitialState *)
    Obj (<["items" := VRef 5%nat]> {[ "total" := VNum (Fin 0) ]}) ].

(** ** Pattern 1: counterReducer *)

Definition counterReducer (state action : value) : js value :=
  ty ← get_prop action "type";
  switch ty
    [ ("INCREMENT"%string,
        c ← get_prop state "count";
        n ← js_add c (VNum (Fin 1));
        alloc (Obj {[ "count" := n ]}));
      ("DECREMENT"%string,
        c ← get_prop state "count";
        n ← js_sub c (VNum (Fin 1));
        alloc (Obj {[ "count" := n ]}));
      ("RESET"%string,
        alloc (Obj {[ "count" := VNum (Fin 0) ]}));
      ("INCREMENT_BY"%string,
        c ← get_prop state "count";
        p ← get_prop action "payload";
        n ← js_add c p;
        alloc (Obj {[ "count" := n ]})) ]
    (s ← to_string ty;
     throw (Error ("Unknown action: " +:+ s))).

(** ** Pattern 2: formReducer *)

Definition formReducer (state action : value) : js value :=
  ty ← get_prop action "type";
  switch ty
    [ ("UPDATE_FIELD"%string,
        props ← own_props state;
        f ← get_prop action "field";
        k ← to_property_key f;
        v ← get_prop action "value";
        errs ← get_prop state "errors";
        eprops ← own_props errs;
        f' ← get_prop action "field";
        k' ← to_property_key f';
        e ← alloc (Obj (<[k' := VStr ""]> eprops));
        alloc (Obj (<["errors" := e]> (<[k := v]> props))));
      ("SET_ERROR"%string,
        props ← own_props state;
        errs ← get_prop state "errors";
        eprops ← own_props errs;
        f ← get_prop action "field";
        k ← to_property_key f;
        er ← get_prop action "error";
        e ← alloc (Obj (<[k := er]> eprops));
        alloc (Obj (<["errors" := e]> props)));
      ("SET_ERRORS"%string,
        props ← own_props state;
        errs ← get_prop action "errors";
        alloc (Obj (<["errors" := errs]> props)));
      ("SUBMIT_START"%string,
        props ← own_props state;
        alloc (Obj (<["isSubmitting" := VBool true]> props)));
      ("SUBMIT_SUCCESS"%string,
        mret formInitialState);
      ("SUBMIT_FAILURE"%string,
        props ← own_props state;
        alloc (Obj (<["isSubmitting" := VBool false]> props)));
      ("RESET_FORM"%string,
        mret formInitialState) ]
    (mret state).

(** ** Pattern 3: todoReducer *)

Definition todoReducer (state action : value) : js value :=
  ty ← get_prop action "type";
  switch ty
    [ ("ADD_TODO"%string,
        props ← own_props state;
        todos ← get_prop state "todos";
        elems ← iterate todos;
        id ← get_prop state "nextId";
        text ← get_prop action "text";
        todo ← alloc (Obj (<["id" := id]> (<["text" := text]>
                      {[ "completed" := VBool false ]})));
        todos' ← alloc (Arr (elems ++ [todo]));
        next ← get_prop state "nextId";
        next' ← js_add next (VNum (Fin 1));
        alloc (Obj (<["nextId" := next']> (<["todos" := todos']> props))));
      ("TOGGLE_TODO"%string,
        props ← own_props state;
        todos ← get_prop state "todos";
        todos' ← array_map todos (λ todo,
          id ← get_prop todo "id";
          aid ← get_prop action "id";
          if strict_eq id aid then
            tprops ← own_props todo;
            c ← get_prop todo "completed";
            alloc (Obj (<["completed" := js_not c]> tprops))
          else mret todo);
        alloc (Obj (<["todos" := todos']> props)));
      ("DELETE_TODO"%string,
        props ← own_props state;
        todos ← get_prop state "todos";
        todos' ← array_filter todos (λ todo,
          id ← get_prop todo "id";
          aid ← get_prop action "id";
          mret (VBool (negb (strict_eq id aid))));
        alloc (Obj (<["todos" := todos']> props)));
      ("EDIT_TODO"%string,
        props ← own_props state;
        todos ← get_prop state "todos";
        todos' ← array_map todos (λ todo,
          id ← get_prop todo "id";
          aid ← get_prop action "id";
          if strict_eq id aid then
            tprops ← own_props todo;
            text ← get_prop action "text";
            alloc (Obj (<["text" := text]> tprops))
          else mret todo);
        alloc (Obj (<["todos" := todos']> props)));
      ("SET_FILTER"%string,
        props ← own_props state;
        f ← get_prop action "filter";
        alloc (Obj (<["filter" := f]> props)));
      ("CLEAR_COMPLETED"%string,
        props ← own_props state;
        todos ← get_prop state "todos";
        todos' ← array_filter todos (λ todo,
          c ← get_prop todo "completed";
          mret (js_not c));
        alloc (Obj (<["todos" := todos']> props))) ]
    (mret state).

(** ** Pattern 4: cartReducer *)

Definition cartReducer (state action : value) : js value :=
  ty ← get_prop action "type";
  switch ty
    [ ("ADD_ITEM"%string,
        items ← get_prop state "items";
        existingItem ← array_find items (λ item,
          id ← get_prop item "id";
          aitem ← get_prop action "item";
          aid ← get_prop aitem "id";
          mret (VBool (strict_eq id aid)));
        if truthy existingItem then
          items ← get_prop state "items";
          updatedItems ← array_map items (λ item,
            id ← get_prop item "id";
            aitem ← get_prop action "item";
            aid ← get_prop aitem "id";
            if strict_eq id aid then
              iprops ← own_props item;
              q ← get_prop item "quantity";
              q' ← js_add q (VNum (Fin 1));
              alloc (Obj (<["quantity" := q']> iprops))
            else mret item);
          total ← get_prop state "total";
          aitem ← get_prop action "item";
          price ← get_prop aitem "price";
          total' ← js_add total price;
          alloc (Obj (<["items" := updatedItems]> {[ "total" := total' ]}))
        else
          items ← get_prop state "items";
          elems ← iterate items;
          aitem ← get_prop action "item";
          iprops ← own_props aitem;
          item ← alloc (Obj (<["quantity" := VNum (Fin 1)]> iprops));
          items' ← alloc (Arr (elems ++ [item]));
          total ← get_prop state "total";
          aitem ← get_prop action "item";
          price ← get_prop aitem "price";
          total' ← js_add total price;
          alloc (Obj (<["items" := items']> {[ "total" := total' ]})));
      ("REMOVE_ITEM"%string,
        items ← get_prop state "items";
        item ← array_find items (λ item,
          id ← get_prop item "id";
          aid ← get_prop action "id";
          mret (VBool (strict_eq id aid)));
        items ← get_prop state "items";
        items' ← array_filter items (λ item,
          id ← get_prop item "id";
          aid ← get_prop action "id";
          mret (VBool (negb (strict_eq id aid))));
        total ← get_prop state "total";
        price ← get_prop item "price";
        q ← get_prop item "quantity";
        sub ← js_mul price q;
        total' ← js_sub total sub;
        alloc (Obj (<["items" := items']> {[ "total" := total' ]})));
      ("UPDATE_QUANTITY"%string,
        items ← get_prop state "items";
        item ← array_find items (λ item,
          id ← get_prop item "id";
          aid ← get_prop action "id";
          mret (VBool (strict_eq id aid)));
        aq ← get_prop action "quantity";
        q ← get_prop item "quantity";
        quantityDiff ← js_sub aq q;
        items ← get_prop state "items";
        items' ← array_map items (λ item,
          id ← get_prop item "id";
          aid ← get_prop action "id";
          if strict_eq id aid then
            iprops ← own_props item;
            aq ← get_prop action "quantity";
            alloc (Obj (<["quantity" := aq]> iprops))
          else mret item);
        total ← get_prop state "total";
        price ← get_prop item "price";
        add ← js_mul price quantityDiff;
        total' ← js_add total add;
        alloc (Obj (<["items" := items']> {[ "total" := total' ]})));
      ("CLEAR_CART"%string,
        mret cartInitialState) ]
    (mret state).

(** ** The UseReducerDemo component

    [const [s, dispatch] = useReducer(reducer, initial)]: the component
    holds one state per reducer, starting at the initial-state object, and
    [dispatch(action)] replaces that state by [reducer(state, action)].
    The three [useState] variables of the component stand beside them. *)

Record demo := Demo {
  counterState : value;
  formState : value;
  todoState : value;
  cartState : value;
  todoInput : value;
  editingTodoId : value;
  editingText : value
}.

Definition UseReducerDemo : demo :=
  {| counterState := counterInitialState;
     formState := formInitialState;
     todoState := todoInitialState;
     cartState := cartInitialState;
     todoInput := VStr "";
     editingTodoId := VNull;
     editingText := VStr "" |}.

Definition counterDispatch (action : value) (d : demo) : js demo :=
  s ← counterReducer (counterState d) action;
  mret (Demo s (formState d) (todoState d) (cartState d)
            (todoInput d) (editingTodoId d) (editingText d)).

Definition formDispatch (action : value) (d : demo) : js demo :=
  s ← formReducer (formState d) action;
  mret (Demo (counterState d) s (todoState d) (cartState d)
            (todoInput d) (editingTodoId d) (editingText d)).

Definition todoDispatch (action : value) (d : demo) : js demo :=
  s ← todoReducer (todoState d) action;
  mret (Demo (counterState d) (formState d) s (cartState d)
            (todoInput d) (editingTodoId d) (editingText d)).

Definition cartDispatch (action : value) (d : demo) : js demo :=
  s ← cartReducer (cartState d) action;
  mret (Demo (counterState d) (formState d) (todoState d) s
            (todoInput d) (editingTodoId d) (editingText d)).

(** ** The Counter component

    [const [count, setCount] = useState(0)] and its three handlers; a
    handler maps the count of the current render to the count that
    [setCount] installs for the next one. *)

Module Counter.

Definition initial : value := VNum (Fin 0).


(** [const decrement = () => setCount(count - 1)] *)
Definition decrement (count : value) : js value :=
  js_sub count (VNum (Fin 1)).

(** [const reset = () => setCount(0)] *)
Definition reset (count : value) : js value :=
  mret (VNum (Fin 0)).

End Counter.

(** ** The UseEffectDemo component: its count and the storage effect

    [const [count, setCount] = useState(0)], the three buttons that set it,
    and the effect with dependency array [[count]]:
    [localStorage.setItem('savedCount', count.toString())].  The count
    starts at 0 and moves by whole steps, so it is an integer here.  React
    runs the effect after the first render and after each render in which
    [count] differs from the previous one. *)

Module UseEffectDemo.

(** localStorage: string keys, string values. *)
Definition storage := gmap string string.

Record state := State { count : Z; localStorage : gmap string string }.







End UseEffectDemo.

(** * Reading the store

    The functions and predicates in which the properties of the embedded
    code are stated. *)

(** The own properties of the plain object a value refers to. *)
Definition lookup_obj (h : heap) (v : value) : option (gmap string value) :=
  match v with
  | VRef l => match h !! l with Some (Obj props) => Some props | _ => None end
  | _ => None
  end.

(** The elements of the array a value refers to. *)
Definition lookup_arr (h : heap) (v : value) : option (list value) :=
  match v with
  | VRef l => match h !! l with Some (Arr elems) => Some elems | _ => None end
  | _ => None
  end.

(** The property maps of a list of references to plain objects. *)
Definition objs (h : heap) (elems : list value)
  : option (list (gmap string value)) :=
  mapM (lookup_obj h) elems.

(** A computation only adds objects to the store: every object that was
    there is still there, unchanged. *)
Definition grows {A} (m : js A) : Prop :=
  ∀ h a h', m h = Ret (a, h') → h `prefix_of` h'.

(** [v] refers to an object that [h'] has and [h] does not have. *)
Definition new_object (h h' : heap) (v : value) : Prop :=
  ∃ l, v = VRef l ∧ h !! l = None ∧ is_Some (h' !! l).

(** A computation returns a reference to an object it has allocated. *)
Definition allocates (m : js value) : Prop :=
  ∀ h v h', m h = Ret (v, h') → new_object h h' v.

(** A relation between values and what they represent, restricted to the
    stores that extend [h0]. *)
Definition above {T} (h0 : heap) (R : heap → value → T → Prop)
    (h : heap) (v : value) (t : T) : Prop :=
  h0 `prefix_of` h ∧ R h v t.

Definition is_obj (h : heap) (v : value) (props : gmap string value) : Prop :=
  lookup_obj h v = Some props.

(** ** The counter: shapes *)

Definition is_number (v : value) : bool :=
  match v with VNum _ => true | _ => false end.

Definition is_string (v : value) : bool :=
  match v with VStr _ => true | _ => false end.

(** A state of shape [{ count: number }]. *)
Definition counter_shape (h : heap) (s : value) : bool :=
  match lookup_obj h s with
  | Some props => is_number (prop props "count")
  | None => false
  end.

Definition counter_types : list string :=
  ["INCREMENT"; "DECREMENT"; "RESET"; "INCREMENT_BY"]%string.

(** An action the counter recognises: its type is one of the four, and
    ['INCREMENT_BY'] comes with a numeric payload. *)
Definition counter_action (h : heap) (a : value) : bool :=
  match lookup_obj h a with
  | Some ap =>
      bool_decide (prop ap "type" ∈ VStr <$> counter_types) &&
      (if decide (prop ap "type" = VStr "INCREMENT_BY")
       then is_number (prop ap "payload") else true)
  | None => false
  end.

(** ** The form: shapes *)

Definition form_types : list string :=
  ["UPDATE_FIELD"; "SET_ERROR"; "SET_ERRORS"; "SUBMIT_START";
   "SUBMIT_SUCCESS"; "SUBMIT_FAILURE"; "RESET_FORM"]%string.

(** A form state: an object whose [errors] is an object. *)
Definition form_shape (h : heap) (s : value) : bool :=
  match lookup_obj h s with
  | Some props => bool_decide (is_Some (lookup_obj h (prop props "errors")))
  | None => false
  end.

(** A form action: an object; ['UPDATE_FIELD'] and ['SET_ERROR'] name
    their field by a string. *)
Definition form_action (h : heap) (a : value) : bool :=
  match lookup_obj h a with
  | Some ap =>
      if decide (prop ap "type" = VStr "UPDATE_FIELD"
                 ∨ prop ap "type" = VStr "SET_ERROR")
      then is_string (prop ap "field") else true
  | None => false
  end.

(** ** The todo list: shapes and the effect of an action on the todos *)

Definition todo_types : list string :=
  ["ADD_TODO"; "TOGGLE_TODO"; "DELETE_TODO"; "EDIT_TODO"; "SET_FILTER";
   "CLEAR_COMPLETED"]%string.

(** The todos of a state (the property maps of the objects in
    [state.todos]) and its [nextId]. *)
Definition todo_view (h : heap) (s : value)
  : option (list (gmap string value) * value) :=
  props ← lookup_obj h s;
  elems ← lookup_arr h (prop props "todos");
  tps ← objs h elems;
  Some (tps, prop props "nextId").

(** A state of shape [{ todos: list, filter: string, nextId: number }],
    the list holding todo objects. *)
Definition todo_shape (h : heap) (s : value) : bool :=
  match lookup_obj h s, todo_view h s with
  | Some props, Some (_, next) =>
      is_string (prop props "filter") && is_number next
  | _, _ => false
  end.


(** The object literal of ADD_TODO. *)
Definition todo_literal (id text : value) : gmap string value :=
  <["id" := id]> (<["text" := text]> {[ "completed" := VBool false ]}).

(** What an action with properties [ap] makes of the todos. *)
Definition todo_items_after (ap : gmap string value) (next : value)
    (tps : list (gmap string value)) : list (gmap string value) :=
  let ty := prop ap "type" in
  if decide (ty = VStr "ADD_TODO") then
    tps ++ [todo_literal next (prop ap "text")]
  else if decide (ty = VStr "TOGGLE_TODO") then
    (λ tp, if strict_eq (prop tp "id") (prop ap "id")
           then <["completed" := js_not (prop tp "completed")]> tp
           else tp) <$> tps
  else if decide (ty = VStr "DELETE_TODO") then
    filter (λ tp, negb (strict_eq (prop tp "id") (prop ap "id"))) tps
  else if decide (ty = VStr "EDIT_TODO") then
    (λ tp, if strict_eq (prop tp "id") (prop ap "id")
           then <["text" := prop ap "text"]> tp
           else tp) <$> tps
  else if decide (ty = VStr "CLEAR_COMPLETED") then
    filter (λ tp, negb (truthy (prop tp "completed"))) tps
  else tps.

(** What it makes of the other properties of the state, [n] being the
    state's [nextId]. *)
Definition todo_props_after (ap : gmap string value) (n : number)
    (props : gmap string value) : gmap string value :=
  let ty := prop ap "type" in
  if decide (ty = VStr "ADD_TODO") then
    <["nextId" := VNum (num_add n (Fin 1))]> props
  else if decide (ty = VStr "SET_FILTER") then
    <["filter" := prop ap "filter"]> props
  else props.

(** The states the todo list goes through: it starts at
    [todoInitialState]; between two dispatches the rest of the program may
    allocate, the todo reducer then runs on any action at all. *)
Inductive todo_run : heap → value → Prop :=
| todo_run_init h :
    module_heap `prefix_of` h → todo_run h todoInitialState
| todo_run_step h s h1 a s' h' :
    todo_run h s →
    h `prefix_of` h1 →
    todoReducer s a h1 = Ret (s', h') →
    todo_run h' s'.

(** The id of a todo. *)
Definition id_of (tp : gmap string value) : value := prop tp "id".

(** The ids of the todos of a state, in order. *)
Definition todo_ids (h : heap) (s : value) : option (list value) :=
  match todo_view h s with
  | Some (tps, _) => Some (id_of <$> tps)
  | None => None
  end.

Definition todo_nextId (h : heap) (s : value) : option value :=
  match todo_view h s with
  | Some (_, next) => Some next
  | None => None
  end.

(** ** The cart: items, actions and the effect of an action *)

Definition cart_types : list string :=
  ["ADD_ITEM"; "REMOVE_ITEM"; "UPDATE_QUANTITY"; "CLEAR_CART"]%string.

(** A cart item as the reducer uses it: its id, whatever value that is,
    and its integer price and quantity. *)
Record item := Item { item_id : value; item_price : Z; item_quantity : Z }.

Definition read_item (props : gmap string value) : option item :=
  match prop props "price", prop props "quantity" with
  | VNum (Fin p), VNum (Fin q) => Some (Item (prop props "id") p q)
  | _, _ => None
  end.

Definition item_at (h : heap) (v : value) : option item :=
  lookup_obj h v ≫= read_item.

Definition is_item (h : heap) (v : value) (it : item) : Prop :=
  item_at h v = Some it.

(** A cart state [{ items: [...], total: number }] read from the store:
    its items and its total. *)
Definition cart_view (h : heap) (s : value) : option (list item * Z) :=
  props ← lookup_obj h s;
  elems ← lookup_arr h (prop props "items");
  items ← mapM (item_at h) elems;
  match prop props "total" with
  | VNum (Fin t) => Some (items, t)
  | _ => None
  end.

(** The actions of the cart, read from the action object: ADD_ITEM with
    the id and the price of [action.item], REMOVE_ITEM with [action.id],
    UPDATE_QUANTITY with [action.id] and [action.quantity]; any other type
    is [OTHER]. *)
Inductive cart_action :=
| ADD_ITEM (id : value) (price : Z)
| REMOVE_ITEM (id : value)
| UPDATE_QUANTITY (id : value) (quantity : Z)
| CLEAR_CART
| OTHER.

Definition read_cart_action (h : heap) (a : value) : option cart_action :=
  ap ← lookup_obj h a;
  let ty := prop ap "type" in
  if decide (ty = VStr "ADD_ITEM") then
    ip ← lookup_obj h (prop ap "item");
    match prop ip "price" with
    | VNum (Fin p) => Some (ADD_ITEM (prop ip "id") p)
    | _ => None
    end
  else if decide (ty = VStr "REMOVE_ITEM") then
    Some (REMOVE_ITEM (prop ap "id"))
  else if decide (ty = VStr "UPDATE_QUANTITY") then
    match prop ap "quantity" with
    | VNum (Fin q) => Some (UPDATE_QUANTITY (prop ap "id") q)
    | _ => None
    end
  else if decide (ty = VStr "CLEAR_CART") then Some CLEAR_CART
  else Some OTHER.

(** [item.id === id] *)
Definition has_id (id : value) (it : item) : bool := strict_eq (item_id it) id.

(** [items.find(item => item.id === id)] *)
Definition find_item (id : value) (items : list item) : option item :=
  head (filter (has_id id) items).

Definition set_quantity (q : Z) (it : item) : item :=
  Item (item_id it) (item_price it) q.

(** What an action makes of the items and the total.  REMOVE_ITEM and
    UPDATE_QUANTITY are described for an id that is in the cart. *)
Definition cart_model (act : cart_action) (st : list item * Z)
  : list item * Z :=
  let '(items, total) := st in
  match act with
  | ADD_ITEM id price =>
      match find_item id items with
      | Some _ =>
          ((λ it, if has_id id it
                  then set_quantity (item_quantity it + 1) it else it)
             <$> items,
           total + price)
      | None => (items ++ [Item id price 1], total + price)
      end
  | REMOVE_ITEM id =>
      match find_item id items with
      | Some it =>
          (filter (λ it, negb (has_id id it)) items,
           total - item_price it * item_quantity it)
      | None => st
      end
  | UPDATE_QUANTITY id q =>
      match find_item id items with
      | Some it =>
          ((λ it, if has_id id it then set_quantity q it else it) <$> items,
           total + item_price it * (q - item_quantity it))
      | None => st
      end
  | CLEAR_CART => ([], 0)
  | OTHER => st
  end.

(** The sum over the items of [item.price * item.quantity]. *)
Definition cart_sum (items : list item) : Z :=
  foldr (λ it acc, item_price it * item_quantity it + acc) 0 items.

(** No two items of the list have ids that are [===]. *)
Fixpoint distinct_ids (items : list item) : Prop :=
  match items with
  | [] => True
  | it :: rest =>
      Forall (λ it', has_id (item_id it) it' = false) rest ∧
      distinct_ids rest
  end.

(** REMOVE_ITEM and UPDATE_QUANTITY name an id that is in the cart. *)
Definition cart_present (act : cart_action) (items : list item) : Prop :=
  match act with
  | REMOVE_ITEM id | UPDATE_QUANTITY id _ => is_Some (find_item id items)
  | ADD_ITEM _ _ | CLEAR_CART | OTHER => True
  end.

(** The conditions on an action: REMOVE_ITEM and UPDATE_QUANTITY name an
    id in the cart; ADD_ITEM for an id in the cart carries the price of the
    stored item. *)
Definition cart_pre (act : cart_action) (items : list item) : Prop :=
  match act with
  | ADD_ITEM id price =>
      ∀ it, find_item id items = Some it → item_price it = price
  | REMOVE_ITEM id | UPDATE_QUANTITY id _ => is_Some (find_item id items)
  | CLEAR_CART | OTHER => True
  end.


(** ** The four reducers side by side *)

Inductive reducer := RCounter | RForm | RTodo | RCart.

Definition reducer_fun (r : reducer) : value → value → js value :=
  match r with
  | RCounter => counterReducer
  | RForm => formReducer
  | RTodo => todoReducer
  | RCart => cartReducer
  end.

(** The case labels of a reducer's [switch]. *)
Definition types_of (r : reducer) : list string :=
  match r with
  | RCounter => counter_types
  | RForm => form_types
  | RTodo => todo_types
  | RCart => cart_types
  end.

(** The action types on which a reducer returns one of the module-level
    initial-state objects instead of building a state. *)
Definition resets_to (r : reducer) (ty : value) : option value :=
  match r with
  | RForm =>
      if decide (ty = VStr "SUBMIT_SUCCESS" ∨ ty = VStr "RESET_FORM")
      then Some formInitialState else None
  | RCart =>
      if decide (ty = VStr "CLEAR_CART") then Some cartInitialState else None
  | RCounter | RTodo => None
  end.

(** The state a reducer owns in the UseReducerDemo component, and its
    dispatch function. *)
Definition state_of (r : reducer) (d : demo) : value :=
  match r with
  | RCounter => counterState d
  | RForm => formState d
  | RTodo => todoState d
  | RCart => cartState d
  end.

Definition dispatch (r : reducer) : value → demo → js demo :=
  match r with
  | RCounter => counterDispatch
  | RForm => formDispatch
  | RTodo => todoDispatch
  | RCart => cartDispatch
  end.

(** ** The products of the cart demo

    [const products = [{ id: 1, name: 'Laptop', price: 999 }, ...]] in the
    body of UseReducerDemo: the store once the component has rendered for
    the first time.  The "Add to Cart" button of a product dispatches
    [{ type: 'ADD_ITEM', item: product }]. *)

Definition product (id : Z) (name : string) (price : Z) : object :=
  Obj (<["id" := VNum (Fin id)]> (<["name" := VStr name]>
      {[ "price" := VNum (Fin price) ]})).

Definition products_heap : heap :=
  module_heap ++
  [ product 1 "Laptop" 999;        (* 7 *)
    product 2 "Mouse" 29;          (* 8 *)
    product 3 "Keyboard" 79;       (* 9 *)
    Arr [VRef 7%nat; VRef 8%nat; VRef 9%nat] ].

(** The store after "Add to Cart" on the laptop: the action object, then
    the item, the array and the state that [cartReducer] allocates. *)
Definition laptop_in_cart : heap :=
  products_heap ++
  [ Obj (<["type" := VStr "ADD_ITEM"]> {[ "item" := VRef 7%nat ]});
    Obj (<["id" := VNum (Fin 1)]> (<["name" := VStr "Laptop"]>
        (<["price" := VNum (Fin 999)]> {[ "quantity" := VNum (Fin 1) ]})));
    Arr [VRef 12%nat];
    Obj (<["items" := VRef 13%nat]> {[ "total" := VNum (Fin 999) ]}) ].

(** ** Two runs on inputs that are equal

    Two runs of a reducer receive their state and their action in two
    stores, where equal inputs may sit at different addresses.  A
    correspondence [ρ] pairs the addresses of the first store with those
    of the second; values are equal up to [ρ] when they are the same
    primitive or corresponding references, and two stores are [alike]
    when [ρ] is one-to-one and corresponding addresses hold objects with
    the same property names (or the same length) and values equal up to
    [ρ]. *)

Definition vrel (ρ : list (loc * loc)) (v1 v2 : value) : Prop :=
  match v1, v2 with
  | VRef l1, VRef l2 => (l1, l2) ∈ ρ
  | VRef _, _ | _, VRef _ => False
  | _, _ => v1 = v2
  end.

Definition props_rel (ρ : list (loc * loc)) (p1 p2 : gmap string value)
    : Prop :=
  map_Forall2 (λ _, vrel ρ) p1 p2.

Definition list_rel (ρ : list (loc * loc)) (e1 e2 : list value) : Prop :=
  Forall2 (vrel ρ) e1 e2.

Definition orel (ρ : list (loc * loc)) (o1 o2 : object) : Prop :=
  match o1, o2 with
  | Obj p1, Obj p2 => props_rel ρ p1 p2
  | Arr e1, Arr e2 => list_rel ρ e1 e2
  | _, _ => False
  end.

Record alike (ρ : list (loc * loc)) (h1 h2 : heap) : Prop := Alike {
  alike_fun : ∀ l1 l2 l2', (l1, l2) ∈ ρ → (l1, l2') ∈ ρ → l2 = l2';
  alike_inj : ∀ l1 l1' l2, (l1, l2) ∈ ρ → (l1', l2) ∈ ρ → l1 = l1';
  alike_obj : ∀ l1 l2, (l1, l2) ∈ ρ →
    ∃ o1 o2, h1 !! l1 = Some o1 ∧ h2 !! l2 = Some o2 ∧ orel ρ o1 o2
}.

(** Results that hold no reference are compared by equality. *)
Definition same {A} (ρ : list (loc * loc)) (a1 a2 : A) : Prop := a1 = a2.

(** The outcomes of two runs are alike when both return, with results
    equal up to a correspondence that extends [ρ] by the objects the runs
    have allocated and final stores alike under it, or both throw the same
    error, or both leave the embedded fragment. *)
Definition outcomes_alike {A} (RA : list (loc * loc) → A → A → Prop)
    (ρ : list (loc * loc)) (r1 r2 : result (A * heap)) : Prop :=
  match r1, r2 with
  | Ret (a1, h1), Ret (a2, h2) =>
      ∃ ρ', ρ ⊆ ρ' ∧ alike ρ' h1 h2 ∧ RA ρ' a1 a2
  | Throw e1, Throw e2 => e1 = e2
  | Unsupported, Unsupported => True
  | _, _ => False
  end.

(** Two computations are related when, from any two stores alike under a
    correspondence that extends [ρ], their outcomes are alike. *)
Definition related {A} (RA : list (loc * loc) → A → A → Prop)
    (ρ : list (loc * loc)) (m1 m2 : js A) : Prop :=
  ∀ ρ1 h1 h2, ρ ⊆ ρ1 → alike ρ1 h1 h2 →
    outcomes_alike RA ρ1 (m1 h1) (m2 h2).

Definition monotone {A} (RA : list (loc * loc) → A → A → Prop) : Prop :=
  ∀ ρ ρ' a1 a2, ρ ⊆ ρ' → RA ρ a1 a2 → RA ρ' a1 a2.

(** What [alike] asks of one pair of the correspondence, in a form that
    can be decided on given stores. *)
Definition alike_at (ρ : list (loc * loc)) (h1 h2 : heap) (p : loc * loc)
    : Prop :=
  Forall (λ q, (p.1 = q.1 → p.2 = q.2) ∧ (p.2 = q.2 → p.1 = q.1)) ρ ∧
  match h1 !! p.1, h2 !! p.2 with
  | Some o1, Some o2 => orel ρ o1 o2
  | _, _ => False
  end.

(** Two stores of the module in which an ['INCREMENT'] action sits at
    different addresses, and the correspondence between them. *)
Definition increment_store_1 : heap :=
  module_heap ++ [Obj {[ "type" := VStr "INCREMENT" ]}].

Definition increment_store_2 : heap :=
  module_heap ++ [Obj {[ "type" := VStr "RESET" ]};
                  Obj {[ "type" := VStr "INCREMENT" ]}].

Definition increment_stores_corr : list (loc * loc) :=
  [(0, 0); (1, 1); (2, 2); (3, 3); (4, 4); (5, 5); (6, 6); (7, 8)]%nat.

(** * The handlers of UseReducerDemo

    The functions that the component defines beside its reducers, and the
    [onClick] closures of its buttons.  A handler reads the variables of the
    render it was created in (the fields of [demo]) and ends in calls of the
    dispatch and set functions; it is embedded as the function from the
    component's state to the state that these calls install.  A handler
    that receives the browser's event begins with [e.preventDefault()],
    which keeps the browser from submitting the form and acts on nothing the
    component reads; the embedding starts after that call. *)

(** ** Strings: white space and [trim]

    A string is a sequence of characters with codes below 256.  Among them
    the white space and line terminators of JavaScript, which [trim] strips
    and [\s] matches, are TAB, LF, VT, FF, CR, the space and the
    no-break space. *)

Definition is_white_space (c : Ascii.ascii) : bool :=
  let n := Ascii.N_of_ascii c in
  (((9 <=? n) && (n <=? 13)) || (n =? 32) || (n =? 160))%N.

Fixpoint trim_start (s : string) : string :=
  match s with
  | EmptyString => EmptyString
  | String c s' => if is_white_space c then trim_start s' else s
  end.

Fixpoint trim_end (s : string) : string :=
  match s with
  | EmptyString => EmptyString
  | String c s' =>
      let t := trim_end s' in
      if is_white_space c && String.eqb t "" then EmptyString
      else String c t
  end.

Definition trim (s : string) : string := trim_end (trim_start s).

(** [v.trim()]: on a string, the string without its leading and trailing
    white space; any other value has no [trim] method (an object of this
    program holds no function), and the call throws a TypeError. *)
Definition string_trim (v : value) : js value :=
  match v with
  | VStr s => mret (VStr (trim s))
  | VUndef | VNull | VBool _ | VNum _ => throw TypeError
  | VRef l => _ ← deref l; throw TypeError
  end.

(** ** The three [useState] setters *)

Definition setTodoInput (v : value) (d : demo) : demo :=
  Demo (counterState d) (formState d) (todoState d) (cartState d)
       v (editingTodoId d) (editingText d).

Definition setEditingTodoId (v : value) (d : demo) : demo :=
  Demo (counterState d) (formState d) (todoState d) (cartState d)
       (todoInput d) v (editingText d).

Definition setEditingText (v : value) (d : demo) : demo :=
  Demo (counterState d) (formState d) (todoState d) (cartState d)
       (todoInput d) (editingTodoId d) v.

(** ** The todo functions *)

(** [if (todoInput.trim()) { todoDispatch({ type: 'ADD_TODO', text:
    todoInput }); setTodoInput(''); }] *)
Definition handleAddTodo (d : demo) : js demo :=
  t ← string_trim (todoInput d);
  if truthy t then
    a ← alloc (Obj (<["type" := VStr "ADD_TODO"]>
                      {[ "text" := todoInput d ]}));
    d' ← todoDispatch a d;
    mret (setTodoInput (VStr "") d')
  else mret d.

(** [setEditingTodoId(id); setEditingText(text);] *)
Definition handleEditTodo (id text : value) (d : demo) : js demo :=
  mret (setEditingText text (setEditingTodoId id d)).

(** [if (editingText.trim()) { todoDispatch({ type: 'EDIT_TODO', id, text:
    editingText }); } setEditingTodoId(null); setEditingText('');] *)
Definition handleSaveEdit (id : value) (d : demo) : js demo :=
  t ← string_trim (editingText d);
  d' ← (if truthy t then
          a ← alloc (Obj (<["type" := VStr "EDIT_TODO"]> (<["id" := id]>
                            {[ "text" := editingText d ]})));
          todoDispatch a d
        else mret d);
  mret (setEditingText (VStr "") (setEditingTodoId VNull d')).

(** [switch (todoState.filter) { case 'active': ...; case 'completed':
    ...; default: return todoState.todos; }] *)
Definition getFilteredTodos (d : demo) : js value :=
  f ← get_prop (todoState d) "filter";
  switch f
    [ ("active"%string,
        todos ← get_prop (todoState d) "todos";
        array_filter todos (λ todo,
          c ← get_prop todo "completed";
          mret (js_not c)));
      ("completed"%string,
        todos ← get_prop (todoState d) "todos";
        array_filter todos (λ todo, get_prop todo "completed")) ]
    (get_prop (todoState d) "todos").

(** The [onClick] closures of the filter buttons, [() => todoDispatch({
    type: 'SET_FILTER', filter: f })] for [f] one of ['all'], ['active']
    and ['completed']. *)
Definition filterButton (f : string) (d : demo) : js demo :=
  a ← alloc (Obj (<["type" := VStr "SET_FILTER"]> {[ "filter" := VStr f ]}));
  todoDispatch a d.

(** [() => todoDispatch({ type: 'CLEAR_COMPLETED' })] *)
Definition clearCompletedButton (d : demo) : js demo :=
  a ← alloc (Obj {[ "type" := VStr "CLEAR_COMPLETED" ]});
  todoDispatch a d.

(** The closures in the list item of [todo]:
    [() => todoDispatch({ type: 'TOGGLE_TODO', id: todo.id })], *)
Definition todoCheckbox (todo : value) (d : demo) : js demo :=
  id ← get_prop todo "id";
  a ← alloc (Obj (<["type" := VStr "TOGGLE_TODO"]> {[ "id" := id ]}));
  todoDispatch a d.

(** [() => todoDispatch({ type: 'DELETE_TODO', id: todo.id })], *)
Definition deleteButton (todo : value) (d : demo) : js demo :=
  id ← get_prop todo "id";
  a ← alloc (Obj (<["type" := VStr "DELETE_TODO"]> {[ "id" := id ]}));
  todoDispatch a d.

(** [() => handleEditTodo(todo.id, todo.text)], *)
Definition editButton (todo : value) (d : demo) : js demo :=
  id ← get_prop todo "id";
  text ← get_prop todo "text";
  handleEditTodo id text d.

(** and [() => handleSaveEdit(todo.id)]. *)
Definition saveButton (todo : value) (d : demo) : js demo :=
  id ← get_prop todo "id";
  handleSaveEdit id d.

(** The todos that [getFilteredTodos] shows under a filter. *)
Definition shown (f : value) (tps : list (gmap string value))
    : list (gmap string value) :=
  if decide (f = VStr "active") then
    filter (λ tp, negb (truthy (prop tp "completed"))) tps
  else if decide (f = VStr "completed") then
    filter (λ tp, truthy (prop tp "completed")) tps
  else tps.

(** The todos of a state, all of them. *)
Definition todos_of (h : heap) (s : value)
    : option (list (gmap string value)) :=
  fst <$> todo_view h s.

(** The todos of the array that a value refers to. *)
Definition todos_at (h : heap) (v : value)
    : option (list (gmap string value)) :=
  lookup_arr h v ≫= objs h.

(** Every character of the string is white space. *)
Definition all_white_space (s : string) : bool :=
  forallb is_white_space (String.list_ascii_of_string s).

(** The todo list goes from one state to a later one by calls of the
    reducer, on any actions; in between the rest of the program may
    allocate. *)
Inductive todo_steps : heap → value → heap → value → Prop :=
| todo_steps_refl h s : todo_steps h s h s
| todo_steps_step h s h1 s1 h2 a s' h' :
    todo_steps h s h1 s1 →
    h1 `prefix_of` h2 →
    todoReducer s1 a h2 = Ret (s', h') →
    todo_steps h s h' s'.

(** Every todo has a boolean [completed]. *)
Definition completed_flags (tps : list (gmap string value)) : Prop :=
  Forall (λ tp, ∃ b, tp !! "completed" = Some (VBool b)) tps.

(** ** A todo list to run the handlers on

    The store once two todos have been added and the first one ticked, and
    the component at that point, with the "Active" filter chosen, some text
    in the input box and the second todo being edited. *)

Definition two_todos_store : heap :=
  module_heap ++
  [ Obj (<["id" := VNum (Fin 1)]> (<["text" := VStr "milk"]>
        {[ "completed" := VBool true ]}));                     (* 7 *)
    Obj (todo_literal (VNum (Fin 2)) (VStr "eggs"));           (* 8 *)
    Arr [VRef 7%nat; VRef 8%nat];                              (* 9 *)
    Obj (<["todos" := VRef 9%nat]> (<["filter" := VStr "active"]>
        {[ "nextId" := VNum (Fin 3) ]})) ].                    (* 10 *)

Definition two_todos : list (gmap string value) :=
  [ <["id" := VNum (Fin 1)]> (<["text" := VStr "milk"]>
      {[ "completed" := VBool true ]});
    todo_literal (VNum (Fin 2)) (VStr "eggs") ].

Definition two_todos_demo : demo :=
  {| counterState := counterInitialState;
     formState := formInitialState;
     todoState := VRef 10%nat;
     cartState := cartInitialState;
     todoInput := VStr " bread";
     editingTodoId := VNum (Fin 2);
     editingText := VStr "six eggs" |}.

(** The store after the first todo has been added from the initial
    state: the action, then the todo, the array and the state that the
    reducer allocates. *)
Definition milk_added : heap :=
  module_heap ++
  [ Obj (<["type" := VStr "ADD_TODO"]> {[ "text" := VStr "milk" ]}); (* 7 *)
    Obj (todo_literal (VNum (Fin 1)) (VStr "milk"));                 (* 8 *)
    Arr [VRef 8%nat];                                                (* 9 *)
    Obj (<["todos" := VRef 9%nat]> (<["filter" := VStr "all"]>
        {[ "nextId" := VNum (Fin 2) ]})) ].                          (* 10 *)

(** The store after a second todo has been added: again the action, the
    todo, the array and the state. *)
Definition tea_added : heap :=
  milk_added ++
  [ Obj (<["type" := VStr "ADD_TODO"]> {[ "text" := VStr "tea" ]}); (* 11 *)
    Obj (todo_literal (VNum (Fin 2)) (VStr "tea"));                 (* 12 *)
    Arr [VRef 8%nat; VRef 12%nat];                                  (* 13 *)
    Obj (<["todos" := VRef 13%nat]> (<["filter" := VStr "all"]>
        {[ "nextId" := VNum (Fin 3) ]})) ].                         (* 14 *)

(** The component at that point, the todo being edited. *)
Definition milk_demo : demo :=
  {| counterState := counterInitialState;
     formState := formInitialState;
     todoState := VRef 10%nat;
     cartState := cartInitialState;
     todoInput := VStr "";
     editingTodoId := VNum (Fin 1);
     editingText := VStr "goat milk" |}.

(** ** The cart demo: what it renders and its buttons *)

(** [a < b] and [a > b] on undefined, null, booleans and numbers: both
    sides become numbers, and a comparison with NaN is false.  (Two
    strings compare as strings; that is not covered, as ToNumber of a
    string is not.) *)
Definition num_lt (a b : number) : bool :=
  match a, b with
  | Fin x, Fin y => bool_decide (x < y)
  | _, _ => false
  end.

Definition js_lt (a b : value) : js value :=
  na ← to_number a; nb ← to_number b; mret (VBool (num_lt na nb)).

Definition js_gt (a b : value) : js value :=
  na ← to_number a; nb ← to_number b; mret (VBool (num_lt nb na)).

(** [v.length]: the number of characters of a string, the number of
    elements of an array, the own property of that name of a plain object;
    [undefined] on a number or a boolean; a TypeError on [undefined] and
    [null]. *)
Definition get_length (v : value) : js value :=
  match v with
  | VUndef | VNull => throw TypeError
  | VBool _ | VNum _ => mret VUndef
  | VStr s => mret (VNum (Fin (Z.of_nat (String.length s))))
  | VRef l =>
      o ← deref l;
      match o with
      | Obj props => mret (prop props "length")
      | Arr elems => mret (VNum (Fin (Z.of_nat (length elems))))
      end
  end.

(** [const products = [{ id: 1, name: 'Laptop', price: 999 }, { id: 2,
    name: 'Mouse', price: 29 }, { id: 3, name: 'Keyboard', price: 79 }]],
    evaluated in every render. *)
Definition products : js value :=
  p1 ← alloc (product 1 "Laptop" 999);
  p2 ← alloc (product 2 "Mouse" 29);
  p3 ← alloc (product 3 "Keyboard" 79);
  alloc (Arr [p1; p2; p3]).

(** "Add to Cart" of a product:
    [() => cartDispatch({ type: 'ADD_ITEM', item: product })] *)
Definition addToCartButton (product : value) (d : demo) : js demo :=
  a ← alloc (Obj (<["type" := VStr "ADD_ITEM"]> {[ "item" := product ]}));
  cartDispatch a d.

(** "-" of a cart item: [() => { if (item.quantity > 1) { cartDispatch({
    type: 'UPDATE_QUANTITY', id: item.id, quantity: item.quantity - 1 }); }
    }] *)
Definition minusButton (item : value) (d : demo) : js demo :=
  q ← get_prop item "quantity";
  b ← js_gt q (VNum (Fin 1));
  if truthy b then
    id ← get_prop item "id";
    q ← get_prop item "quantity";
    q' ← js_sub q (VNum (Fin 1));
    a ← alloc (Obj (<["type" := VStr "UPDATE_QUANTITY"]> (<["id" := id]>
                      {[ "quantity" := q' ]})));
    cartDispatch a d
  else mret d.

(** "+" of a cart item: [() => cartDispatch({ type: 'UPDATE_QUANTITY', id:
    item.id, quantity: item.quantity + 1 })] *)
Definition plusButton (item : value) (d : demo) : js demo :=
  id ← get_prop item "id";
  q ← get_prop item "quantity";
  q' ← js_add q (VNum (Fin 1));
  a ← alloc (Obj (<["type" := VStr "UPDATE_QUANTITY"]> (<["id" := id]>
                    {[ "quantity" := q' ]})));
  cartDispatch a d.

(** "Remove" of a cart item:
    [() => cartDispatch({ type: 'REMOVE_ITEM', id: item.id })] *)
Definition removeButton (item : value) (d : demo) : js demo :=
  id ← get_prop item "id";
  a ← alloc (Obj (<["type" := VStr "REMOVE_ITEM"]> {[ "id" := id ]}));
  cartDispatch a d.

(** "Clear Cart": [() => cartDispatch({ type: 'CLEAR_CART' })] *)
Definition clearCartButton (d : demo) : js demo :=
  a ← alloc (Obj {[ "type" := VStr "CLEAR_CART" ]});
  cartDispatch a d.

(** The buttons that a render of the cart demo puts on the page, as their
    [onClick] closures: one "Add to Cart" per element of [products]
    ([products.map(product => ...)]); and, unless
    [cartState.items.length === 0], the "-", "+" and "Remove" of every
    element of [cartState.items] ([cartState.items.map(item => ...)])
    followed by "Clear Cart". *)
Definition cart_buttons (d : demo) : js (list (demo → js demo)) :=
  ps ← products;
  pelems ← array_receiver ps;
  items ← get_prop (cartState d) "items";
  n ← get_length items;
  if strict_eq n (VNum (Fin 0)) then mret (addToCartButton <$> pelems)
  else
    items ← get_prop (cartState d) "items";
    ielems ← array_receiver items;
    mret ((addToCartButton <$> pelems) ++
          (ielems ≫= λ item,
             [minusButton item; plusButton item; removeButton item]) ++
          [clearCartButton]).

(** The component as the user can drive its cart: it starts with the
    initial states; the user clicks one of the buttons of the current
    render; in between, the rest of the program may allocate. *)
Inductive cart_ui : heap → demo → Prop :=
| cart_ui_init h :
    module_heap `prefix_of` h → cart_ui h UseReducerDemo
| cart_ui_click h d h0 bs h1 b d' h' :
    cart_ui h d →
    h `prefix_of` h0 →
    cart_buttons d h0 = Ret (bs, h1) →
    b ∈ bs →
    b d h1 = Ret (d', h') →
    cart_ui h' d'.

(** The catalogue: the id and the price of each product. *)
Definition catalogue : list (value * Z) :=
  [(VNum (Fin 1), 999); (VNum (Fin 2), 29); (VNum (Fin 3), 79)].

(** An item of the cart as the buttons keep it: at least one piece of a
    product of the catalogue, at its price. *)
Definition item_ok (it : item) : Prop :=
  1 ≤ item_quantity it ∧ (item_id it, item_price it) ∈ catalogue.

(** What the buttons of the cart keep true of the component: the cart
    state is [{ items, total }] with the total the sum over the items,
    the items have distinct ids, and each is [item_ok]. *)
Definition cart_inv (h : heap) (d : demo) : Prop :=
  module_heap `prefix_of` h ∧
  ∃ items,
    cart_view h (cartState d) = Some (items, cart_sum items) ∧
    distinct_ids items ∧ Forall item_ok items.

(** A value refers to a product of the catalogue. *)
Definition is_product (h : heap) (p : value) : Prop :=
  ∃ ip price,
    lookup_obj h p = Some ip ∧ prop ip "price" = VNum (Fin price) ∧
    (prop ip "id", price) ∈ catalogue.

(** The component once "Add to Cart" of the laptop has been clicked in the
    first render. *)
Definition laptop_demo : demo :=
  {| counterState := counterInitialState;
     formState := formInitialState;
     todoState := todoInitialState;
     cartState := VRef 14%nat;
     todoInput := VStr "";
     editingTodoId := VNull;
     editingText := VStr "" |}.

(** ** The counter demo: its four buttons

    [() => counterDispatch({ type: 'INCREMENT' })],
    [() => counterDispatch({ type: 'DECREMENT' })],
    [() => counterDispatch({ type: 'INCREMENT_BY', payload: 5 })] and
    [() => counterDispatch({ type: 'RESET' })]. *)

Definition incrementButton (d : demo) : js demo :=
  a ← alloc (Obj {[ "type" := VStr "INCREMENT" ]});
  counterDispatch a d.

Definition decrementButton (d : demo) : js demo :=
  a ← alloc (Obj {[ "type" := VStr "DECREMENT" ]});
  counterDispatch a d.

Definition plusFiveButton (d : demo) : js demo :=
  a ← alloc (Obj (<["type" := VStr "INCREMENT_BY"]>
                    {[ "payload" := VNum (Fin 5) ]}));
  counterDispatch a d.

Definition resetButton (d : demo) : js demo :=
  a ← alloc (Obj {[ "type" := VStr "RESET" ]});
  counterDispatch a d.

Definition counter_buttons : list (demo → js demo) :=
  [incrementButton; decrementButton; plusFiveButton; resetButton].

(** The component as the user can drive its counter. *)
Inductive counter_ui : heap → demo → Prop :=
| counter_ui_init h :
    module_heap `prefix_of` h → counter_ui h UseReducerDemo
| counter_ui_click h d h0 b d' h' :
    counter_ui h d →
    h `prefix_of` h0 →
    b ∈ counter_buttons →
    b d h0 = Ret (d', h') →
    counter_ui h' d'.

(** The count that the counter demo displays, [counterState.count]. *)
Definition displayed_count (h : heap) (d : demo) : option value :=
  props ← lookup_obj h (counterState d); Some (prop props "count").

(** ** Regular expressions

    The fragment of JavaScript's regular expressions that
    [/\S+@\S+\.\S+/] is written in: a character, [\S], sequence and [+];
    beside them the forms that the derivatives of such an expression
    pass through.  [r.test(s)] holds when some substring of [s] matches
    [r]: the search is that of [.*] before and after the expression. *)

Inductive regex :=
| REmpty                             (* no string *)
| REps                               (* the empty string *)
| RChar (c : Ascii.ascii)            (* the character c *)
| RNonSpace                          (* \S *)
| RAny                               (* any one character *)
| RSeq (r1 r2 : regex)               (* r1 r2 *)
| RAlt (r1 r2 : regex)               (* r1 | r2 *)
| RStar (r : regex).                 (* r* *)

(** [r+] *)
Definition RPlus (r : regex) : regex := RSeq r (RStar r).

Fixpoint nullable (r : regex) : bool :=
  match r with
  | REmpty | RChar _ | RNonSpace | RAny => false
  | REps | RStar _ => true
  | RSeq r1 r2 => nullable r1 && nullable r2
  | RAlt r1 r2 => nullable r1 || nullable r2
  end.

(** What is left of [r] to match once [c] has been read. *)
Fixpoint deriv (c : Ascii.ascii) (r : regex) : regex :=
  match r with
  | REmpty | REps => REmpty
  | RChar c' => if Ascii.eqb c c' then REps else REmpty
  | RNonSpace => if is_white_space c then REmpty else REps
  | RAny => REps
  | RSeq r1 r2 =>
      if nullable r1 then RAlt (RSeq (deriv c r1) r2) (deriv c r2)
      else RSeq (deriv c r1) r2
  | RAlt r1 r2 => RAlt (deriv c r1) (deriv c r2)
  | RStar r1 => RSeq (deriv c r1) (RStar r1)
  end.

(** The whole of [s] matches [r]. *)
Fixpoint matches (r : regex) (s : list Ascii.ascii) : bool :=
  match s with
  | [] => nullable r
  | c :: s' => matches (deriv c r) s'
  end.

(** [r.test(s)] for a string [s]. *)
Definition re_test (r : regex) (s : string) : bool :=
  matches (RSeq (RStar RAny) (RSeq r (RStar RAny)))
          (String.list_ascii_of_string s).

(** [r.test(v)]: the argument is converted to a string first. *)
Definition regexp_test (r : regex) (v : value) : js value :=
  s ← to_string v; mret (VBool (re_test r s)).

(** The strings that an expression matches. *)
Inductive lang : regex → list Ascii.ascii → Prop :=
| lang_eps : lang REps []
| lang_char c : lang (RChar c) [c]
| lang_nonspace c : is_white_space c = false → lang RNonSpace [c]
| lang_any c : lang RAny [c]
| lang_seq r1 r2 s1 s2 :
    lang r1 s1 → lang r2 s2 → lang (RSeq r1 r2) (s1 ++ s2)
| lang_alt_l r1 r2 s : lang r1 s → lang (RAlt r1 r2) s
| lang_alt_r r1 r2 s : lang r2 s → lang (RAlt r1 r2) s
| lang_star_nil r : lang (RStar r) []
| lang_star_cons r s1 s2 :
    lang r s1 → lang (RStar r) s2 → lang (RStar r) (s1 ++ s2).

(** The character that a one-character string literal holds. *)
Definition char (s : string) : Ascii.ascii :=
  match s with
  | String c _ => c
  | EmptyString => Ascii.zero
  end.

(** [/\S+@\S+\.\S+/] *)
Definition email_regex : regex :=
  RSeq (RPlus RNonSpace)
    (RSeq (RChar (char "@"))
       (RSeq (RPlus RNonSpace)
          (RSeq (RChar (char ".")) (RPlus RNonSpace)))).

(** A non-empty run of characters none of which is white space. *)
Definition non_space (s : list Ascii.ascii) : Prop :=
  s ≠ [] ∧ Forall (λ c, is_white_space c = false) s.

(** ** The form: [validateForm] and [handleFormSubmit] *)

(** [v.k = x] in the strict mode of a module: on a plain object the
    property is set, in place; on [undefined], [null] and the primitives
    the assignment throws a TypeError.  (Arrays are not covered.) *)
Definition set_prop (v : value) (k : string) (x : value) : js unit :=
  match v with
  | VUndef | VNull | VBool _ | VNum _ | VStr _ => throw TypeError
  | VRef l =>
      λ h, match h !! l with
           | Some (Obj props) => Ret (tt, <[l := Obj (<[k := x]> props)]> h)
           | Some (Arr _) | None => Unsupported
           end
  end.

(** [Object.keys(v)] on a plain object: a new array of its property
    names.  (An object's properties are kept as a finite map; the names
    come in the order of the map, not in the order of insertion.) *)
Definition object_keys (v : value) : js value :=
  match v with
  | VUndef | VNull => throw TypeError
  | VBool _ | VNum _ => alloc (Arr [])
  | VStr _ => unsupported
  | VRef l =>
      o ← deref l;
      match o with
      | Obj props => alloc (Arr (VStr <$> (map_to_list props).*1))
      | Arr _ => unsupported
      end
  end.

Definition validateForm (d : demo) : js value :=
  errors ← alloc (Obj ∅);
  username ← get_prop (formState d) "username";
  t ← string_trim username;
  _ ← (if truthy (js_not t) then
         set_prop errors "username" (VStr "Username is required")
       else
         username ← get_prop (formState d) "username";
         n ← get_length username;
         b ← js_lt n (VNum (Fin 3));
         if truthy b then
           set_prop errors "username"
             (VStr "Username must be at least 3 characters")
         else mret tt);
  email ← get_prop (formState d) "email";
  t ← string_trim email;
  _ ← (if truthy (js_not t) then
         set_prop errors "email" (VStr "Email is required")
       else
         email ← get_prop (formState d) "email";
         m ← regexp_test email_regex email;
         if truthy (js_not m) then
           set_prop errors "email" (VStr "Email is invalid")
         else mret tt);
  password ← get_prop (formState d) "password";
  _ ← (if truthy (js_not password) then
         set_prop errors "password" (VStr "Password is required")
       else
         password ← get_prop (formState d) "password";
         n ← get_length password;
         b ← js_lt n (VNum (Fin 6));
         if truthy b then
           set_prop errors "password"
             (VStr "Password must be at least 6 characters")
         else mret tt);
  age ← get_prop (formState d) "age";
  _ ← (if truthy (js_not age) then
         set_prop errors "age" (VStr "Age is required")
       else
         age ← get_prop (formState d) "age";
         b1 ← js_lt age (VNum (Fin 18));
         b ← (if truthy b1 then mret b1
              else age ← get_prop (formState d) "age";
                   js_gt age (VNum (Fin 100)));
         if truthy b then
           set_prop errors "age" (VStr "Age must be between 18 and 100")
         else mret tt);
  mret errors.

(** The callback that [handleFormSubmit] hands to [setTimeout]:
    [() => { console.log('Form submitted:', formState); alert('Form
    submitted successfully!'); formDispatch({ type: 'SUBMIT_SUCCESS' }); }].
    The log and the alert act on the browser; the embedding keeps the
    dispatch. *)
Definition submitted (d : demo) : js demo :=
  a ← alloc (Obj {[ "type" := VStr "SUBMIT_SUCCESS" ]});
  formDispatch a d.

(** [handleFormSubmit]: the state it leaves the component in, and the
    callbacks it has scheduled with [setTimeout], each with its delay in
    milliseconds. *)
Definition handleFormSubmit (d : demo)
    : js (demo * list (Z * (demo → js demo))) :=
  errors ← validateForm d;
  keys ← object_keys errors;
  n ← get_length keys;
  b ← js_gt n (VNum (Fin 0));
  if truthy b then
    a ← alloc (Obj (<["type" := VStr "SET_ERRORS"]> {[ "errors" := errors ]}));
    d' ← formDispatch a d;
    mret (d', [])
  else
    a ← alloc (Obj {[ "type" := VStr "SUBMIT_START" ]});
    d' ← formDispatch a d;
    mret (d', [(1000, submitted)]).

(** The [onChange] closures of the three text inputs,
    [(e) => formDispatch({ type: 'UPDATE_FIELD', field: f, value:
    e.target.value })] for [f] one of ['username'], ['email'] and
    ['password']; [text] is the [e.target.value] of the event. *)
Definition fieldInput (f : string) (text : string) (d : demo) : js demo :=
  a ← alloc (Obj (<["type" := VStr "UPDATE_FIELD"]> (<["field" := VStr f]>
                    {[ "value" := VStr text ]})));
  formDispatch a d.

(** A form state read from the store: its properties and those of its
    [errors]. *)
Definition form_view (h : heap) (s : value)
    : option (gmap string value * gmap string value) :=
  props ← lookup_obj h s;
  eprops ← lookup_obj h (prop props "errors");
  Some (props, eprops).

(** The age as the age input leaves it: [parseInt(e.target.value) || '']
    is an integer other than zero, or the empty string. *)
Definition age_value (a : option Z) : value :=
  match a with Some n => VNum (Fin n) | None => VStr "" end.

(** The fields of a form state: three strings and an age. *)
Definition form_fields (props : gmap string value)
    (u e p : string) (a : option Z) : Prop :=
  prop props "username" = VStr u ∧ prop props "email" = VStr e ∧
  prop props "password" = VStr p ∧ prop props "age" = age_value a.

(** The message, if any, that [validateForm] leaves for each field. *)
Definition username_error (u : string) : option string :=
  if all_white_space u then Some "Username is required"%string
  else if bool_decide (Z.of_nat (String.length u) < 3)
       then Some "Username must be at least 3 characters"%string
  else None.

Definition email_error (e : string) : option string :=
  if all_white_space e then Some "Email is required"%string
  else if re_test email_regex e then None
  else Some "Email is invalid"%string.

Definition password_error (p : string) : option string :=
  if String.eqb p "" then Some "Password is required"%string
  else if bool_decide (Z.of_nat (String.length p) < 6)
       then Some "Password must be at least 6 characters"%string
  else None.

Definition age_error (a : option Z) : option string :=
  match a with
  | None => Some "Age is required"%string
  | Some n =>
      if bool_decide (n = 0) then Some "Age is required"%string
      else if bool_decide (n < 18 ∨ 100 < n)
           then Some "Age must be between 18 and 100"%string
      else None
  end.

Definition set_error (k : string) (o : option string)
    (m : gmap string value) : gmap string value :=
  match o with Some msg => <[k := VStr msg]> m | None => m end.

(** The object that holds these messages. *)
Definition field_errors (u e p : string) (a : option Z)
    : gmap string value :=
  set_error "age" (age_error a)
    (set_error "password" (password_error p)
       (set_error "email" (email_error e)
          (set_error "username" (username_error u) ∅))).

(** ** The age input: [parseInt(e.target.value) || ''] *)

(** The value of a character as a digit: ['0'] to ['9'], and the letters,
    of either case, for 10 to 35. *)
Definition digit_of (c : Ascii.ascii) : option Z :=
  let n := Z.of_N (Ascii.N_of_ascii c) in
  if (48 <=? n) && (n <=? 57) then Some (n - 48)
  else if (97 <=? n) && (n <=? 122) then Some (n - 87)
  else if (65 <=? n) && (n <=? 90) then Some (n - 55)
  else None.

Definition radix_digit (r : Z) (c : Ascii.ascii) : option Z :=
  match digit_of c with
  | Some d => if d <? r then Some d else None
  | None => None
  end.

(** The integer that [acc] followed by the longest prefix of [s] made of
    digits of radix [r] denotes. *)
Fixpoint parse_digits (r acc : Z) (s : string) : Z :=
  match s with
  | String c s' =>
      match radix_digit r c with
      | Some d => parse_digits r (acc * r + d) s'
      | None => acc
      end
  | EmptyString => acc
  end.

Definition starts_with_digit (r : Z) (s : string) : bool :=
  match s with
  | String c _ => bool_decide (is_Some (radix_digit r c))
  | EmptyString => false
  end.

(** [parseInt(v)], with no radix: the argument is converted to a string;
    leading white space is skipped; a sign is read; after ["0x"] or ["0X"]
    the radix is 16, and 10 otherwise; the digits up to the first
    character that is not one are read, and the result is NaN when there
    is none.  (Integers of 2^53 and more, which the result would round,
    are not covered.) *)
Definition parseInt (v : value) : js value :=
  s ← to_string v;
  let s1 := trim_start s in
  let '(sign, s2) :=
    match s1 with
    | String c s' =>
        if Ascii.eqb c (char "-") then (-1, s')
        else if Ascii.eqb c (char "+") then (1, s')
        else (1, s1)
    | EmptyString => (1, s1)
    end in
  let '(r, s3) :=
    match s2 with
    | String c (String x s') =>
        if Ascii.eqb c (char "0") &&
           (Ascii.eqb x (char "x") || Ascii.eqb x (char "X"))
        then (16, s') else (10, s2)
    | _ => (10, s2)
    end in
  if starts_with_digit r s3 then
    let n := parse_digits r 0 s3 in
    if decide (n < 2 ^ 53) then mret (VNum (Fin (sign * n)))
    else unsupported
  else mret (VNum NaN).

(** The [onChange] of the age input,
    [(e) => formDispatch({ type: 'UPDATE_FIELD', field: 'age', value:
    parseInt(e.target.value) || '' })]; [text] is the [e.target.value] of
    the event. *)
Definition ageInput (text : string) (d : demo) : js demo :=
  n ← parseInt (VStr text);
  a ← alloc (Obj (<["type" := VStr "UPDATE_FIELD"]> (<["field" := VStr "age"]>
                    {[ "value" := if truthy n then n else VStr "" ]})));
  formDispatch a d.

(** "Reset Form": [() => formDispatch({ type: 'RESET_FORM' })] *)
Definition resetFormButton (d : demo) : js demo :=
  a ← alloc (Obj {[ "type" := VStr "RESET_FORM" ]});
  formDispatch a d.

(** The component as the user can drive its form: it starts with the
    initial states and nothing scheduled; the user types into one of the
    four inputs, submits the form or clicks "Reset Form"; a callback
    that a submission has scheduled runs, once; in between, the rest of
    the program may allocate. *)
Inductive form_ui : heap → demo → list (Z * (demo → js demo)) → Prop :=
| form_ui_init h :
    module_heap `prefix_of` h → form_ui h UseReducerDemo []
| form_ui_alloc h d q h' :
    form_ui h d q → h `prefix_of` h' → form_ui h' d q
| form_ui_field h d q f text d' h' :
    form_ui h d q →
    f ∈ ["username"; "email"; "password"]%string →
    fieldInput f text d h = Ret (d', h') →
    form_ui h' d' q
| form_ui_age h d q text d' h' :
    form_ui h d q →
    ageInput text d h = Ret (d', h') →
    form_ui h' d' q
| form_ui_submit h d q d' cbs h' :
    form_ui h d q →
    handleFormSubmit d h = Ret ((d', cbs), h') →
    form_ui h' d' (q ++ cbs)
| form_ui_reset h d q d' h' :
    form_ui h d q →
    resetFormButton d h = Ret (d', h') →
    form_ui h' d' q
| form_ui_timeout h d q1 t cb q2 d' h' :
    form_ui h d (q1 ++ (t, cb) :: q2) →
    cb d h = Ret (d', h') →
    form_ui h' d' (q1 ++ q2).

(** What the form keeps true of its state: the three text fields hold
    strings, the age is the empty string or an integer other than zero,
    and [errors] is an object. *)
Definition form_inv (h : heap) (d : demo) : Prop :=
  module_heap `prefix_of` h ∧
  ∃ props eprops u e p a,
    lookup_obj h (formState d) = Some props ∧
    lookup_obj h (prop props "errors") = Some eprops ∧
    form_fields props u e p a ∧ a ≠ Some 0.

(** * Lemmas about the monad and the store *)

Section monad.
Context {A B : Type}.

Lemma bind_Ret (m : js A) (k : A → js B) h a h' :
  m h = Ret (a, h') → (m ≫= k) h = k a h'.
Proof. intros Hm. unfold mbind, js_bind. by rewrite Hm. Qed.

Lemma bind_Ret_inv (m : js A) (k : A → js B) h b h'' :
  (m ≫= k) h = Ret (b, h'') →
  ∃ a h', m h = Ret (a, h') ∧ k a h' = Ret (b, h'').
Proof.
  unfold mbind, js_bind. destruct (m h) as [[a h']| |]; [|done..].
  intros Hk. by exists a, h'.
Qed.

Lemma bind_Throw (m : js A) (k : A → js B) h e :
  m h = Throw e → (m ≫= k) h = Throw e.
Proof. intros Hm. unfold mbind, js_bind. by rewrite Hm. Qed.
End monad.

Lemma lookup_obj_Some h v props :
  lookup_obj h v = Some props ↔ ∃ l, v = VRef l ∧ h !! l = Some (Obj props).
Proof.
  split.
  - destruct v as [| | | | |l]; simpl; try done.
    destruct (h !! l) as [[]|] eqn:E; intros [= ->]. eauto.
  - intros (l & -> & H). simpl. by rewrite H.
Qed.

Lemma lookup_arr_Some h v elems :
  lookup_arr h v = Some elems ↔ ∃ l, v = VRef l ∧ h !! l = Some (Arr elems).
Proof.
  split.
  - destruct v as [| | | | |l]; simpl; try done.
    destruct (h !! l) as [[]|] eqn:E; intros [= ->]. eauto.
  - intros (l & -> & H). simpl. by rewrite H.
Qed.

Lemma lookup_obj_prefix h h' v props :
  h `prefix_of` h' → lookup_obj h v = Some props → lookup_obj h' v = Some props.
Proof.
  intros Hh (l & -> & H)%lookup_obj_Some. apply lookup_obj_Some.
  eauto using prefix_lookup_Some.
Qed.

Lemma lookup_arr_prefix h h' v elems :
  h `prefix_of` h' → lookup_arr h v = Some elems → lookup_arr h' v = Some elems.
Proof.
  intros Hh (l & -> & H)%lookup_arr_Some. apply lookup_arr_Some.
  eauto using prefix_lookup_Some.
Qed.

Lemma lookup_obj_alloc h props :
  lookup_obj (h ++ [Obj props]) (VRef (length h)) = Some props.
Proof.
  apply lookup_obj_Some. eexists. split; [done|]. by apply list_lookup_middle.
Qed.

Lemma lookup_arr_alloc h elems :
  lookup_arr (h ++ [Arr elems]) (VRef (length h)) = Some elems.
Proof.
  apply lookup_arr_Some. eexists. split; [done|]. by apply list_lookup_middle.
Qed.

Lemma objs_Some h elems tps :
  objs h elems = Some tps ↔
  Forall2 (λ v tp, lookup_obj h v = Some tp) elems tps.
Proof. apply mapM_Some. Qed.

Lemma objs_prefix h h' elems tps :
  h `prefix_of` h' → objs h elems = Some tps → objs h' elems = Some tps.
Proof.
  rewrite !objs_Some. intros Hh Hall.
  eapply Forall2_impl; eauto using lookup_obj_prefix.
Qed.

Lemma prop_insert_eq props k v : prop (<[k := v]> props) k = v.
Proof. unfold prop. by rewrite lookup_insert_eq. Qed.

Lemma prop_insert_ne props k k' v :
  k ≠ k' → prop (<[k := v]> props) k' = prop props k'.
Proof. intros. unfold prop. by rewrite lookup_insert_ne. Qed.

Lemma prop_singleton k v : prop {[ k := v ]} k = v.
Proof. unfold prop. by rewrite lookup_singleton_eq. Qed.

(** ** The built-ins on the values they are meant for *)

Lemma get_prop_obj h v props k :
  lookup_obj h v = Some props → get_prop v k h = Ret (prop props k, h).
Proof.
  intros (l & -> & H)%lookup_obj_Some.
  unfold get_prop, deref, mbind, js_bind. by rewrite H.
Qed.

Lemma own_props_obj h v props :
  lookup_obj h v = Some props → own_props v h = Ret (props, h).
Proof.
  intros (l & -> & H)%lookup_obj_Some.
  unfold own_props, deref, mbind, js_bind. by rewrite H.
Qed.

Lemma iterate_arr h v elems :
  lookup_arr h v = Some elems → iterate v h = Ret (elems, h).
Proof.
  intros (l & -> & H)%lookup_arr_Some.
  unfold iterate, deref, mbind, js_bind. by rewrite H.
Qed.

Lemma array_receiver_arr h v elems :
  lookup_arr h v = Some elems → array_receiver v h = Ret (elems, h).
Proof.
  intros (l & -> & H)%lookup_arr_Some.
  unfold array_receiver, deref, mbind, js_bind. by rewrite H.
Qed.

Lemma js_add_num a b h :
  js_add (VNum a) (VNum b) h = Ret (VNum (num_add a b), h).
Proof. done. Qed.

Lemma js_sub_num a b h :
  js_sub (VNum a) (VNum b) h = Ret (VNum (num_sub a b), h).
Proof. done. Qed.

Lemma js_mul_num a b h :
  js_mul (VNum a) (VNum b) h = Ret (VNum (num_mul a b), h).
Proof. done. Qed.

Lemma strict_eq_VStr v c : strict_eq v (VStr c) = true ↔ v = VStr c.
Proof.
  destruct v as [| | |[]| |]; simpl; try (split; done).
  rewrite bool_decide_eq_true. split; congruence.
Qed.

Lemma strict_eq_true a b : strict_eq a b = true → a = b.
Proof.
  destruct a as [| | |[]| |], b as [| | |[]| |]; simpl; try done;
    rewrite bool_decide_eq_true; congruence.
Qed.

Lemma strict_eq_sym a b : strict_eq a b = strict_eq b a.
Proof.
  destruct a as [| | |[]| |], b as [| | |[]| |]; simpl; try done;
    apply bool_decide_ext; split; congruence.
Qed.

Lemma switch_hit {A} c (body : js A) rest dflt :
  switch (VStr c) ((c, body) :: rest) dflt = body.
Proof. simpl. by rewrite bool_decide_true. Qed.

Lemma switch_miss {A} v c (body : js A) rest dflt :
  v ≠ VStr c → switch v ((c, body) :: rest) dflt = switch v rest dflt.
Proof.
  intros Hv. simpl. destruct (strict_eq v (VStr c)) eqn:E; [|done].
  by apply strict_eq_VStr in E.
Qed.

Lemma switch_default {A} v (cases : list (string * js A)) dflt :
  v ∉ VStr <$> cases.*1 → switch v cases dflt = dflt.
Proof.
  induction cases as [|[c body] cases IH]; [done|].
  rewrite !fmap_cons, not_elem_of_cons. intros [? ?].
  rewrite switch_miss by done. auto.
Qed.

(** ** Running the code on known objects

    [js_step] runs the first computation of a bind whose outcome follows
    from the hypotheses; [switch_case] splits on whether the scrutinee of a
    [switch] is the next case label. *)

Create HintDb js discriminated.
#[local] Hint Resolve get_prop_obj own_props_obj iterate_arr
  array_receiver_arr js_add_num js_sub_num js_mul_num lookup_obj_alloc
  lookup_arr_alloc : js.
#[local] Hint Extern 2 (lookup_obj _ _ = Some _) =>
  eapply lookup_obj_prefix; [|eassumption];
  solve [eauto using prefix_app_r with js] : js.

Ltac js_step :=
  match goal with
  | |- context [(?m ≫= ?k) ?h] =>
      erewrite (bind_Ret m k h) by (eauto with js); cbv beta
  end.

Ltac prefix_tac :=
  first [reflexivity | eassumption | apply prefix_app_r; prefix_tac].

Ltac switch_case c :=
  match goal with
  | |- context [switch ?ty ((c, ?body) :: ?rest) ?dflt] =>
      let E := fresh "Hty" in
      destruct (decide (ty = VStr c)) as [E|E];
      [rewrite E, switch_hit
      |rewrite (switch_miss ty c body rest dflt) by done]
  end.

Lemma array_find_run h v elems cb x h1 :
  lookup_arr h v = Some elems → find_loop cb elems h = Ret (x, h1) →
  array_find v cb h = Ret (x, h1).
Proof. intros Hv Hloop. unfold array_find. by js_step. Qed.

Lemma array_map_run h v elems cb vs h1 :
  lookup_arr h v = Some elems → map_loop cb elems h = Ret (vs, h1) →
  array_map v cb h = Ret (VRef (length h1), h1 ++ [Arr vs]).
Proof.
  intros Hv Hloop. unfold array_map. js_step. by erewrite bind_Ret by done.
Qed.

Lemma array_filter_run h v elems cb vs h1 :
  lookup_arr h v = Some elems → filter_loop cb elems h = Ret (vs, h1) →
  array_filter v cb h = Ret (VRef (length h1), h1 ++ [Arr vs]).
Proof.
  intros Hv Hloop. unfold array_filter. js_step. by erewrite bind_Ret by done.
Qed.

(** ** The loops of [find], [map] and [filter]

    For a relation [R] between the elements and what they stand for that
    survives allocation: a callback that maps [t] to [f t], or that tests
    [p t], makes the loop map with [f], or filter or search with [p]. *)

Section loops.
Context {T : Type} (R : heap → value → T → Prop).
Hypothesis R_stable :
  ∀ h h' v t, h `prefix_of` h' → R h v t → R h' v t.

Lemma Forall2_stable h h' elems ts :
  h `prefix_of` h' → Forall2 (R h) elems ts → Forall2 (R h') elems ts.
Proof. intros Hh Hall. eapply Forall2_impl; eauto. Qed.

Lemma map_loop_spec cb (f : T → T) :
  (∀ h v t, R h v t →
     ∃ v' h', cb v h = Ret (v', h') ∧ h `prefix_of` h' ∧ R h' v' (f t)) →
  ∀ elems ts h, Forall2 (R h) elems ts →
    ∃ vs h', map_loop cb elems h = Ret (vs, h') ∧ h `prefix_of` h' ∧
             Forall2 (R h') vs (f <$> ts).
Proof.
  intros Hcb elems. induction elems as [|v elems IH]; intros ts h Hall.
  - apply Forall2_nil_inv_l in Hall as ->. by exists [], h.
  - apply Forall2_cons_inv_l in Hall as (t & ts' & Hv & Hrest & ->).
    destruct (Hcb _ _ _ Hv) as (v' & h1 & Hrun & Hh1 & Hv').
    destruct (IH ts' h1) as (vs & h2 & Hloop & Hh2 & Hvs);
      [by eapply Forall2_stable|].
    exists (v' :: vs), h2. split_and!.
    + simpl. erewrite bind_Ret by done. by erewrite bind_Ret by done.
    + by etrans.
    + rewrite fmap_cons. constructor; eauto.
Qed.

Lemma filter_loop_spec cb (p : T → bool) :
  (∀ h v t, R h v t → ∃ b, cb v h = Ret (b, h) ∧ truthy b = p t) →
  ∀ elems ts h, Forall2 (R h) elems ts →
    ∃ vs, filter_loop cb elems h = Ret (vs, h) ∧
          Forall2 (R h) vs (filter p ts).
Proof.
  intros Hcb elems. induction elems as [|v elems IH]; intros ts h Hall.
  - apply Forall2_nil_inv_l in Hall as ->. by exists [].
  - apply Forall2_cons_inv_l in Hall as (t & ts' & Hv & Hrest & ->).
    destruct (Hcb _ _ _ Hv) as (b & Hrun & Hb).
    destruct (IH ts' h Hrest) as (vs & Hloop & Hvs).
    exists (if p t then v :: vs else vs). split.
    + simpl. erewrite bind_Ret by done. erewrite bind_Ret by done.
      by rewrite Hb.
    + destruct (p t) eqn:E.
      * rewrite filter_cons_True by (by rewrite E). by constructor.
      * rewrite filter_cons_False by (rewrite E; by intros ?). done.
Qed.

Lemma find_loop_spec cb (p : T → bool) :
  (∀ h v t, R h v t → ∃ b, cb v h = Ret (b, h) ∧ truthy b = p t) →
  ∀ elems ts h, Forall2 (R h) elems ts →
    ∃ v, find_loop cb elems h = Ret (v, h) ∧
         match head (filter p ts) with
         | Some t => R h v t
         | None => v = VUndef
         end.
Proof.
  intros Hcb elems. induction elems as [|v elems IH]; intros ts h Hall.
  - apply Forall2_nil_inv_l in Hall as ->. by exists VUndef.
  - apply Forall2_cons_inv_l in Hall as (t & ts' & Hv & Hrest & ->).
    destruct (Hcb _ _ _ Hv) as (b & Hrun & Hb).
    simpl. setoid_rewrite (bind_Ret _ _ _ _ _ Hrun). rewrite Hb.
    destruct (p t) eqn:E.
    + rewrite filter_cons_True by (by rewrite E). by exists v.
    + rewrite filter_cons_False by (rewrite E; by intros ?). eauto.
Qed.
End loops.

Lemma above_stable {T} h0 (R : heap → value → T → Prop) :
  (∀ h h' v t, h `prefix_of` h' → R h v t → R h' v t) →
  ∀ h h' v t, h `prefix_of` h' → above h0 R h v t → above h0 R h' v t.
Proof. intros HR h h' v t Hh [? ?]. split; [by etrans|eauto]. Qed.

Lemma is_obj_above_stable h0 h h' v t :
  h `prefix_of` h' → above h0 is_obj h v t → above h0 is_obj h' v t.
Proof. apply above_stable. intros ????. apply lookup_obj_prefix. Qed.

Lemma objs_above h elems tps :
  objs h elems = Some tps ↔ Forall2 (above h is_obj h) elems tps.
Proof.
  rewrite objs_Some.
  split; intros H; eapply Forall2_impl; [done|by split|done|by intros ?? []].
Qed.

Lemma above_objs h0 h elems tps :
  Forall2 (above h0 is_obj h) elems tps → objs h elems = Some tps.
Proof.
  rewrite objs_Some. intros H. eapply Forall2_impl; [done|by intros ?? []].
Qed.

(** * The store only grows

    No built-in and no reducer changes or removes an object of the store:
    whatever the state and the action, a run that returns leaves the store
    it started in as a prefix of the store it ends in. *)

Lemma grows_ret {A} (a : A) : grows (mret a).
Proof. intros h a' h' [= _ <-]. done. Qed.

Lemma grows_bind {A B} (m : js A) (k : A → js B) :
  grows m → (∀ a, grows (k a)) → grows (m ≫= k).
Proof.
  intros Hm Hk h b h'' (a & h' & H1 & H2)%bind_Ret_inv.
  etrans; [by eapply Hm | by eapply Hk].
Qed.

Lemma grows_throw {A} e : grows (@throw A e).
Proof. by intros h a h'. Qed.

Lemma grows_unsupported {A} : grows (@unsupported A).
Proof. by intros h a h'. Qed.

Lemma grows_alloc o : grows (alloc o).
Proof. intros h a h' [= _ <-]. by apply prefix_app_r. Qed.

Lemma grows_deref l : grows (deref l).
Proof. intros h a h'. unfold deref. by destruct (h !! l); intros [= _ <-]. Qed.

Lemma grows_switch {A} v (cases : list (string * js A)) dflt :
  Forall (λ c, grows c.2) cases → grows dflt → grows (switch v cases dflt).
Proof.
  intros Hc Hd. induction Hc as [|[c body] cases Hb _ IH]; simpl; [done|].
  by destruct (strict_eq v (VStr c)).
Qed.

Ltac grows_prim :=
  repeat first
    [ apply grows_ret | apply grows_throw | apply grows_unsupported
    | apply grows_alloc | apply grows_deref
    | apply grows_bind; [|intros ?]
    | match goal with
      | |- grows (match ?x with _ => _ end) => destruct x
      end ].

Lemma grows_to_string v : grows (to_string v).
Proof. unfold to_string. grows_prim. Qed.

Lemma grows_to_number v : grows (to_number v).
Proof. unfold to_number. grows_prim. Qed.

Lemma grows_get_prop v k : grows (get_prop v k).
Proof. unfold get_prop. grows_prim. Qed.

Lemma grows_own_props v : grows (own_props v).
Proof. unfold own_props. grows_prim. Qed.

Lemma grows_iterate v : grows (iterate v).
Proof. unfold iterate. grows_prim. Qed.

Lemma grows_array_receiver v : grows (array_receiver v).
Proof. unfold array_receiver. grows_prim. Qed.

Lemma grows_js_add a b : grows (js_add a b).
Proof.
  unfold js_add. grows_prim; apply grows_to_string || apply grows_to_number.
Qed.

Lemma grows_js_sub a b : grows (js_sub a b).
Proof. unfold js_sub. grows_prim; apply grows_to_number. Qed.

Lemma grows_js_mul a b : grows (js_mul a b).
Proof. unfold js_mul. grows_prim; apply grows_to_number. Qed.

Lemma grows_find_loop cb elems :
  (∀ x, grows (cb x)) → grows (find_loop cb elems).
Proof. intros Hcb. induction elems; simpl; grows_prim; done. Qed.

Lemma grows_map_loop cb elems :
  (∀ x, grows (cb x)) → grows (map_loop cb elems).
Proof. intros Hcb. induction elems; simpl; grows_prim; done. Qed.

Lemma grows_filter_loop cb elems :
  (∀ x, grows (cb x)) → grows (filter_loop cb elems).
Proof. intros Hcb. induction elems; simpl; grows_prim; done. Qed.

Lemma grows_array_find v cb : (∀ x, grows (cb x)) → grows (array_find v cb).
Proof.
  intros. unfold array_find.
  grows_prim; auto using grows_array_receiver, grows_find_loop.
Qed.

Lemma grows_array_map v cb : (∀ x, grows (cb x)) → grows (array_map v cb).
Proof.
  intros. unfold array_map.
  grows_prim; auto using grows_array_receiver, grows_map_loop.
Qed.

Lemma grows_array_filter v cb :
  (∀ x, grows (cb x)) → grows (array_filter v cb).
Proof.
  intros. unfold array_filter.
  grows_prim; auto using grows_array_receiver, grows_filter_loop.
Qed.

Ltac grows_code :=
  repeat first
    [ apply grows_ret | apply grows_throw | apply grows_alloc
    | apply grows_to_string | apply grows_get_prop | apply grows_own_props
    | apply grows_iterate | apply grows_js_add | apply grows_js_sub
    | apply grows_js_mul
    | apply grows_array_find; intros ?
    | apply grows_array_map; intros ?
    | apply grows_array_filter; intros ?
    | apply grows_bind; [|intros ?]
    | apply grows_switch;
        [repeat apply Forall_cons_2; try apply Forall_nil_2; simpl|]
    | match goal with
      | |- grows (if ?x then _ else _) => destruct x
      end ].

Lemma grows_counterReducer s a : grows (counterReducer s a).
Proof. unfold counterReducer. grows_code. Qed.

Lemma grows_formReducer s a : grows (formReducer s a).
Proof. unfold formReducer, to_property_key. grows_code. Qed.

Lemma grows_todoReducer s a : grows (todoReducer s a).
Proof. unfold todoReducer. grows_code. Qed.

Lemma grows_cartReducer s a : grows (cartReducer s a).
Proof. unfold cartReducer. grows_code. Qed.

(** ** A run that ends in an allocation returns a new object *)

Lemma allocates_alloc o : allocates (alloc o).
Proof.
  intros h v h' [= <- <-]. exists (length h). split_and!; [done|..].
  - by apply lookup_ge_None.
  - exists o. by apply list_lookup_middle.
Qed.

Lemma allocates_bind {A} (m : js A) (k : A → js value) :
  grows m → (∀ a, allocates (k a)) → allocates (m ≫= k).
Proof.
  intros Hm Hk h v h'' (a & h' & H1 & H2)%bind_Ret_inv.
  destruct (Hk _ _ _ _ H2) as (l & -> & Hnone & Hsome).
  exists l. split_and!; [done| |done].
  apply Hm in H1. destruct (h !! l) as [o|] eqn:E; [|done].
  apply (prefix_lookup_Some _ h') in E; [|done].
  exact (eq_trans (eq_sym E) Hnone).
Qed.

Lemma allocates_if (b : bool) (m1 m2 : js value) :
  allocates m1 → allocates m2 → allocates (if b then m1 else m2).
Proof. by destruct b. Qed.

Ltac allocates_code :=
  repeat first
    [ apply allocates_alloc
    | apply allocates_if
    | apply allocates_bind; [solve [grows_code]|intros ?] ].

(** * todoReducer on a todo state

    On a state whose [todos] is an array of objects and whose [nextId] is a
    number, and for any action object, the reducer returns; the todos and
    the other properties of the new state are those of [todo_items_after]
    and [todo_props_after]. *)

(** The callbacks [x => x.id === action.id ? { ...x, k: e } : x] of the
    [map] calls, run on an object of a store that extends [h0]. *)
Ltac update_cb h0 action ap :=
  let h := fresh "h" in
  let v := fresh "v" in
  let tp := fresh "tp" in
  let Hh := fresh "Hh" in
  let Hv := fresh "Hv" in
  intros h v tp [Hh Hv]; red in Hv; cbv beta;
  assert (lookup_obj h action = Some ap) by eauto using lookup_obj_prefix;
  do 2 js_step;
  destruct (strict_eq _ _);
  [ repeat js_step; eexists _, _; split; [done|]; split; [prefix_tac|];
    split; [prefix_tac|]; apply lookup_obj_alloc
  | by eexists _, _ ].

Lemma todoReducer_spec h state action props ap tv elems tps n :
  lookup_obj h state = Some props →
  props !! "todos" = Some tv →
  lookup_arr h tv = Some elems →
  objs h elems = Some tps →
  props !! "nextId" = Some (VNum n) →
  lookup_obj h action = Some ap →
  ∃ s' h' tv' elems',
    todoReducer state action h = Ret (s', h') ∧ h `prefix_of` h' ∧
    lookup_obj h' s' =
      Some (<["todos" := tv']> (todo_props_after ap n props)) ∧
    lookup_arr h' tv' = Some elems' ∧
    objs h' elems' = Some (todo_items_after ap (VNum n) tps).
Proof.
  intros Hs Htodos Harr Hall Hnext Ha.
  assert (Hpt : prop props "todos" = tv) by (unfold prop; by rewrite Htodos).
  assert (Hpn : prop props "nextId" = VNum n)
    by (unfold prop; by rewrite Hnext).
  unfold todoReducer, todo_props_after, todo_items_after. cbv zeta. js_step.
  switch_case "ADD_TODO"%string.
  { repeat js_step. rewrite Hpt. repeat js_step.
    rewrite Hpn. repeat js_step.
    eexists _, _, _, _. split; [done|]. split_and!.
    - prefix_tac.
    - rewrite lookup_obj_alloc, (insert_insert_ne _ "nextId" "todos") by done.
      done.
    - eapply lookup_arr_prefix; [|apply lookup_arr_alloc]. prefix_tac.
    - apply objs_Some, Forall2_app.
      + apply objs_Some. eapply objs_prefix; [|done]. prefix_tac.
      + constructor; [|constructor].
        eapply lookup_obj_prefix; [|apply lookup_obj_alloc]. prefix_tac. }
  switch_case "TOGGLE_TODO"%string.
  { rewrite decide_False by done.
    repeat js_step. rewrite Hpt.
    apply objs_above in Hall.
    match goal with |- context [array_map _ ?cb] =>
      destruct (map_loop_spec (above h is_obj) (is_obj_above_stable h) cb
                  (λ tp, if strict_eq (prop tp "id") (prop ap "id")
                         then <["completed" := js_not (prop tp "completed")]> tp
                         else tp)) with (2 := Hall)
        as (vs & h1 & Hloop & Hh1 & Hvs)
    end.
    { update_cb h action ap. }
    erewrite bind_Ret by (eapply array_map_run; eauto).
    eexists _, _, _, _. split; [done|]. split_and!.
    - etrans; [done|prefix_tac].
    - by rewrite lookup_obj_alloc.
    - eapply lookup_arr_prefix; [|apply lookup_arr_alloc]. prefix_tac.
    - eapply objs_prefix; [|eapply above_objs, Hvs]. prefix_tac. }
  switch_case "DELETE_TODO"%string.
  { rewrite decide_False by done.
    repeat js_step. rewrite Hpt.
    apply objs_above in Hall.
    match goal with |- context [array_filter _ ?cb] =>
      destruct (filter_loop_spec (above h is_obj) cb
                  (λ tp, negb (strict_eq (prop tp "id") (prop ap "id"))))
        with (2 := Hall) as (vs & Hloop & Hvs)
    end.
    { intros h2 v tp [Hh2 Hv]. red in Hv.
      assert (lookup_obj h2 action = Some ap) by eauto using lookup_obj_prefix.
      eexists. split; [by repeat js_step|done]. }
    erewrite bind_Ret by (eapply array_filter_run; eauto).
    eexists _, _, _, _. split; [done|]. split_and!.
    - prefix_tac.
    - by rewrite lookup_obj_alloc.
    - eapply lookup_arr_prefix; [|apply lookup_arr_alloc]. prefix_tac.
    - eapply objs_prefix; [|eapply above_objs, Hvs]. prefix_tac. }
  switch_case "EDIT_TODO"%string.
  { rewrite decide_False by done.
    repeat js_step. rewrite Hpt.
    apply objs_above in Hall.
    match goal with |- context [array_map _ ?cb] =>
      destruct (map_loop_spec (above h is_obj) (is_obj_above_stable h) cb
                  (λ tp, if strict_eq (prop tp "id") (prop ap "id")
                         then <["text" := prop ap "text"]> tp
                         else tp)) with (2 := Hall)
        as (vs & h1 & Hloop & Hh1 & Hvs)
    end.
    { update_cb h action ap. }
    erewrite bind_Ret by (eapply array_map_run; eauto).
    eexists _, _, _, _. split; [done|]. split_and!.
    - etrans; [done|prefix_tac].
    - by rewrite lookup_obj_alloc.
    - eapply lookup_arr_prefix; [|apply lookup_arr_alloc]. prefix_tac.
    - eapply objs_prefix; [|eapply above_objs, Hvs]. prefix_tac. }
  switch_case "SET_FILTER"%string.
  { repeat js_step.
    eexists _, _, tv, _. split; [done|]. split_and!.
    - prefix_tac.
    - rewrite lookup_obj_alloc. f_equal. symmetry. apply insert_id.
      by rewrite lookup_insert_ne.
    - eapply lookup_arr_prefix; [|done]. prefix_tac.
    - eapply objs_prefix; [|done]. prefix_tac. }
  switch_case "CLEAR_COMPLETED"%string.
  { repeat js_step. rewrite Hpt.
    apply objs_above in Hall.
    match goal with |- context [array_filter _ ?cb] =>
      destruct (filter_loop_spec (above h is_obj) cb
                  (λ tp, negb (truthy (prop tp "completed"))))
        with (2 := Hall) as (vs & Hloop & Hvs)
    end.
    { intros h2 v tp [Hh2 Hv]. red in Hv.
      eexists. split; [by repeat js_step|done]. }
    erewrite bind_Ret by (eapply array_filter_run; eauto).
    eexists _, _, _, _. split; [done|]. split_and!.
    - prefix_tac.
    - by rewrite lookup_obj_alloc.
    - eapply lookup_arr_prefix; [|apply lookup_arr_alloc]. prefix_tac.
    - eapply objs_prefix; [|eapply above_objs, Hvs]. prefix_tac. }
  simpl switch. exists state, h, tv, elems. split; [done|].
  split_and!; try done. by rewrite insert_id.
Qed.

(** * cartReducer on a cart state *)

Lemma item_at_Some h v it :
  item_at h v = Some it ↔
  ∃ ip, lookup_obj h v = Some ip ∧ read_item ip = Some it.
Proof. unfold item_at. by rewrite bind_Some. Qed.

Lemma item_at_prefix h h' v it :
  h `prefix_of` h' → item_at h v = Some it → item_at h' v = Some it.
Proof.
  rewrite !item_at_Some. intros Hh (ip & ? & ?).
  exists ip. eauto using lookup_obj_prefix.
Qed.

Lemma is_item_above_stable h0 h h' v t :
  h `prefix_of` h' → above h0 is_item h v t → above h0 is_item h' v t.
Proof. apply above_stable. intros ????. apply item_at_prefix. Qed.

Lemma items_above h elems items :
  mapM (item_at h) elems = Some items ↔
  Forall2 (above h is_item h) elems items.
Proof.
  rewrite mapM_Some.
  split; intros H; eapply Forall2_impl; [done|by split|done|by intros ?? []].
Qed.

Lemma above_items h0 h elems items :
  Forall2 (above h0 is_item h) elems items →
  mapM (item_at h) elems = Some items.
Proof.
  rewrite mapM_Some. intros H. eapply Forall2_impl; [done|by intros ?? []].
Qed.

Lemma items_prefix h h' elems items :
  h `prefix_of` h' →
  mapM (item_at h) elems = Some items → mapM (item_at h') elems = Some items.
Proof.
  rewrite !mapM_Some. intros Hh Hall.
  eapply Forall2_impl; eauto using item_at_prefix.
Qed.

Lemma read_item_Some ip it :
  read_item ip = Some it →
  prop ip "id" = item_id it ∧
  prop ip "price" = VNum (Fin (item_price it)) ∧
  prop ip "quantity" = VNum (Fin (item_quantity it)).
Proof.
  unfold read_item.
  destruct (prop ip "price") as [| | |[p|]| |]; try done.
  destruct (prop ip "quantity") as [| | |[q|]| |]; try done.
  by intros [= <-].
Qed.

Lemma read_item_set_quantity ip it q :
  read_item ip = Some it →
  read_item (<["quantity" := VNum (Fin q)]> ip) = Some (set_quantity q it).
Proof.
  intros (Hid & Hp & Hq)%read_item_Some. unfold read_item.
  rewrite prop_insert_eq, !prop_insert_ne by done. by rewrite Hp, Hid.
Qed.

Lemma is_item_inv h v it :
  is_item h v it →
  ∃ ip, lookup_obj h v = Some ip ∧ read_item ip = Some it ∧
        prop ip "id" = item_id it ∧
        prop ip "price" = VNum (Fin (item_price it)) ∧
        prop ip "quantity" = VNum (Fin (item_quantity it)).
Proof.
  intros (ip & ? & Hr)%item_at_Some. exists ip.
  split_and!; try done; by apply read_item_Some in Hr as (? & ? & ?).
Qed.

Lemma is_item_truthy h v it : is_item h v it → truthy v = true.
Proof. intros (ip & (l & -> & _)%lookup_obj_Some & _)%is_item_inv. done. Qed.

Lemma cart_view_Some h s items total :
  cart_view h s = Some (items, total) ↔
  ∃ props elems,
    lookup_obj h s = Some props ∧
    lookup_arr h (prop props "items") = Some elems ∧
    mapM (item_at h) elems = Some items ∧
    prop props "total" = VNum (Fin total).
Proof.
  unfold cart_view. split.
  - intros (props & Hs & (elems & Harr &
      (its & Hits & H)%bind_Some)%bind_Some)%bind_Some.
    exists props, elems.
    destruct (prop props "total") as [| | |[t|]| |]; try done.
    by injection H as <- <-.
  - intros (props & elems & -> & Harr & Hits & Ht). simpl.
    rewrite Harr. simpl. rewrite Hits. simpl. by rewrite Ht.
Qed.

Lemma cart_view_prefix h h' s st :
  h `prefix_of` h' → cart_view h s = Some st → cart_view h' s = Some st.
Proof.
  destruct st as [items total]. rewrite !cart_view_Some.
  intros Hh (props & elems & ? & ? & ? & ?). exists props, elems.
  split_and!; eauto using lookup_obj_prefix, lookup_arr_prefix, items_prefix.
Qed.

Lemma cart_view_initial h :
  module_heap `prefix_of` h → cart_view h cartInitialState = Some ([], 0).
Proof.
  intros Hmod. eapply cart_view_prefix; [done|]. done.
Qed.

(** The loop of [items.find(item => item.id === id)]. *)
Lemma cart_find_spec h items elems cb id :
  (∀ h' v it, above h is_item h' v it →
     ∃ b, cb v h' = Ret (b, h') ∧ truthy b = has_id id it) →
  mapM (item_at h) elems = Some items →
  ∃ v, find_loop cb elems h = Ret (v, h) ∧
       match find_item id items with
       | Some it => is_item h v it
       | None => v = VUndef
       end.
Proof.
  intros Hcb Hall%items_above.
  destruct (find_loop_spec (above h is_item) cb (has_id id) Hcb _ _ _ Hall)
    as (v & Hrun & Hv).
  exists v. split; [done|]. unfold find_item.
  by destruct (head _); [destruct Hv|].
Qed.

Lemma cartReducer_spec h s a items total act :
  (act = CLEAR_CART → module_heap `prefix_of` h) →
  cart_view h s = Some (items, total) →
  read_cart_action h a = Some act →
  cart_present act items →
  ∃ s' h',
    cartReducer s a h = Ret (s', h') ∧ h `prefix_of` h' ∧
    cart_view h' s' = Some (cart_model act (items, total)).
Proof.
  intros Hmod (props & elems & Hs & Harr & Hall & Htotal)%cart_view_Some.
  unfold read_cart_action.
  intros (ap & Ha & Hact)%bind_Some. revert Hact Hmod. cbv zeta.
  unfold cartReducer. js_step.
  switch_case "ADD_ITEM"%string.
  { intros (aip & Hai & Hact)%bind_Some _ Hpre.
    destruct (prop aip "price") as [| | |[price|]| |] eqn:Hprice; try done.
    injection Hact as <-. simpl cart_model.
    js_step.
    match goal with |- context [array_find _ ?cb] =>
      destruct (cart_find_spec h items elems cb (prop aip "id"))
        as (x & Hfind & Hx)
    end; [|done|].
    { intros h' v it [Hh (ip & ? & _ & Hid & _)%is_item_inv].
      assert (lookup_obj h' a = Some ap) by eauto using lookup_obj_prefix.
      assert (lookup_obj h' (prop ap "item") = Some aip)
        by eauto using lookup_obj_prefix.
      eexists. split; [by repeat js_step|]. simpl. by rewrite Hid. }
    erewrite bind_Ret by (eapply array_find_run; eauto).
    destruct (find_item (prop aip "id") items) as [it0|] eqn:Hfound.
    - rewrite (is_item_truthy _ _ _ Hx). js_step.
      apply items_above in Hall.
      match goal with |- context [array_map _ ?cb] =>
        destruct (map_loop_spec (above h is_item) (is_item_above_stable h) cb
                    (λ it, if has_id (prop aip "id") it
                           then set_quantity (item_quantity it + 1) it
                           else it))
          with (2 := Hall) as (vs & h1 & Hloop & Hh1 & Hvs)
      end.
      { intros h' v it [Hh (ip & ? & Hr & Hid & _ & Hq)%is_item_inv].
        cbv beta.
        assert (lookup_obj h' a = Some ap) by eauto using lookup_obj_prefix.
        assert (lookup_obj h' (prop ap "item") = Some aip)
          by eauto using lookup_obj_prefix.
        do 3 js_step. rewrite Hid. unfold has_id. destruct (strict_eq _ _).
        - do 2 js_step. rewrite Hq. js_step.
          eexists _, _. split; [done|]. split; [prefix_tac|].
          split; [prefix_tac|]. apply item_at_Some. eexists.
          split; [apply lookup_obj_alloc|]. by apply read_item_set_quantity.
        - eexists _, _. split; [done|]. split; [done|]. split; [done|].
          apply item_at_Some. eauto. }
      erewrite bind_Ret by (eapply array_map_run; eauto).
      assert (lookup_obj h1 s = Some props) by eauto using lookup_obj_prefix.
      assert (lookup_obj h1 a = Some ap) by eauto using lookup_obj_prefix.
      assert (lookup_obj h1 (prop ap "item") = Some aip)
        by eauto using lookup_obj_prefix.
      do 3 js_step. rewrite Htotal, Hprice. js_step.
      eexists _, _. split; [done|]. split; [etrans; [done|prefix_tac]|].
      apply cart_view_Some. eexists _, _. split_and!.
      + apply lookup_obj_alloc.
      + rewrite prop_insert_eq.
        eapply lookup_arr_prefix; [|apply lookup_arr_alloc]. prefix_tac.
      + eapply items_prefix; [|eapply above_items, Hvs]. prefix_tac.
      + rewrite prop_insert_ne by done. by rewrite prop_singleton.
    - subst x. change (truthy VUndef) with false. cbv iota.
      do 4 js_step.
      assert (lookup_obj
                ((h ++ [Obj (<["quantity" := VNum (Fin 1)]> aip)]) ++
                 [Arr (elems ++ [VRef (length h)])]) s = Some props)
        by (eapply lookup_obj_prefix; [|done]; prefix_tac).
      do 5 js_step. rewrite Htotal, Hprice. js_step.
      eexists _, _. split; [done|]. split; [prefix_tac|].
      apply cart_view_Some. eexists _, _. split_and!.
      + apply lookup_obj_alloc.
      + rewrite prop_insert_eq.
        eapply lookup_arr_prefix; [|apply lookup_arr_alloc]. prefix_tac.
      + apply mapM_Some, Forall2_app.
        * apply mapM_Some. eapply items_prefix; [|done]. prefix_tac.
        * constructor; [|constructor]. apply item_at_Some. eexists. split.
          -- eapply lookup_obj_prefix; [|apply lookup_obj_alloc]. prefix_tac.
          -- unfold read_item.
             rewrite prop_insert_eq, !prop_insert_ne by done.
             by rewrite Hprice.
      + rewrite prop_insert_ne by done. by rewrite prop_singleton. }
  switch_case "REMOVE_ITEM"%string.
  { intros [= <-] _ [it0 Hfound]. simpl cart_model. rewrite Hfound.
    js_step.
    match goal with |- context [array_find _ ?cb] =>
      destruct (cart_find_spec h items elems cb (prop ap "id"))
        as (x & Hfind & Hx)
    end; [|done|].
    { intros h' v it [Hh (ip & ? & _ & Hid & _)%is_item_inv].
      assert (lookup_obj h' a = Some ap) by eauto using lookup_obj_prefix.
      eexists. split; [by repeat js_step|]. simpl. by rewrite Hid. }
    erewrite bind_Ret by (eapply array_find_run; eauto).
    rewrite Hfound in Hx. js_step.
    apply items_above in Hall.
    match goal with |- context [array_filter _ ?cb] =>
      destruct (filter_loop_spec (above h is_item) cb
                  (λ it, negb (has_id (prop ap "id") it)))
        with (2 := Hall) as (vs & Hloop & Hvs)
    end.
    { intros h' v it [Hh (ip & ? & _ & Hid & _)%is_item_inv].
      assert (lookup_obj h' a = Some ap) by eauto using lookup_obj_prefix.
      eexists. split; [by repeat js_step|]. simpl. by rewrite Hid. }
    erewrite bind_Ret by (eapply array_filter_run; eauto).
    destruct (is_item_inv _ _ _ Hx) as (ip0 & Hx0 & _ & _ & Hp0 & Hq0).
    do 3 js_step. rewrite Hp0, Hq0, Htotal. do 2 js_step.
    eexists _, _. split; [done|]. split; [prefix_tac|].
    apply cart_view_Some. eexists _, _. split_and!.
    + apply lookup_obj_alloc.
    + rewrite prop_insert_eq.
      eapply lookup_arr_prefix; [|apply lookup_arr_alloc]. prefix_tac.
    + eapply items_prefix; [|eapply above_items, Hvs]. prefix_tac.
    + rewrite prop_insert_ne by done. by rewrite prop_singleton. }
  switch_case "UPDATE_QUANTITY"%string.
  { destruct (prop ap "quantity") as [| | |[aq|]| |] eqn:Haq; try done.
    intros [= <-] _ [it0 Hfound]. simpl cart_model. rewrite Hfound.
    js_step.
    match goal with |- context [array_find _ ?cb] =>
      destruct (cart_find_spec h items elems cb (prop ap "id"))
        as (x & Hfind & Hx)
    end; [|done|].
    { intros h' v it [Hh (ip & ? & _ & Hid & _)%is_item_inv].
      assert (lookup_obj h' a = Some ap) by eauto using lookup_obj_prefix.
      eexists. split; [by repeat js_step|]. simpl. by rewrite Hid. }
    erewrite bind_Ret by (eapply array_find_run; eauto).
    rewrite Hfound in Hx.
    destruct (is_item_inv _ _ _ Hx) as (ip0 & Hx0 & _ & _ & Hp0 & Hq0).
    do 2 js_step. rewrite Haq, Hq0. do 2 js_step.
    apply items_above in Hall.
    match goal with |- context [array_map _ ?cb] =>
      destruct (map_loop_spec (above h is_item) (is_item_above_stable h) cb
                  (λ it, if has_id (prop ap "id") it
                         then set_quantity aq it else it))
        with (2 := Hall) as (vs & h1 & Hloop & Hh1 & Hvs)
    end.
    { intros h' v it [Hh (ip & ? & Hr & Hid & _ & Hq)%is_item_inv]. cbv beta.
      assert (lookup_obj h' a = Some ap) by eauto using lookup_obj_prefix.
      do 2 js_step. rewrite Hid. unfold has_id. destruct (strict_eq _ _).
      - do 2 js_step. rewrite Haq.
        eexists _, _. split; [done|]. split; [prefix_tac|].
        split; [prefix_tac|]. apply item_at_Some. eexists.
        split; [apply lookup_obj_alloc|]. by apply read_item_set_quantity.
      - eexists _, _. split; [done|]. split; [done|]. split; [done|].
        apply item_at_Some. eauto. }
    erewrite bind_Ret by (eapply array_map_run; eauto).
    assert (lookup_obj h1 s = Some props) by eauto using lookup_obj_prefix.
    assert (lookup_obj h1 x = Some ip0) by eauto using lookup_obj_prefix.
    do 2 js_step. rewrite Hp0, Htotal. do 2 js_step.
    eexists _, _. split; [done|]. split; [etrans; [done|prefix_tac]|].
    apply cart_view_Some. eexists _, _. split_and!.
    + apply lookup_obj_alloc.
    + rewrite prop_insert_eq.
      eapply lookup_arr_prefix; [|apply lookup_arr_alloc]. prefix_tac.
    + eapply items_prefix; [|eapply above_items, Hvs]. prefix_tac.
    + rewrite prop_insert_ne by done. by rewrite prop_singleton. }
  switch_case "CLEAR_CART"%string.
  { intros [= <-] Hmod _. exists cartInitialState, h.
    split; [done|]. split; [done|]. by apply cart_view_initial, Hmod. }
  intros [= <-] _ _. simpl switch. exists s, h. split; [done|]. split; [done|].
  apply cart_view_Some. eauto 10.
Qed.

(** REMOVE_ITEM and UPDATE_QUANTITY with an id that no item has: [find]
    returns [undefined], and reading its [price] or [quantity] throws. *)
Lemma cartReducer_absent h s a items total act id :
  cart_view h s = Some (items, total) →
  read_cart_action h a = Some act →
  act = REMOVE_ITEM id ∨ (∃ q, act = UPDATE_QUANTITY id q) →
  find_item id items = None →
  cartReducer s a h = Throw TypeError.
Proof.
  intros (props & elems & Hs & Harr & Hall & Htotal)%cart_view_Some.
  unfold read_cart_action.
  intros (ap & Ha & Hact)%bind_Some. revert Hact. cbv zeta.
  unfold cartReducer. js_step.
  switch_case "ADD_ITEM"%string.
  { intros (aip & Hai & Hact)%bind_Some.
    destruct (prop aip "price") as [| | |[price|]| |]; try done.
    injection Hact as <-. by intros [|[]]. }
  switch_case "REMOVE_ITEM"%string.
  { intros [= <-] [[= <-]|[? [=]]] Hnone. js_step.
    match goal with |- context [array_find _ ?cb] =>
      destruct (cart_find_spec h items elems cb (prop ap "id"))
        as (x & Hfind & Hx)
    end; [|done|].
    { intros h' v it [Hh (ip & ? & _ & Hid & _)%is_item_inv].
      assert (lookup_obj h' a = Some ap) by eauto using lookup_obj_prefix.
      eexists. split; [by repeat js_step|]. simpl. by rewrite Hid. }
    erewrite bind_Ret by (eapply array_find_run; eauto).
    rewrite Hnone in Hx. subst x. js_step.
    apply items_above in Hall.
    match goal with |- context [array_filter _ ?cb] =>
      destruct (filter_loop_spec (above h is_item) cb
                  (λ it, negb (has_id (prop ap "id") it)))
        with (2 := Hall) as (vs & Hloop & Hvs)
    end.
    { intros h' v it [Hh (ip & ? & _ & Hid & _)%is_item_inv].
      assert (lookup_obj h' a = Some ap) by eauto using lookup_obj_prefix.
      eexists. split; [by repeat js_step|]. simpl. by rewrite Hid. }
    erewrite bind_Ret by (eapply array_filter_run; eauto).
    js_step. done. }
  switch_case "UPDATE_QUANTITY"%string.
  { destruct (prop ap "quantity") as [| | |[aq|]| |] eqn:Haq; try done.
    intros [= <-] [[=]|[? [= <- <-]]] Hnone. js_step.
    match goal with |- context [array_find _ ?cb] =>
      destruct (cart_find_spec h items elems cb (prop ap "id"))
        as (x & Hfind & Hx)
    end; [|done|].
    { intros h' v it [Hh (ip & ? & _ & Hid & _)%is_item_inv].
      assert (lookup_obj h' a = Some ap) by eauto using lookup_obj_prefix.
      eexists. split; [by repeat js_step|]. simpl. by rewrite Hid. }
    erewrite bind_Ret by (eapply array_find_run; eauto).
    rewrite Hnone in Hx. subst x. js_step. done. }
  switch_case "CLEAR_CART"%string.
  { by intros [= <-] [|[]]. }
  by intros [= <-] [|[]].
Qed.

(** * The todo list through its view *)

Lemma prop_Some props k v : prop props k = v → v ≠ VUndef → props !! k = Some v.
Proof. unfold prop. destruct (props !! k); simpl; congruence. Qed.

Lemma todo_view_Some h s tps next :
  todo_view h s = Some (tps, next) ↔
  ∃ props elems,
    lookup_obj h s = Some props ∧
    lookup_arr h (prop props "todos") = Some elems ∧
    objs h elems = Some tps ∧
    prop props "nextId" = next.
Proof.
  unfold todo_view. split.
  - intros (props & Hs & (elems & Harr &
      (tps' & Htps & [= <- <-])%bind_Some)%bind_Some)%bind_Some.
    by exists props, elems.
  - intros (props & elems & -> & Harr & Htps & <-). simpl.
    rewrite Harr. simpl. by rewrite Htps.
Qed.

Lemma todo_view_prefix h h' s st :
  h `prefix_of` h' → todo_view h s = Some st → todo_view h' s = Some st.
Proof.
  destruct st as [tps next]. rewrite !todo_view_Some.
  intros Hh (props & elems & ? & ? & ? & ?). exists props, elems.
  split_and!; eauto using lookup_obj_prefix, lookup_arr_prefix, objs_prefix.
Qed.

(** On a todo state with a numeric [nextId] and any action object, the
    reducer returns and the new state is the one of the model. *)
Lemma todoReducer_view h s a tps n ap :
  todo_view h s = Some (tps, VNum n) →
  lookup_obj h a = Some ap →
  ∃ s' h' props props',
    todoReducer s a h = Ret (s', h') ∧ h `prefix_of` h' ∧
    lookup_obj h s = Some props ∧
    lookup_obj h' s' = Some props' ∧
    prop props' "filter" = prop (todo_props_after ap n props) "filter" ∧
    todo_view h' s' =
      Some (todo_items_after ap (VNum n) tps,
            prop (todo_props_after ap n props) "nextId").
Proof.
  intros (props & elems & Hs & Harr & Htps & Hn)%todo_view_Some Ha.
  assert (∃ l, prop props "todos" = VRef l) as [l Hl].
  { apply lookup_arr_Some in Harr as (l & ? & _). eauto. }
  destruct (todoReducer_spec h s a props ap (VRef l) elems tps n)
    as (s' & h' & tv' & elems' & Hrun & Hh & Hs' & Harr' & Htps');
    try done.
  { by apply prop_Some. }
  { by rewrite <-Hl. }
  { by apply prop_Some. }
  eexists s', h', props, _. split_and!; try done.
  - by rewrite prop_insert_ne.
  - apply todo_view_Some. eexists _, elems'. split_and!; try done.
    + by rewrite prop_insert_eq.
    + by rewrite prop_insert_ne.
Qed.

(** An action that is not an object: if the reducer returns at all, it
    returns its state. *)
Lemma todoReducer_not_object h s a s' h' :
  lookup_obj h a = None →
  todoReducer s a h = Ret (s', h') → s' = s ∧ h' = h.
Proof.
  unfold todoReducer. destruct a as [| | | | |l]; simpl; try done;
    try (by intros _ [= -> ->]).
  unfold get_prop, deref, mbind, js_bind.
  destruct (h !! l) as [[]|]; done.
Qed.

(** The ids of the todos after an action: ADD_TODO appends the state's
    [nextId], the other actions keep the ids or drop some. *)
Lemma todo_items_after_ids ap n tps ids :
  id_of <$> tps = (λ i, VNum (Fin i)) <$> ids →
  NoDup ids → Forall (λ i, i < n) ids →
  ∃ ids',
    id_of <$> todo_items_after ap (VNum (Fin n)) tps =
      (λ i, VNum (Fin i)) <$> ids' ∧
    NoDup ids' ∧
    Forall (λ i, i < if decide (prop ap "type" = VStr "ADD_TODO")
                     then n + 1 else n) ids'.
Proof.
  intros Hids Hnd Hlt. unfold todo_items_after. cbv zeta.
  assert (Hmap : ∀ (f : gmap string value → gmap string value),
            (∀ tp, id_of (f tp) = id_of tp) →
            id_of <$> (f <$> tps) = (λ i, VNum (Fin i)) <$> ids).
  { intros f Hf. rewrite <-list_fmap_compose, <-Hids.
    apply list_fmap_ext. intros _ tp _. apply Hf. }
  assert (Hfilter : ∀ (p : gmap string value → bool),
            ∃ ids', id_of <$> filter p tps = (λ i, VNum (Fin i)) <$> ids' ∧
                    ids' `sublist_of` ids).
  { intros p. clear Hnd Hlt Hmap. revert ids Hids.
    induction tps as [|tp tps IH]; intros ids Hids.
    - exists []. split; [done|]. apply sublist_nil_l.
    - destruct ids as [|i ids]; [done|]. injection Hids as Hi Hids.
      destruct (IH ids Hids) as (ids' & Hids' & Hsub).
      destruct (p tp) eqn:E.
      + rewrite filter_cons_True by (by rewrite E).
        exists (i :: ids'). split; [|by apply sublist_skip].
        by rewrite !fmap_cons, Hi, Hids'.
      + rewrite filter_cons_False by (rewrite E; by intros ?).
        exists ids'. split; [done|by apply sublist_cons]. }
  assert (Hsub : ∀ ids', ids' `sublist_of` ids →
            NoDup ids' ∧ Forall (λ i, i < n) ids').
  { intros ids' Hsub. split; [by eapply sublist_NoDup|].
    rewrite Forall_forall in Hlt |- *. intros i Hi. apply Hlt.
    by eapply elem_of_sublist. }
  destruct (decide (prop ap "type" = VStr "ADD_TODO")).
  { exists (ids ++ [n]). split_and!.
    - rewrite !fmap_app, Hids. simpl. unfold id_of, todo_literal.
      by rewrite prop_insert_eq.
    - apply NoDup_app. split_and!; [done| |apply NoDup_singleton].
      intros i Hi ->%list_elem_of_singleton.
      rewrite Forall_forall in Hlt. specialize (Hlt _ Hi). lia.
    - apply Forall_app. split; [|constructor; [lia|done]].
      eapply Forall_impl; [exact Hlt|]. simpl. lia. }
  destruct (decide (prop ap "type" = VStr "TOGGLE_TODO")).
  { exists ids. split_and!; try done. apply Hmap. intros tp.
    destruct (strict_eq _ _); [|done]. unfold id_of. by rewrite prop_insert_ne. }
  destruct (decide (prop ap "type" = VStr "DELETE_TODO")).
  { destruct (Hfilter (λ tp, negb (strict_eq (prop tp "id") (prop ap "id"))))
      as (ids' & ? & [? ?]%Hsub). exists ids'. by split_and!. }
  destruct (decide (prop ap "type" = VStr "EDIT_TODO")).
  { exists ids. split_and!; try done. apply Hmap. intros tp.
    destruct (strict_eq _ _); [|done]. unfold id_of. by rewrite prop_insert_ne. }
  destruct (decide (prop ap "type" = VStr "CLEAR_COMPLETED")).
  { destruct (Hfilter (λ tp, negb (truthy (prop tp "completed"))))
      as (ids' & ? & [? ?]%Hsub). exists ids'. by split_and!. }
  by exists ids.
Qed.

(** * The cart total on the items and the total

    [cart_model] keeps the total equal to the sum of price times quantity
    as long as the ids of the items are pairwise different, which it also
    keeps. *)

Lemma find_item_cons id it items :
  find_item id (it :: items) =
    if has_id id it then Some it else find_item id items.
Proof.
  unfold find_item. destruct (has_id id it) eqn:E.
  - by rewrite filter_cons_True by (by rewrite E).
  - by rewrite filter_cons_False by (rewrite E; by intros ?).
Qed.

Lemma has_id_eq id it : has_id id it = true → item_id it = id.
Proof. apply strict_eq_true. Qed.

Lemma find_item_None id items :
  find_item id items = None ↔ Forall (λ it, has_id id it = false) items.
Proof.
  induction items as [|it items IH]; [by split|].
  rewrite find_item_cons, Forall_cons. destruct (has_id id it); [|by rewrite IH; intuition].
  split; [done|]. by intros [? _].
Qed.

Lemma distinct_ids_find id it items :
  distinct_ids (it :: items) → has_id id it = true → find_item id items = None.
Proof.
  intros [Hit _] <-%has_id_eq. apply find_item_None. done.
Qed.

Section update.
Context (id : value) (g : item → Z).
Let upd (it : item) : item :=
  if has_id id it then set_quantity (g it) it else it.

Lemma update_absent items :
  find_item id items = None → upd <$> items = items.
Proof.
  rewrite find_item_None. induction 1 as [|it items Hit _ IH]; [done|].
  rewrite fmap_cons, IH. unfold upd. by rewrite Hit.
Qed.

Lemma update_sum items it0 :
  distinct_ids items → find_item id items = Some it0 →
  cart_sum (upd <$> items) =
    cart_sum items + item_price it0 * (g it0 - item_quantity it0).
Proof.
  induction items as [|it items IH]; [done|].
  intros Hd. rewrite find_item_cons, fmap_cons. simpl cart_sum.
  destruct (has_id id it) eqn:E.
  - intros [= ->]. rewrite update_absent by eauto using distinct_ids_find.
    unfold upd. rewrite E. simpl. rewrite Z.mul_sub_distr_l. lia.
  - intros Hf. rewrite IH by (done || apply Hd).
    unfold upd. rewrite E. lia.
Qed.

Lemma update_ids (items : list item) : item_id <$> (upd <$> items) = item_id <$> items.
Proof.
  rewrite <-list_fmap_compose. apply list_fmap_ext. intros _ it _.
  simpl. unfold upd. by destruct (has_id id it).
Qed.
End update.

Lemma has_id_sym it it' : has_id (item_id it) it' = has_id (item_id it') it.
Proof. apply strict_eq_sym. Qed.

Lemma distinct_ids_fmap (f : item → item) items :
  (∀ it, item_id (f it) = item_id it) →
  distinct_ids items → distinct_ids (f <$> items).
Proof.
  intros Hf. induction items as [|it items IH]; [done|].
  intros [Hit Hd]. rewrite fmap_cons. split; [|auto].
  rewrite Forall_fmap. eapply Forall_impl; [done|].
  intros it' H. simpl. unfold has_id in *. by rewrite !Hf.
Qed.

Lemma distinct_ids_filter (p : item → bool) items :
  distinct_ids items → distinct_ids (filter p items).
Proof.
  induction items as [|it items IH]; [done|]. intros [Hit Hd].
  destruct (p it) eqn:E.
  - rewrite filter_cons_True by (by rewrite E). split; [|auto].
    rewrite Forall_forall in Hit |- *. intros it' Hin. apply Hit.
    eapply elem_of_sublist; [done|apply sublist_filter].
  - rewrite filter_cons_False by (rewrite E; by intros ?). auto.
Qed.

Lemma distinct_ids_snoc items it :
  distinct_ids items → find_item (item_id it) items = None →
  distinct_ids (items ++ [it]).
Proof.
  rewrite find_item_None.
  induction items as [|it' items IH]; [done|].
  intros [Hit Hd] [Hne Hrest]%Forall_cons. split; [|auto].
  apply Forall_app. split; [done|]. constructor; [|done].
  by rewrite has_id_sym.
Qed.

Lemma remove_absent id items :
  find_item id items = None →
  filter (λ it, negb (has_id id it)) items = items.
Proof.
  rewrite find_item_None. induction 1 as [|it items Hit _ IH]; [done|].
  rewrite filter_cons_True by (by rewrite Hit). by rewrite IH.
Qed.

Lemma remove_sum id items it0 :
  distinct_ids items → find_item id items = Some it0 →
  cart_sum (filter (λ it, negb (has_id id it)) items) =
    cart_sum items - item_price it0 * item_quantity it0.
Proof.
  induction items as [|it items IH]; [done|].
  intros Hd. rewrite find_item_cons. simpl cart_sum.
  destruct (has_id id it) eqn:E.
  - intros [= ->]. rewrite filter_cons_False by (rewrite E; by intros ?).
    rewrite remove_absent by eauto using distinct_ids_find. lia.
  - intros Hf. rewrite filter_cons_True by (by rewrite E).
    simpl cart_sum. rewrite IH by (done || apply Hd). lia.
Qed.

Lemma cart_sum_app items1 items2 :
  cart_sum (items1 ++ items2) = cart_sum items1 + cart_sum items2.
Proof. induction items1 as [|it items1 IH]; simpl; lia. Qed.

Lemma cart_model_ok act items :
  cart_pre act items → distinct_ids items →
  let st := cart_model act (items, cart_sum items) in
  st.2 = cart_sum st.1 ∧ distinct_ids st.1.
Proof.
  intros Hpre Hd. destruct act as [id price|id|id q| |]; simpl in *.
  - destruct (find_item id items) as [it0|] eqn:Hf; simpl.
    + split;
        [|apply distinct_ids_fmap; [intros it; by destruct (has_id id it)|done]].
      rewrite (update_sum id (λ it, item_quantity it + 1) items it0) by done.
      rewrite (Hpre it0) by done. lia.
    + split; [|by apply distinct_ids_snoc].
      rewrite cart_sum_app. simpl. lia.
  - destruct Hpre as [it0 Hf]. rewrite Hf. simpl. split.
    + by rewrite (remove_sum id items it0).
    + by apply distinct_ids_filter.
  - destruct Hpre as [it0 Hf]. rewrite Hf. simpl. split.
    + by rewrite (update_sum id (λ _, q) items it0).
    + apply distinct_ids_fmap; [intros it; by destruct (has_id id it)|done].
  - done.
  - done.
Qed.

(** * counterReducer and formReducer on their states *)

Lemma to_property_key_str f h : to_property_key (VStr f) h = Ret (f, h).
Proof. done. Qed.

#[local] Hint Resolve to_property_key_str : js.

Lemma elem_of_types v (types : list string) :
  v ∈ VStr <$> types ↔ ∃ c, v = VStr c ∧ c ∈ types.
Proof. rewrite list_elem_of_fmap. naive_solver. Qed.

Lemma counter_shape_true h s :
  counter_shape h s = true ↔
  ∃ props n, lookup_obj h s = Some props ∧ prop props "count" = VNum n.
Proof.
  unfold counter_shape. split.
  - destruct (lookup_obj h s) as [props|]; [|done].
    destruct (prop props "count") eqn:E; try done. eauto.
  - intros (props & n & -> & ->). done.
Qed.

(** On a state of shape [{ count: number }] and a recognised action, the
    counter returns a state of that shape. *)
Lemma counterReducer_spec h s a props ap c :
  lookup_obj h s = Some props →
  prop props "count" = VNum c →
  lookup_obj h a = Some ap →
  prop ap "type" ∈ VStr <$> counter_types →
  (prop ap "type" = VStr "INCREMENT_BY" → is_number (prop ap "payload") = true) →
  ∃ c',
    counterReducer s a h =
      Ret (VRef (length h), h ++ [Obj {[ "count" := VNum c' ]}]) ∧
    c' = if decide (prop ap "type" = VStr "INCREMENT") then num_add c (Fin 1)
         else if decide (prop ap "type" = VStr "DECREMENT")
              then num_sub c (Fin 1)
         else if decide (prop ap "type" = VStr "RESET") then Fin 0
         else match prop ap "payload" with
              | VNum p => num_add c p
              | _ => NaN
              end.
Proof.
  intros Hs Hc Ha Hty Hpayload. unfold counterReducer. js_step.
  switch_case "INCREMENT"%string.
  { js_step. rewrite Hc. js_step. by eexists. }
  switch_case "DECREMENT"%string.
  { js_step. rewrite Hc. js_step. by eexists. }
  switch_case "RESET"%string.
  { by eexists. }
  switch_case "INCREMENT_BY"%string.
  { specialize (Hpayload Hty3).
    destruct (prop ap "payload") as [| | |p| |] eqn:Hp; try done.
    do 2 js_step. rewrite Hc, Hp. js_step. by eexists. }
  apply elem_of_types in Hty as (ty & Heq & Hin). rewrite Heq in *.
  unfold counter_types in Hin.
  repeat (apply elem_of_cons in Hin as [->|Hin]; [done|]).
  by apply elem_of_nil in Hin.
Qed.

(** An action type the counter does not know: the [default] branch
    throws. *)
Lemma counterReducer_unknown h s a ap msg :
  lookup_obj h a = Some ap →
  prop ap "type" ∉ VStr <$> counter_types →
  to_string (prop ap "type") h = Ret (msg, h) →
  counterReducer s a h = Throw (Error ("Unknown action: " +:+ msg)).
Proof.
  intros Ha Hty Hmsg. unfold counterReducer. js_step.
  rewrite switch_default by done. by js_step.
Qed.

Lemma form_shape_true h s :
  form_shape h s = true ↔
  ∃ props eprops,
    lookup_obj h s = Some props ∧
    lookup_obj h (prop props "errors") = Some eprops.
Proof.
  unfold form_shape. split.
  - destruct (lookup_obj h s) as [props|]; [|done].
    intros [eprops ?]%bool_decide_eq_true. eauto.
  - intros (props & eprops & -> & Hp). apply bool_decide_eq_true. eauto.
Qed.

(** On a form state and a form action the form reducer returns. *)
Lemma formReducer_spec h s a props eprops ap :
  lookup_obj h s = Some props →
  lookup_obj h (prop props "errors") = Some eprops →
  lookup_obj h a = Some ap →
  (prop ap "type" = VStr "UPDATE_FIELD" ∨ prop ap "type" = VStr "SET_ERROR" →
   is_string (prop ap "field") = true) →
  ∃ s' h', formReducer s a h = Ret (s', h') ∧ h `prefix_of` h'.
Proof.
  intros Hs He Ha Hfield. unfold formReducer. js_step.
  switch_case "UPDATE_FIELD"%string.
  { destruct (prop ap "field") as [| | | |f|] eqn:Hf;
      try (by specialize (Hfield (or_introl Hty))).
    do 2 js_step. rewrite Hf. repeat js_step. rewrite Hf. js_step.
    eexists _, _. split; [done|]. prefix_tac. }
  switch_case "SET_ERROR"%string.
  { destruct (prop ap "field") as [| | | |f|] eqn:Hf;
      try (by specialize (Hfield (or_intror Hty0))).
    do 4 js_step. rewrite Hf. repeat js_step.
    eexists _, _. split; [done|]. prefix_tac. }
  switch_case "SET_ERRORS"%string.
  { repeat js_step. eexists _, _. split; [done|]. prefix_tac. }
  switch_case "SUBMIT_START"%string.
  { repeat js_step. eexists _, _. split; [done|]. prefix_tac. }
  switch_case "SUBMIT_SUCCESS"%string.
  { by eexists _, _. }
  switch_case "SUBMIT_FAILURE"%string.
  { repeat js_step. eexists _, _. split; [done|]. prefix_tac. }
  switch_case "RESET_FORM"%string.
  { by eexists _, _. }
  by eexists _, _.
Qed.

Lemma todo_shape_true h s :
  todo_shape h s = true ↔
  ∃ props tps f n,
    lookup_obj h s = Some props ∧
    todo_view h s = Some (tps, VNum n) ∧
    prop props "filter" = VStr f.
Proof.
  unfold todo_shape. split.
  - destruct (lookup_obj h s) as [props|]; [|done].
    destruct (todo_view h s) as [[tps next]|]; [|done].
    destruct (prop props "filter") eqn:Ef; try done.
    destruct next; try done. eauto 10.
  - intros (props & tps & f & n & -> & -> & ->). done.
Qed.

(** * What a reducer returns: a new object, an initial state, its input *)

Ltac switch_to_case :=
  repeat (rewrite switch_miss by done); rewrite switch_hit.

Ltac elem_of_cases H :=
  repeat (apply elem_of_cons in H as [->|H]); [..|by apply elem_of_nil in H].

Lemma reducer_fresh r h state action ap v h' :
  lookup_obj h action = Some ap →
  prop ap "type" ∈ VStr <$> types_of r →
  resets_to r (prop ap "type") = None →
  reducer_fun r state action h = Ret (v, h') →
  new_object h h' v.
Proof.
  intros Ha (ty & Hty & Hin)%elem_of_types Hreset.
  destruct r; simpl in *.
  - unfold counterReducer. js_step. rewrite Hty. unfold counter_types in Hin.
    elem_of_cases Hin; switch_to_case;
      match goal with
      | |- ?m h = _ → _ => enough (allocates m) as Hal by (apply Hal)
      end.
    all: allocates_code.
  - unfold formReducer. js_step. rewrite Hty in *. unfold form_types in Hin.
    elem_of_cases Hin; try (by rewrite decide_True in Hreset by auto);
      switch_to_case;
      match goal with
      | |- ?m h = _ → _ => enough (allocates m) as Hal by (apply Hal)
      end.
    all: unfold to_property_key; allocates_code.
  - unfold todoReducer. js_step. rewrite Hty. unfold todo_types in Hin.
    elem_of_cases Hin; switch_to_case;
      match goal with
      | |- ?m h = _ → _ => enough (allocates m) as Hal by (apply Hal)
      end.
    all: allocates_code.
  - unfold cartReducer. js_step. rewrite Hty in *. unfold cart_types in Hin.
    elem_of_cases Hin; try (by rewrite decide_True in Hreset by auto);
      switch_to_case;
      match goal with
      | |- ?m h = _ → _ => enough (allocates m) as Hal by (apply Hal)
      end.
    all: allocates_code.
Qed.

Lemma reducer_resets r h state action ap init :
  lookup_obj h action = Some ap →
  resets_to r (prop ap "type") = Some init →
  reducer_fun r state action h = Ret (init, h).
Proof.
  intros Ha Hreset. destruct r; simpl in *; try done.
  - unfold formReducer. js_step.
    destruct (decide _) as [[Hty|Hty]|]; [..|done]; injection Hreset as <-;
      rewrite Hty; by switch_to_case.
  - unfold cartReducer. js_step.
    destruct (decide _) as [Hty|]; [|done]. injection Hreset as <-.
    rewrite Hty. by switch_to_case.
Qed.

Lemma reducer_unrecognised r h state action ap :
  lookup_obj h action = Some ap →
  prop ap "type" ∉ VStr <$> types_of r →
  reducer_fun r state action h =
    match r with
    | RCounter => counterReducer state action h
    | _ => Ret (state, h)
    end.
Proof.
  intros Ha Hty. destruct r; simpl in *; [done|..].
  - unfold formReducer. js_step. by rewrite switch_default.
  - unfold todoReducer. js_step. by rewrite switch_default.
  - unfold cartReducer. js_step. by rewrite switch_default.
Qed.

Lemma new_object_neq h h' v state :
  new_object h h' v → is_Some (lookup_obj h state) → v ≠ state.
Proof.
  intros (l & -> & Hnone & _) [props (l' & -> & Hl')%lookup_obj_Some] [= ->].
  pose proof (eq_trans (eq_sym Hl') Hnone). done.
Qed.

(** * Two runs of a reducer on equal inputs

    Every primitive of the embedding takes stores that are alike and
    arguments equal up to the correspondence to outcomes that are alike;
    so do sequencing, [switch] and the array methods, and hence the four
    reducers. *)

Lemma vrel_mono : monotone vrel.
Proof.
  intros ρ ρ' v1 v2 Hsub.
  destruct v1 as [| | | | |l1], v2 as [| | | | |l2]; simpl; try done.
  intros Hin. by apply Hsub.
Qed.

Lemma props_rel_mono : monotone props_rel.
Proof.
  intros ρ ρ' p1 p2 Hsub H. eapply map_Forall2_impl; [done|].
  intros k v1 v2. by apply vrel_mono.
Qed.

Lemma list_rel_mono : monotone list_rel.
Proof.
  intros ρ ρ' p1 p2 Hsub H. eapply Forall2_impl; [done|].
  intros ??. by apply vrel_mono.
Qed.

Lemma same_mono {A} : monotone (@same A).
Proof. by intros ρ ρ' a1 a2 _ ?. Qed.

Lemma orel_mono : monotone orel.
Proof.
  intros ρ ρ' [p1|e1] [p2|e2] Hsub; simpl; try done.
  - by apply props_rel_mono.
  - by apply list_rel_mono.
Qed.

Lemma related_ret {A} (RA : list (loc * loc) → A → A → Prop) ρ a1 a2 :
  monotone RA → RA ρ a1 a2 → related RA ρ (mret a1) (mret a2).
Proof.
  intros Hmono Ha ρ1 h1 h2 Hsub Hal. exists ρ1. split_and!; [done|done|].
  by eapply Hmono.
Qed.

Lemma related_bind {A B} (RA : list (loc * loc) → A → A → Prop)
    (RB : list (loc * loc) → B → B → Prop) ρ (m1 m2 : js A)
    (k1 k2 : A → js B) :
  related RA ρ m1 m2 →
  (∀ ρ' a1 a2, ρ ⊆ ρ' → RA ρ' a1 a2 → related RB ρ' (k1 a1) (k2 a2)) →
  related RB ρ (m1 ≫= k1) (m2 ≫= k2).
Proof.
  intros Hm Hk ρ1 h1 h2 Hsub Hal. specialize (Hm ρ1 h1 h2 Hsub Hal).
  unfold mbind, js_bind, outcomes_alike in *.
  destruct (m1 h1) as [[a1 h1']| |], (m2 h2) as [[a2 h2']| |]; try done.
  destruct Hm as (ρ' & Hsub' & Hal' & Ha).
  specialize (Hk ρ' a1 a2 (transitivity Hsub Hsub') Ha ρ' h1' h2'
                (reflexivity _) Hal').
  destruct (k1 a1 h1') as [[b1 h1'']| |], (k2 a2 h2') as [[b2 h2'']| |];
    try done.
  destruct Hk as (ρ'' & Hsub'' & Hal'' & Hb).
  exists ρ''. split_and!; [by etrans|done|done].
Qed.

Lemma related_throw {A} (RA : list (loc * loc) → A → A → Prop) ρ e :
  related RA ρ (throw e) (throw e).
Proof. by intros ρ1 h1 h2 _ _. Qed.

Lemma related_unsupported {A} (RA : list (loc * loc) → A → A → Prop) ρ :
  related RA ρ unsupported unsupported.
Proof. by intros ρ1 h1 h2 _ _. Qed.

Lemma alike_bound ρ h1 h2 l1 l2 :
  alike ρ h1 h2 → (l1, l2) ∈ ρ → (l1 < length h1)%nat ∧ (l2 < length h2)%nat.
Proof.
  intros Hal Hin. destruct (alike_obj _ _ _ Hal _ _ Hin) as (o1 & o2 & H1 & H2 & _).
  split; by eapply lookup_lt_Some.
Qed.

Lemma related_alloc ρ o1 o2 :
  orel ρ o1 o2 → related vrel ρ (alloc o1) (alloc o2).
Proof.
  intros Ho ρ1 h1 h2 Hsub Hal. simpl.
  exists ((length h1, length h2) :: ρ1).
  assert (Hsub1 : ρ1 ⊆ (length h1, length h2) :: ρ1)
    by (intros ??; by apply list_elem_of_further).
  split_and!; [done| |by apply list_elem_of_here].
  split.
  - intros l1 l2 l2' [[= -> ->]|H1]%elem_of_cons [[= ->]|H2]%elem_of_cons;
      try done.
    + apply (alike_bound _ _ _ _ _ Hal) in H2. lia.
    + apply (alike_bound _ _ _ _ _ Hal) in H1. lia.
    + by eapply alike_fun.
  - intros l1 l1' l2 [[= -> ->]|H1]%elem_of_cons [[= ->]|H2]%elem_of_cons;
      try done.
    + apply (alike_bound _ _ _ _ _ Hal) in H2. lia.
    + apply (alike_bound _ _ _ _ _ Hal) in H1. lia.
    + by eapply alike_inj.
  - intros l1 l2 [[= -> ->]|H1]%elem_of_cons.
    + exists o1, o2. rewrite !list_lookup_middle by done.
      split_and!; [done|done|]. eapply orel_mono; [|done]. by etrans.
    + destruct (alike_obj _ _ _ Hal _ _ H1) as (o1' & o2' & ? & ? & ?).
      exists o1', o2'. split_and!; [by apply lookup_app_l_Some..|].
      by eapply orel_mono.
Qed.

Lemma related_deref ρ l1 l2 :
  (l1, l2) ∈ ρ → related orel ρ (deref l1) (deref l2).
Proof.
  intros Hin ρ1 h1 h2 Hsub Hal. unfold deref.
  destruct (alike_obj _ _ _ Hal l1 l2) as (o1 & o2 & -> & -> & Ho); [auto|].
  exists ρ1. by split_and!.
Qed.

Lemma props_rel_prop ρ p1 p2 k :
  props_rel ρ p1 p2 → vrel ρ (prop p1 k) (prop p2 k).
Proof.
  intros Hp. specialize (Hp k). unfold prop.
  destruct Hp as [v1 v2 Hv|]; done.
Qed.

(** A computation on related values that dereferences at most its
    argument. *)
Lemma related_on_value {A} (RA : list (loc * loc) → A → A → Prop) ρ v1 v2
    (f : value → js A) (g : object → js A) :
  vrel ρ v1 v2 →
  (∀ l, f (VRef l) = deref l ≫= g) →
  (∀ ρ' v, ρ ⊆ ρ' → vrel ρ' v v → (∀ l, v ≠ VRef l) →
     related RA ρ' (f v) (f v)) →
  (∀ ρ' o1 o2, ρ ⊆ ρ' → orel ρ' o1 o2 → related RA ρ' (g o1) (g o2)) →
  related RA ρ (f v1) (f v2).
Proof.
  intros Hv Hf Hprim Hobj.
  destruct v1 as [| | | | |l1], v2 as [| | | | |l2]; simpl in Hv; try done;
    try (injection Hv as <-); try (by apply Hprim).
  rewrite !Hf. eapply related_bind; [by apply related_deref|]. apply Hobj.
Qed.

Lemma related_get_prop ρ v1 v2 k :
  vrel ρ v1 v2 → related vrel ρ (get_prop v1 k) (get_prop v2 k).
Proof.
  intros Hv.
  apply (related_on_value vrel ρ v1 v2 (λ v, get_prop v k)
           (λ o, match o with
                 | Obj props => mret (prop props k)
                 | Arr _ => unsupported
                 end)); [done|done|..].
  - intros ρ' v _ _ Hv'. destruct v; try apply related_throw;
      try (by apply related_ret; [apply vrel_mono|]). by destruct (Hv' l).
  - intros ρ' [p1|e1] [p2|e2] _ Ho; try done.
    apply related_ret; [apply vrel_mono|]. by apply props_rel_prop.
Qed.

Lemma related_own_props ρ v1 v2 :
  vrel ρ v1 v2 → related props_rel ρ (own_props v1) (own_props v2).
Proof.
  intros Hv.
  apply (related_on_value props_rel ρ v1 v2 own_props
           (λ o, match o with
                 | Obj props => mret props
                 | Arr _ => unsupported
                 end)); [done|done|..].
  - intros ρ' v _ _ Hv'. destruct v; try apply related_unsupported;
      try (by apply related_ret; [apply props_rel_mono|apply map_Forall2_empty]).
    by destruct (Hv' l).
  - intros ρ' [p1|e1] [p2|e2] _ Ho; try done.
    by apply related_ret; [apply props_rel_mono|].
Qed.

Lemma related_iterate ρ v1 v2 :
  vrel ρ v1 v2 → related list_rel ρ (iterate v1) (iterate v2).
Proof.
  intros Hv.
  apply (related_on_value list_rel ρ v1 v2 iterate
           (λ o, match o with
                 | Arr elems => mret elems
                 | Obj _ => throw TypeError
                 end)); [done|done|..].
  - intros ρ' v _ _ Hv'. destruct v; try apply related_unsupported;
      try apply related_throw. by destruct (Hv' l).
  - intros ρ' [p1|e1] [p2|e2] _ Ho; try done.
    by apply related_ret; [apply list_rel_mono|].
Qed.

Lemma related_array_receiver ρ v1 v2 :
  vrel ρ v1 v2 →
  related list_rel ρ (array_receiver v1) (array_receiver v2).
Proof.
  intros Hv.
  apply (related_on_value list_rel ρ v1 v2 array_receiver
           (λ o, match o with
                 | Arr elems => mret elems
                 | Obj _ => throw TypeError
                 end)); [done|done|..].
  - intros ρ' v _ _ Hv'. destruct v; try apply related_throw.
    by destruct (Hv' l).
  - intros ρ' [p1|e1] [p2|e2] _ Ho; try done.
    by apply related_ret; [apply list_rel_mono|].
Qed.


Lemma related_to_string ρ v1 v2 :
  vrel ρ v1 v2 → related same ρ (to_string v1) (to_string v2).
Proof.
  intros Hv.
  destruct v1 as [| |[]|[]| |l1], v2 as [| |[]|[]| |l2]; simpl in Hv;
    try done; try (injection Hv as <-); simpl;
    try (by apply related_ret; [apply same_mono|]);
    try apply related_unsupported.
  case_decide; [by apply related_ret; [apply same_mono|]|].
  apply related_unsupported.
Qed.

Lemma related_to_number ρ v1 v2 :
  vrel ρ v1 v2 → related same ρ (to_number v1) (to_number v2).
Proof.
  intros Hv.
  destruct v1 as [| |[]| | |l1], v2 as [| |[]| | |l2]; simpl in Hv;
    try done; try (injection Hv as <-); simpl;
    try (by apply related_ret; [apply same_mono|]);
    apply related_unsupported.
Qed.

Lemma vrel_prim ρ v1 v2 :
  vrel ρ v1 v2 → (∀ l, v1 ≠ VRef l) → v1 = v2.
Proof.
  destruct v1 as [| | | | |l1], v2 as [| | | | |l2]; simpl; try done.
  intros _ H. by destruct (H l1).
Qed.

Lemma vrel_refl_prim ρ v : (∀ l, v ≠ VRef l) → vrel ρ v v.
Proof. destruct v as [| | | | |l]; simpl; try done. intros H. by destruct (H l). Qed.

Ltac related_prim :=
  let ρ1 := fresh "ρ" in
  intros ρ1 ? ? ? ?;
  unfold js_add, js_sub, js_mul, to_string, to_number, mbind, js_bind,
    mret, js_ret, unsupported;
  simpl; repeat case_decide; simpl; try done;
  exists ρ1; by split_and!.

Lemma related_js_add ρ a1 a2 b1 b2 :
  vrel ρ a1 a2 → vrel ρ b1 b2 → related vrel ρ (js_add a1 b1) (js_add a2 b2).
Proof.
  intros Ha Hb.
  destruct a1 as [| |[]|[]| |], a2 as [| |[]|[]| |]; simpl in Ha; try done;
    try (injection Ha as <-);
    destruct b1 as [| |[]|[]| |], b2 as [| |[]|[]| |]; simpl in Hb; try done;
    try (injection Hb as <-); related_prim.
Qed.

Lemma related_js_sub ρ a1 a2 b1 b2 :
  vrel ρ a1 a2 → vrel ρ b1 b2 → related vrel ρ (js_sub a1 b1) (js_sub a2 b2).
Proof.
  intros Ha Hb.
  destruct a1 as [| |[]|[]| |], a2 as [| |[]|[]| |]; simpl in Ha; try done;
    try (injection Ha as <-);
    destruct b1 as [| |[]|[]| |], b2 as [| |[]|[]| |]; simpl in Hb; try done;
    try (injection Hb as <-); related_prim.
Qed.

Lemma related_js_mul ρ a1 a2 b1 b2 :
  vrel ρ a1 a2 → vrel ρ b1 b2 → related vrel ρ (js_mul a1 b1) (js_mul a2 b2).
Proof.
  intros Ha Hb.
  destruct a1 as [| |[]|[]| |], a2 as [| |[]|[]| |]; simpl in Ha; try done;
    try (injection Ha as <-);
    destruct b1 as [| |[]|[]| |], b2 as [| |[]|[]| |]; simpl in Hb; try done;
    try (injection Hb as <-); related_prim.
Qed.

Lemma vrel_truthy ρ v1 v2 : vrel ρ v1 v2 → truthy v1 = truthy v2.
Proof.
  destruct v1 as [| | | | |], v2 as [| | | | |]; simpl; try done;
    by intros [= <-].
Qed.

Lemma vrel_js_not ρ v1 v2 : vrel ρ v1 v2 → vrel ρ (js_not v1) (js_not v2).
Proof. intros Hv. unfold js_not. by rewrite (vrel_truthy ρ v1 v2). Qed.

Lemma vrel_strict_eq ρ h1 h2 a1 a2 b1 b2 :
  alike ρ h1 h2 → vrel ρ a1 a2 → vrel ρ b1 b2 →
  strict_eq a1 b1 = strict_eq a2 b2.
Proof.
  intros Hal Ha Hb.
  destruct a1 as [| | | | |la1], a2 as [| | | | |la2]; simpl in Ha; try done;
    try (injection Ha as <-);
    destruct b1 as [| | | | |lb1], b2 as [| | | | |lb2]; simpl in Hb;
    try done; try (injection Hb as <-); try done.
  simpl. apply bool_decide_ext. split; intros ->.
  - by eapply alike_fun.
  - by eapply alike_inj.
Qed.

Lemma vrel_strict_eq_str ρ v1 v2 c :
  vrel ρ v1 v2 → strict_eq v1 (VStr c) = strict_eq v2 (VStr c).
Proof.
  destruct v1 as [| | | | |], v2 as [| | | | |]; simpl; try done;
    by intros [= <-].
Qed.

Lemma related_if {A} (RA : list (loc * loc) → A → A → Prop) ρ (b : bool)
    (m1 m2 n1 n2 : js A) :
  related RA ρ m1 m2 → related RA ρ n1 n2 →
  related RA ρ (if b then m1 else n1) (if b then m2 else n2).
Proof. by destruct b. Qed.

Lemma related_if_strict_eq {A} (RA : list (loc * loc) → A → A → Prop) ρ
    a1 a2 b1 b2 (m1 m2 n1 n2 : js A) :
  vrel ρ a1 a2 → vrel ρ b1 b2 →
  related RA ρ m1 m2 → related RA ρ n1 n2 →
  related RA ρ (if strict_eq a1 b1 then m1 else n1)
               (if strict_eq a2 b2 then m2 else n2).
Proof.
  intros Ha Hb Hm Hn ρ1 h1 h2 Hsub Hal.
  rewrite (vrel_strict_eq ρ1 h1 h2 a1 a2 b1 b2)
    by eauto using vrel_mono.
  destruct (strict_eq a2 b2); [by apply Hm|by apply Hn].
Qed.

Lemma related_ret_strict_eq ρ (f : bool → bool) a1 a2 b1 b2 :
  vrel ρ a1 a2 → vrel ρ b1 b2 →
  related vrel ρ (mret (VBool (f (strict_eq a1 b1))))
                 (mret (VBool (f (strict_eq a2 b2)))).
Proof.
  intros Ha Hb ρ1 h1 h2 Hsub Hal.
  rewrite (vrel_strict_eq ρ1 h1 h2 a1 a2 b1 b2)
    by eauto using vrel_mono.
  exists ρ1. by split_and!.
Qed.

Lemma related_switch {A} (RA : list (loc * loc) → A → A → Prop) ρ v1 v2
    (cases1 cases2 : list (string * js A)) (d1 d2 : js A) :
  vrel ρ v1 v2 →
  Forall2 (λ c1 c2, c1.1 = c2.1 ∧ related RA ρ c1.2 c2.2) cases1 cases2 →
  related RA ρ d1 d2 →
  related RA ρ (switch v1 cases1 d1) (switch v2 cases2 d2).
Proof.
  intros Hv Hc Hd.
  induction Hc as [|[c b1] [c' b2] cases1 cases2 [Heq Hb] _ IH]; [done|].
  simpl in *. subst c'. rewrite (vrel_strict_eq_str ρ v1 v2 c Hv).
  by destruct (strict_eq v2 (VStr c)).
Qed.

Lemma related_find_loop cb1 cb2 e1 : ∀ e2 ρ,
  (∀ ρ' x1 x2, ρ ⊆ ρ' → vrel ρ' x1 x2 → related vrel ρ' (cb1 x1) (cb2 x2)) →
  list_rel ρ e1 e2 →
  related vrel ρ (find_loop cb1 e1) (find_loop cb2 e2).
Proof.
  induction e1 as [|x1 e1 IH]; intros e2 ρ Hcb He.
  - apply Forall2_nil_inv_l in He as ->. by apply related_ret; [apply vrel_mono|].
  - apply Forall2_cons_inv_l in He as (x2 & e2' & Hx & He & ->). simpl.
    eapply related_bind; [apply Hcb; [reflexivity|done]|]. intros ρ' b1 b2 Hsub Hb.
    rewrite (vrel_truthy ρ' b1 b2 Hb). apply related_if.
    + apply related_ret; [apply vrel_mono|]. by eapply vrel_mono.
    + apply IH; [|by eapply list_rel_mono].
      intros ρ'' ?? Hsub' ?. apply Hcb; [by etrans|done].
Qed.

Lemma related_map_loop cb1 cb2 e1 : ∀ e2 ρ,
  (∀ ρ' x1 x2, ρ ⊆ ρ' → vrel ρ' x1 x2 → related vrel ρ' (cb1 x1) (cb2 x2)) →
  list_rel ρ e1 e2 →
  related list_rel ρ (map_loop cb1 e1) (map_loop cb2 e2).
Proof.
  induction e1 as [|x1 e1 IH]; intros e2 ρ Hcb He.
  - apply Forall2_nil_inv_l in He as ->.
    apply related_ret; [apply list_rel_mono|constructor].
  - apply Forall2_cons_inv_l in He as (x2 & e2' & Hx & He & ->). simpl.
    eapply related_bind; [apply Hcb; [reflexivity|done]|]. intros ρ' y1 y2 Hsub Hy.
    eapply related_bind.
    + apply IH; [|by eapply list_rel_mono].
      intros ρ'' ?? Hsub' ?. apply Hcb; [by etrans|done].
    + intros ρ'' ys1 ys2 Hsub' Hys.
      apply related_ret; [apply list_rel_mono|].
      constructor; [by eapply vrel_mono|done].
Qed.

Lemma related_filter_loop cb1 cb2 e1 : ∀ e2 ρ,
  (∀ ρ' x1 x2, ρ ⊆ ρ' → vrel ρ' x1 x2 → related vrel ρ' (cb1 x1) (cb2 x2)) →
  list_rel ρ e1 e2 →
  related list_rel ρ (filter_loop cb1 e1) (filter_loop cb2 e2).
Proof.
  induction e1 as [|x1 e1 IH]; intros e2 ρ Hcb He.
  - apply Forall2_nil_inv_l in He as ->.
    apply related_ret; [apply list_rel_mono|constructor].
  - apply Forall2_cons_inv_l in He as (x2 & e2' & Hx & He & ->). simpl.
    eapply related_bind; [apply Hcb; [reflexivity|done]|]. intros ρ' b1 b2 Hsub Hb.
    eapply related_bind.
    + apply IH; [|by eapply list_rel_mono].
      intros ρ'' ?? Hsub' ?. apply Hcb; [by etrans|done].
    + intros ρ'' ys1 ys2 Hsub' Hys.
      apply related_ret; [apply list_rel_mono|].
      rewrite (vrel_truthy ρ' b1 b2 Hb). destruct (truthy b2); [|done].
      constructor; [|done]. eapply vrel_mono; [|done]. by etrans.
Qed.

Lemma related_array_find ρ v1 v2 cb1 cb2 :
  vrel ρ v1 v2 →
  (∀ ρ' x1 x2, ρ ⊆ ρ' → vrel ρ' x1 x2 → related vrel ρ' (cb1 x1) (cb2 x2)) →
  related vrel ρ (array_find v1 cb1) (array_find v2 cb2).
Proof.
  intros Hv Hcb. unfold array_find.
  eapply related_bind; [by apply related_array_receiver|].
  intros ρ' e1 e2 Hsub He. apply related_find_loop; [|done].
  intros ρ'' ?? Hsub' ?. apply Hcb; [by etrans|done].
Qed.

Lemma related_array_map ρ v1 v2 cb1 cb2 :
  vrel ρ v1 v2 →
  (∀ ρ' x1 x2, ρ ⊆ ρ' → vrel ρ' x1 x2 → related vrel ρ' (cb1 x1) (cb2 x2)) →
  related vrel ρ (array_map v1 cb1) (array_map v2 cb2).
Proof.
  intros Hv Hcb. unfold array_map.
  eapply related_bind; [by apply related_array_receiver|].
  intros ρ' e1 e2 Hsub He. eapply related_bind.
  - apply related_map_loop; [|done].
    intros ρ'' ?? Hsub' ?. apply Hcb; [by etrans|done].
  - intros ρ'' ys1 ys2 _ Hys. by apply related_alloc.
Qed.

Lemma related_array_filter ρ v1 v2 cb1 cb2 :
  vrel ρ v1 v2 →
  (∀ ρ' x1 x2, ρ ⊆ ρ' → vrel ρ' x1 x2 → related vrel ρ' (cb1 x1) (cb2 x2)) →
  related vrel ρ (array_filter v1 cb1) (array_filter v2 cb2).
Proof.
  intros Hv Hcb. unfold array_filter.
  eapply related_bind; [by apply related_array_receiver|].
  intros ρ' e1 e2 Hsub He. eapply related_bind.
  - apply related_filter_loop; [|done].
    intros ρ'' ?? Hsub' ?. apply Hcb; [by etrans|done].
  - intros ρ'' ys1 ys2 _ Hys. by apply related_alloc.
Qed.

Lemma related_if_truthy {A} (RA : list (loc * loc) → A → A → Prop) ρ
    v1 v2 (m1 m2 n1 n2 : js A) :
  vrel ρ v1 v2 →
  related RA ρ m1 m2 → related RA ρ n1 n2 →
  related RA ρ (if truthy v1 then m1 else n1) (if truthy v2 then m2 else n2).
Proof. intros Hv. rewrite (vrel_truthy ρ v1 v2 Hv). apply related_if. Qed.

Ltac lift_rel Hsub :=
  repeat match goal with
  | H : vrel ?ρ _ _ |- _ =>
      lazymatch type of Hsub with ρ ⊆ _ => idtac end;
      apply (vrel_mono _ _ _ _ Hsub) in H
  | H : props_rel ?ρ _ _ |- _ =>
      lazymatch type of Hsub with ρ ⊆ _ => idtac end;
      apply (props_rel_mono _ _ _ _ Hsub) in H
  | H : list_rel ?ρ _ _ |- _ =>
      lazymatch type of Hsub with ρ ⊆ _ => idtac end;
      apply (list_rel_mono _ _ _ _ Hsub) in H
  end;
  clear Hsub;
  repeat match goal with
  | H : same _ _ _ |- _ => red in H; subst
  end.

Ltac vrel_tac :=
  first [assumption | by apply vrel_js_not | by apply props_rel_prop | done].

Ltac orel_tac :=
  simpl; unfold props_rel, list_rel;
  repeat match goal with
  | |- map_Forall2 _ (<[_:=_]> _) (<[_:=_]> _) => apply map_Forall2_insert_2
  | |- map_Forall2 _ {[_:=_]} {[_:=_]} => apply map_Forall2_singleton
  | |- map_Forall2 _ ∅ ∅ => apply map_Forall2_empty
  | |- Forall2 _ (_ ++ _) (_ ++ _) => apply Forall2_app
  | |- Forall2 _ (_ :: _) (_ :: _) => apply Forall2_cons_2
  | |- Forall2 _ [] [] => apply Forall2_nil_2
  | |- vrel _ _ _ => vrel_tac
  | _ => assumption
  end.

Ltac related_intro :=
  let Hsub := fresh "Hsub" in
  intros ? ? ? Hsub ?; lift_rel Hsub.

Ltac related_code :=
  repeat match goal with
  | H : same _ _ _ |- _ => red in H; subst
  | |- related _ _ (get_prop _ _) _ => apply related_get_prop; vrel_tac
  | |- related _ _ (own_props _) _ => apply related_own_props; vrel_tac
  | |- related _ _ (iterate _) _ => apply related_iterate; vrel_tac
  | |- related _ _ (to_string _) _ => apply related_to_string; vrel_tac
  | |- related _ _ (js_add _ _) _ => apply related_js_add; vrel_tac
  | |- related _ _ (js_sub _ _) _ => apply related_js_sub; vrel_tac
  | |- related _ _ (js_mul _ _) _ => apply related_js_mul; vrel_tac
  | |- related _ _ (throw _) _ => apply related_throw
  | |- related _ _ (alloc _) _ => apply related_alloc; solve [orel_tac]
  | |- related _ _ (mret (VBool (negb (strict_eq _ _)))) _ =>
      apply (related_ret_strict_eq _ negb); vrel_tac
  | |- related _ _ (mret (VBool (strict_eq _ _))) _ =>
      apply (related_ret_strict_eq _ id); vrel_tac
  | |- related _ _ (mret _) _ =>
      apply related_ret; [apply vrel_mono|vrel_tac]
  | |- related _ _ (array_find _ _) _ =>
      apply related_array_find; [vrel_tac|related_intro]
  | |- related _ _ (array_map _ _) _ =>
      apply related_array_map; [vrel_tac|related_intro]
  | |- related _ _ (array_filter _ _) _ =>
      apply related_array_filter; [vrel_tac|related_intro]
  | |- related _ _ (if strict_eq _ _ then _ else _) _ =>
      apply related_if_strict_eq; [vrel_tac|vrel_tac|..]
  | |- related _ _ (if truthy _ then _ else _) _ =>
      apply related_if_truthy; [vrel_tac|..]
  | |- related _ _ (_ ≫= _) _ => eapply related_bind; [|related_intro]
  | |- related _ _ (switch _ _ _) _ =>
      apply related_switch;
        [vrel_tac
        |repeat (constructor; [split; [reflexivity|simpl]|]);
         try constructor
        |]
  end.

(** ** The four reducers *)

Lemma related_counterReducer ρ s1 s2 a1 a2 :
  vrel ρ s1 s2 → vrel ρ a1 a2 →
  related vrel ρ (counterReducer s1 a1) (counterReducer s2 a2).
Proof. intros Hs Ha. unfold counterReducer. related_code. Qed.

Lemma related_formReducer ρ s1 s2 a1 a2 :
  vrel ρ formInitialState formInitialState →
  vrel ρ s1 s2 → vrel ρ a1 a2 →
  related vrel ρ (formReducer s1 a1) (formReducer s2 a2).
Proof. intros Hi Hs Ha. unfold formReducer, to_property_key. related_code. Qed.

Lemma related_todoReducer ρ s1 s2 a1 a2 :
  vrel ρ s1 s2 → vrel ρ a1 a2 →
  related vrel ρ (todoReducer s1 a1) (todoReducer s2 a2).
Proof. intros Hs Ha. unfold todoReducer. related_code. Qed.

Lemma related_cartReducer ρ s1 s2 a1 a2 :
  vrel ρ cartInitialState cartInitialState →
  vrel ρ s1 s2 → vrel ρ a1 a2 →
  related vrel ρ (cartReducer s1 a1) (cartReducer s2 a2).
Proof. intros Hi Hs Ha. unfold cartReducer. related_code. Qed.

(** ** Deciding [alike] on given stores *)

#[global] Instance vrel_dec ρ v1 v2 : Decision (vrel ρ v1 v2).
Proof. destruct v1, v2; simpl; apply _. Defined.

Lemma props_rel_relation ρ p1 p2 :
  props_rel ρ p1 p2 ↔
  map_relation (λ _, vrel ρ) (λ _ _, False) (λ _ _, False) p1 p2.
Proof.
  unfold props_rel, map_Forall2, map_relation.
  split; intros H i; specialize (H i);
    destruct (p1 !! i), (p2 !! i); simpl in *;
    first [done | by inversion H | by constructor].
Qed.

#[global] Instance props_rel_dec ρ p1 p2 : Decision (props_rel ρ p1 p2).
Proof.
  refine (cast_if (decide (map_relation (λ _, vrel ρ) (λ _ _, False)
                             (λ _ _, False) p1 p2)));
    by rewrite props_rel_relation.
Defined.

#[global] Instance orel_dec ρ o1 o2 : Decision (orel ρ o1 o2).
Proof. destruct o1, o2; simpl; unfold list_rel; apply _. Defined.

#[global] Instance alike_at_dec ρ h1 h2 p : Decision (alike_at ρ h1 h2 p).
Proof.
  unfold alike_at. destruct (h1 !! p.1), (h2 !! p.2); apply _.
Defined.

Lemma alike_Forall ρ h1 h2 : Forall (alike_at ρ h1 h2) ρ → alike ρ h1 h2.
Proof.
  rewrite Forall_forall. intros H. split.
  - intros l1 l2 l2' H1 H2. destruct (H _ H1) as [HF _].
    rewrite Forall_forall in HF. by apply (HF _ H2).
  - intros l1 l1' l2 H1 H2. destruct (H _ H1) as [HF _].
    rewrite Forall_forall in HF. by apply (HF _ H2).
  - intros l1 l2 Hin. destruct (H _ Hin) as [_ Ho]. simpl in Ho.
    destruct (h1 !! l1) as [o1|], (h2 !! l2) as [o2|]; try done.
    by exists o1, o2.
Qed.

(** * The claims *)



(** C2, counterexample.  An action whose type [todoReducer] does not
    recognise: the [default] branch returns the input state itself, and
    nothing is allocated. *)
Lemma unrecognised_action_returns_input_state :
  todoReducer todoInitialState (VRef 7%nat)
    (module_heap ++ [Obj {[ "type" := VStr "NOPE" ]}]) =
  Ret (todoInitialState, module_heap ++ [Obj {[ "type" := VStr "NOPE" ]}]).
Proof. reflexivity. Qed.

(** C2, amended.  Whenever a reducer returns on an action object:
    - for a type it recognises, other than SUBMIT_SUCCESS and RESET_FORM
      of the form and CLEAR_CART of the cart, the result is a newly
      constructed object, distinct from the input state;
    - for SUBMIT_SUCCESS, RESET_FORM and CLEAR_CART the result is the
      module-level initial-state object, and nothing is allocated;
    - for a type it does not recognise the result is the input state
      itself and nothing is allocated (and the reducer is not the
      counter's, which does not return on such an action). *)
Theorem reducer_result_identity r h state action ap v h' :
  lookup_obj h action = Some ap →
  is_Some (lookup_obj h state) →
  reducer_fun r state action h = Ret (v, h') →
  (prop ap "type" ∈ VStr <$> types_of r →
   resets_to r (prop ap "type") = None →
   new_object h h' v ∧ v ≠ state) ∧
  (∀ init, resets_to r (prop ap "type") = Some init → v = init ∧ h' = h) ∧
  (prop ap "type" ∉ VStr <$> types_of r →
   r ≠ RCounter ∧ v = state ∧ h' = h).
Proof.
  intros Ha Hs Hrun. split_and!.
  - intros Hty Hreset.
    assert (new_object h h' v) by eauto using reducer_fresh.
    eauto using new_object_neq.
  - intros init Hreset.
    rewrite (reducer_resets r h state action ap init) in Hrun by done.
    by injection Hrun as <- <-.
  - intros Hty. rewrite (reducer_unrecognised r h state action ap) in Hrun
      by done.
    destruct r; try (injection Hrun as <- <-; done).
    simpl in Hty. unfold counterReducer in Hrun. revert Hrun. js_step.
    rewrite switch_default by done.
    intros (msg & h1 & _ & [=])%bind_Ret_inv.
Qed.

Lemma reducer_result_identity_witness :
  let action := <["type" := VStr "SET_FILTER"]>
                  {[ "filter" := VStr "active" ]} in
  new_object
    (module_heap ++ [Obj action])
    (module_heap ++ [Obj action] ++
       [Obj (<["filter" := VStr "active"]>
               (<["todos" := VRef 3%nat]> (<["filter" := VStr "all"]>
                  {[ "nextId" := VNum (Fin 1) ]})))])
    (VRef 8%nat) ∧
  VRef 8%nat ≠ todoInitialState.
Proof.
  intros action.
  apply (reducer_result_identity RTodo (module_heap ++ [Obj action])
           todoInitialState (VRef 7%nat) action).
  - reflexivity.
  - eexists. reflexivity.
  - reflexivity.
  - apply (bool_decide_unpack _). vm_compute. exact I.
  - reflexivity.
Defined.

(** C3, counterexample.  [counterReducer] on an action whose type it does
    not recognise: the [default] branch throws an [Error]. *)
Lemma counterReducer_throws_on_unknown_type :
  counterReducer counterInitialState (VRef 7%nat)
    (module_heap ++ [Obj {[ "type" := VStr "NOPE" ]}]) =
  Throw (Error "Unknown action: NOPE").
Proof. reflexivity. Qed.

(** C3, amended.  In a store of the running module and for an action
    object:
    - [counterReducer] returns a state on a counter state and a recognised
      action, and throws [Error("Unknown action: " + type)] when the type
      is not one it recognises;
    - [formReducer] returns a state on a form state and a form action, and
      [todoReducer] on a todo state and any action;
    - [cartReducer] returns a state on a cart state and a cart action,
      where REMOVE_ITEM and UPDATE_QUANTITY name an id that is in the cart;
    - on an action whose type they do not recognise, [formReducer],
      [todoReducer] and [cartReducer] return their input state. *)
Theorem reducers_return_or_throw h state action ap :
  module_heap `prefix_of` h →
  lookup_obj h action = Some ap →
  (counter_shape h state = true → counter_action h action = true →
   ∃ s' h', counterReducer state action h = Ret (s', h')) ∧
  (prop ap "type" ∉ VStr <$> counter_types →
   ∀ msg, to_string (prop ap "type") h = Ret (msg, h) →
     counterReducer state action h =
       Throw (Error ("Unknown action: " +:+ msg))) ∧
  (form_shape h state = true → form_action h action = true →
   ∃ s' h', formReducer state action h = Ret (s', h')) ∧
  (todo_shape h state = true →
   ∃ s' h', todoReducer state action h = Ret (s', h')) ∧
  (∀ items total act,
     cart_view h state = Some (items, total) →
     read_cart_action h action = Some act →
     cart_present act items →
     ∃ s' h', cartReducer state action h = Ret (s', h')) ∧
  (∀ r, r ≠ RCounter → prop ap "type" ∉ VStr <$> types_of r →
     reducer_fun r state action h = Ret (state, h)).
Proof.
  intros Hmod Ha. split_and!.
  - intros (props & c & Hs & Hc)%counter_shape_true.
    unfold counter_action. rewrite Ha.
    intros [Hty%bool_decide_eq_true Hp]%andb_true_iff.
    destruct (counterReducer_spec h state action props ap c)
      as (c' & Hrun & _); try done; [|eauto].
    intros Hby. by rewrite decide_True in Hp.
  - intros Hty msg Hmsg. by apply (counterReducer_unknown h state action ap).
  - intros (props & eprops & Hs & He)%form_shape_true.
    unfold form_action. rewrite Ha. intros Hf.
    destruct (formReducer_spec h state action props eprops ap)
      as (s' & h' & Hrun & _); try done; [|eauto].
    intros Hty. by rewrite decide_True in Hf.
  - intros (props & tps & f & n & Hs & Hview & _)%todo_shape_true.
    destruct (todoReducer_view h state action tps n ap)
      as (s' & h' & _ & _ & Hrun & _); eauto.
  - intros items total act Hview Hact Hpre.
    destruct (cartReducer_spec h state action items total act)
      as (s' & h' & Hrun & _); eauto.
  - intros r Hr Hty.
    rewrite (reducer_unrecognised r h state action ap) by done.
    by destruct r.
Qed.

Lemma reducers_return_or_throw_witness :
  ∃ s' h',
    todoReducer todoInitialState (VRef 7%nat)
      (module_heap ++ [Obj {[ "type" := VStr "CLEAR_COMPLETED" ]}]) =
    Ret (s', h').
Proof.
  destruct (reducers_return_or_throw
              (module_heap ++ [Obj {[ "type" := VStr "CLEAR_COMPLETED" ]}])
              todoInitialState (VRef 7%nat)
              {[ "type" := VStr "CLEAR_COMPLETED" ]})
    as (_ & _ & _ & Htodo & _); [by apply prefix_app_r|reflexivity|].
  apply Htodo. reflexivity.
Defined.

(** C4.  The reducers are pure.  Take two runs of one of the four
    reducers, in two stores that are alike under a correspondence [ρ] of
    their addresses (the module's [formInitialState] and
    [cartInitialState] being the same constants in both), on states equal
    up to [ρ] and actions equal up to [ρ].  Then the outcomes are equal:
    both runs return, with states equal up to a correspondence that
    extends [ρ] by the objects the runs have created and in stores alike
    under it, or both throw the same error (or both leave the fragment of
    JavaScript that the embedding covers).  And a run that returns has
    modified nothing: every object of the store it started in, the input
    state among them, is the same object afterwards. *)
Theorem reducers_pure (r : reducer) ρ h1 h2 s1 s2 a1 a2 :
  alike ρ h1 h2 →
  vrel ρ formInitialState formInitialState →
  vrel ρ cartInitialState cartInitialState →
  vrel ρ s1 s2 → vrel ρ a1 a2 →
  outcomes_alike vrel ρ (reducer_fun r s1 a1 h1) (reducer_fun r s2 a2 h2) ∧
  (∀ s' h', reducer_fun r s1 a1 h1 = Ret (s', h') →
     ∀ l o, h1 !! l = Some o → h' !! l = Some o).
Proof.
  intros Hal Hf Hc Hs Ha. split.
  - assert (related vrel ρ (reducer_fun r s1 a1) (reducer_fun r s2 a2))
      as Hrel.
    { destruct r; simpl.
      - by apply related_counterReducer.
      - by apply related_formReducer.
      - by apply related_todoReducer.
      - by apply related_cartReducer. }
    by apply Hrel.
  - intros s' h' Hrun l o Hl.
    assert (h1 `prefix_of` h') as Hpre.
    { destruct r; simpl in Hrun.
      - by eapply grows_counterReducer.
      - by eapply grows_formReducer.
      - by eapply grows_todoReducer.
      - by eapply grows_cartReducer. }
    by eapply prefix_lookup_Some.
Qed.

Lemma reducers_pure_witness :
  outcomes_alike vrel increment_stores_corr
    (counterReducer counterInitialState (VRef 7%nat) increment_store_1)
    (counterReducer counterInitialState (VRef 8%nat) increment_store_2) ∧
  (∀ s' h',
     counterReducer counterInitialState (VRef 7%nat) increment_store_1
       = Ret (s', h') →
     ∀ l o, increment_store_1 !! l = Some o → h' !! l = Some o).
Proof.
  apply (reducers_pure RCounter increment_stores_corr
           increment_store_1 increment_store_2).
  - apply alike_Forall. apply (bool_decide_unpack _). vm_compute.
    reflexivity.
  - apply (bool_decide_unpack _). vm_compute. reflexivity.
  - apply (bool_decide_unpack _). vm_compute. reflexivity.
  - apply (bool_decide_unpack _). vm_compute. reflexivity.
  - apply (bool_decide_unpack _). vm_compute. reflexivity.
Defined.

(** C5.  The four states of UseReducerDemo are isolated.  A dispatch to one
    reducer that goes through leaves the states of the other three as they
    were: the component holds the same state objects for them, and every
    object that was in the store is still there, unchanged. *)
Theorem dispatch_isolated r action d h d' h' :
  dispatch r action d h = Ret (d', h') →
  (∀ r', r' ≠ r → state_of r' d' = state_of r' d) ∧
  (∀ l o, h !! l = Some o → h' !! l = Some o).
Proof.
  intros Hrun.
  assert (h `prefix_of` h' ∧ ∀ r', r' ≠ r → state_of r' d' = state_of r' d)
    as [Hh Hst].
  { destruct r; simpl in Hrun;
      apply bind_Ret_inv in Hrun as (s & h1 & Hred & [= <- <-]);
      (split; [|by intros []]).
    - by eapply grows_counterReducer.
    - by eapply grows_formReducer.
    - by eapply grows_todoReducer.
    - by eapply grows_cartReducer. }
  split; [done|]. intros l o Hl. by eapply prefix_lookup_Some.
Qed.

Lemma dispatch_isolated_witness :
  (∀ r', r' ≠ RCounter →
     state_of r'
       (Demo (VRef 8%nat) formInitialState todoInitialState cartInitialState
             (VStr "") VNull (VStr "")) =
     state_of r' UseReducerDemo) ∧
  (∀ l o,
     (module_heap ++ [Obj {[ "type" := VStr "INCREMENT" ]}]) !! l = Some o →
     ((module_heap ++ [Obj {[ "type" := VStr "INCREMENT" ]}]) ++
        [Obj {[ "count" := VNum (Fin 1) ]}]) !! l = Some o).
Proof.
  apply (dispatch_isolated RCounter (VRef 7%nat) UseReducerDemo).
  reflexivity.
Defined.






(** * The runs of the cart and of the todo list *)


Lemma todo_view_initial h :
  module_heap `prefix_of` h →
  todo_view h todoInitialState = Some ([], VNum (Fin 1)).
Proof. intros Hmod. eapply todo_view_prefix; [done|]. done. Qed.

Lemma todo_props_after_nextId ap n props :
  prop props "nextId" = VNum (Fin n) →
  prop (todo_props_after ap (Fin n) props) "nextId" =
    VNum (Fin (if decide (prop ap "type" = VStr "ADD_TODO")
               then n + 1 else n)).
Proof.
  intros Hn. unfold todo_props_after. cbv zeta.
  destruct (decide (prop ap "type" = VStr "ADD_TODO")).
  { by rewrite prop_insert_eq. }
  destruct (decide (prop ap "type" = VStr "SET_FILTER")); [|done].
  by rewrite prop_insert_ne.
Qed.

Lemma todo_run_inv h s :
  todo_run h s →
  ∃ tps ids n,
    todo_view h s = Some (tps, VNum (Fin n)) ∧
    id_of <$> tps = (λ i, VNum (Fin i)) <$> ids ∧
    NoDup ids ∧ Forall (λ i, i < n) ids.
Proof.
  induction 1 as [h Hmod|h s h1 a s' h' _ IH Hh Hrun].
  - exists [], [], 1. split_and!; [by apply todo_view_initial|done|..].
    + apply NoDup_nil_2.
    + done.
  - destruct IH as (tps & ids & n & Hview & Hids & Hnd & Hlt).
    eapply todo_view_prefix in Hview; [|done].
    destruct (lookup_obj h1 a) as [ap|] eqn:Ha.
    + destruct (todoReducer_view h1 s a tps (Fin n) ap)
        as (s'' & h'' & props & props' & Hrun' & _ & Hs & _ & _ & Hview');
        try done.
      assert (s'' = s' ∧ h'' = h') as [-> ->] by (split; congruence).
      assert (Hn : prop props "nextId" = VNum (Fin n)).
      { apply todo_view_Some in Hview as (? & ? & ? & _ & _ & ?). congruence. }
      destruct (todo_items_after_ids ap n tps ids Hids Hnd Hlt)
        as (ids' & Hids' & Hnd' & Hlt').
      rewrite (todo_props_after_nextId ap n props Hn) in Hview'.
      eexists _, ids', _. by split_and!.
    + apply todoReducer_not_object in Hrun as [-> ->]; [|done]. eauto 10.
Qed.



(** C9.  Todo ids are fresh.  In every state that the todo list reaches
    from [todoInitialState], by whatever actions, the ids of the todos are
    pairwise distinct integers, each strictly less than [state.nextId]. *)
Theorem todo_ids_fresh h s :
  todo_run h s →
  ∃ ids n,
    todo_ids h s = Some ((λ i, VNum (Fin i)) <$> ids) ∧
    todo_nextId h s = Some (VNum (Fin n)) ∧
    NoDup ids ∧ Forall (λ i, i < n) ids.
Proof.
  intros (tps & ids & n & Hview & Hids & Hnd & Hlt)%todo_run_inv.
  exists ids, n. unfold todo_ids, todo_nextId. rewrite Hview, Hids. done.
Qed.

Lemma todo_ids_fresh_witness :
  ∃ ids n,
    todo_ids
      (module_heap ++
         [Obj (<["type" := VStr "ADD_TODO"]> {[ "text" := VStr "milk" ]});
          Obj (todo_literal (VNum (Fin 1)) (VStr "milk"));
          Arr [VRef 8%nat];
          Obj (<["todos" := VRef 9%nat]> (<["filter" := VStr "all"]>
              {[ "nextId" := VNum (Fin 2) ]}))])
      (VRef 10%nat) = Some ((λ i, VNum (Fin i)) <$> ids) ∧
    todo_nextId
      (module_heap ++
         [Obj (<["type" := VStr "ADD_TODO"]> {[ "text" := VStr "milk" ]});
          Obj (todo_literal (VNum (Fin 1)) (VStr "milk"));
          Arr [VRef 8%nat];
          Obj (<["todos" := VRef 9%nat]> (<["filter" := VStr "all"]>
              {[ "nextId" := VNum (Fin 2) ]}))])
      (VRef 10%nat) = Some (VNum (Fin n)) ∧
    NoDup ids ∧ Forall (λ i, i < n) ids.
Proof.
  apply todo_ids_fresh.
  apply (todo_run_step module_heap todoInitialState
           (module_heap ++
              [Obj (<["type" := VStr "ADD_TODO"]> {[ "text" := VStr "milk" ]})])
           (VRef 7%nat)).
  - by apply todo_run_init.
  - by apply prefix_app_r.
  - vm_compute. reflexivity.
Defined.

Lemma find_item_existsb id items :
  existsb (has_id id) items = true ↔ is_Some (find_item id items).
Proof.
  induction items as [|it items IH]; simpl.
  - split; [done|]. by intros [? ?].
  - rewrite find_item_cons. destruct (has_id id it); simpl; [|done].
    split; [eauto|done].
Qed.

(** C10.  The lookup of REMOVE_ITEM and UPDATE_QUANTITY.  On a cart state
    and a REMOVE_ITEM or UPDATE_QUANTITY action for the id [id]: when some
    item of [state.items] has that id, [find] yields it and the reducer
    returns a state (the one of [cart_model]); when none has, [find] yields
    nothing and the reducer throws a TypeError on reading the price or the
    quantity of [undefined]. *)
Theorem cart_lookup h state action items total act id :
  cart_view h state = Some (items, total) →
  read_cart_action h action = Some act →
  act = REMOVE_ITEM id ∨ (∃ q, act = UPDATE_QUANTITY id q) →
  if existsb (has_id id) items
  then ∃ it s' h',
         find_item id items = Some it ∧
         cartReducer state action h = Ret (s', h') ∧
         cart_view h' s' = Some (cart_model act (items, total))
  else find_item id items = None ∧
       cartReducer state action h = Throw TypeError.
Proof.
  intros Hview Hact Hkind.
  destruct (existsb (has_id id) items) eqn:E.
  - apply find_item_existsb in E as [it Hit].
    destruct (cartReducer_spec h state action items total act)
      as (s' & h' & Hrun & _ & Hview'); try done.
    + by destruct Hkind as [->|[q ->]].
    + destruct Hkind as [->|[q ->]]; simpl; eauto.
    + eauto 10.
  - assert (find_item id items = None).
    { destruct (find_item id items) eqn:Hf; [|done].
      assert (existsb (has_id id) items = true)
        by (apply find_item_existsb; eauto).
      congruence. }
    split; [done|]. by eapply cartReducer_absent.
Qed.

Lemma cart_lookup_witness :
  ∃ it s' h',
    find_item (VNum (Fin 1)) [Item (VNum (Fin 1)) 999 1] = Some it ∧
    cartReducer (VRef 14%nat) (VRef 15%nat)
      (laptop_in_cart ++
         [Obj (<["type" := VStr "REMOVE_ITEM"]> {[ "id" := VNum (Fin 1) ]})])
      = Ret (s', h') ∧
    cart_view h' s' =
      Some (cart_model (REMOVE_ITEM (VNum (Fin 1)))
              ([Item (VNum (Fin 1)) 999 1], 999)).
Proof.
  exact (cart_lookup
           (laptop_in_cart ++
              [Obj (<["type" := VStr "REMOVE_ITEM"]>
                      {[ "id" := VNum (Fin 1) ]})])
           (VRef 14%nat) (VRef 15%nat)
           [Item (VNum (Fin 1)) 999 1] 999
           (REMOVE_ITEM (VNum (Fin 1))) (VNum (Fin 1))
           eq_refl eq_refl (or_introl eq_refl)).
Defined.

(** * The todo functions of the component *)

(** ** [trim] on a blank string *)

Lemma trim_start_blank s :
  trim_start s = ""%string ↔ all_white_space s = true.
Proof.
  unfold all_white_space. induction s as [|c s IH]; simpl; [done|].
  destruct (is_white_space c); simpl; [done|]. split; [done|done].
Qed.

Lemma trim_end_blank s :
  trim_end s = ""%string ↔ all_white_space s = true.
Proof.
  unfold all_white_space. induction s as [|c s IH]; simpl; [done|].
  destruct (is_white_space c); simpl.
  - destruct (trim_end s) eqn:E; simpl.
    + split; [intros _; by apply IH|done].
    + split; [done|]. intros H. by apply IH in H.
  - split; [done|done].
Qed.

Lemma trim_start_all_white_space s :
  all_white_space (trim_start s) = all_white_space s.
Proof.
  unfold all_white_space. induction s as [|c s IH]; simpl; [done|].
  destruct (is_white_space c) eqn:E; simpl; [done|]. by rewrite E.
Qed.

Lemma trim_blank s : trim s = ""%string ↔ all_white_space s = true.
Proof.
  unfold trim. by rewrite trim_end_blank, trim_start_all_white_space.
Qed.

Lemma truthy_trim s : truthy (VStr (trim s)) = negb (all_white_space s).
Proof.
  simpl. destruct (all_white_space s) eqn:E.
  - apply trim_blank in E. by rewrite E.
  - destruct (String.eqb_spec (trim s) "") as [H|H]; [|done].
    apply trim_blank in H. congruence.
Qed.

Lemma string_trim_str s h : string_trim (VStr s) h = Ret (VStr (trim s), h).
Proof. done. Qed.

(** ** [getFilteredTodos] *)

Lemma todos_at_Some h v tps :
  todos_at h v = Some tps ↔
  ∃ elems, lookup_arr h v = Some elems ∧ objs h elems = Some tps.
Proof.
  unfold todos_at. destruct (lookup_arr h v) as [elems|]; simpl.
  - split; [by exists elems|]. by intros (? & [= <-] & ?).
  - split; [done|]. by intros (? & ? & ?).
Qed.

Lemma getFilteredTodos_spec h d props tps next :
  lookup_obj h (todoState d) = Some props →
  todo_view h (todoState d) = Some (tps, next) →
  ∃ v h',
    getFilteredTodos d h = Ret (v, h') ∧ h `prefix_of` h' ∧
    todos_at h' v = Some (shown (prop props "filter") tps) ∧
    (prop props "filter" ≠ VStr "active" →
     prop props "filter" ≠ VStr "completed" →
     v = prop props "todos" ∧ h' = h).
Proof.
  intros Hs (props' & elems & Hs' & Harr & Hall & _)%todo_view_Some.
  assert (props' = props) as -> by congruence.
  unfold getFilteredTodos, shown. js_step.
  switch_case "active"%string.
  { js_step. apply objs_above in Hall.
    match goal with |- context [array_filter _ ?cb] =>
      destruct (filter_loop_spec (above h is_obj) cb
                  (λ tp, negb (truthy (prop tp "completed"))))
        with (2 := Hall) as (vs & Hloop & Hvs)
    end.
    { intros h2 v tp [Hh2 Hv]. red in Hv.
      eexists. split; [by repeat js_step|done]. }
    erewrite array_filter_run by eauto.
    eexists _, _. split; [done|]. split_and!; [prefix_tac| |done].
    apply todos_at_Some. eexists. split; [apply lookup_arr_alloc|].
    eapply objs_prefix; [|eapply above_objs, Hvs]. prefix_tac. }
  switch_case "completed"%string.
  { js_step. apply objs_above in Hall.
    match goal with |- context [array_filter _ ?cb] =>
      destruct (filter_loop_spec (above h is_obj) cb
                  (λ tp, truthy (prop tp "completed")))
        with (2 := Hall) as (vs & Hloop & Hvs)
    end.
    { intros h2 v tp [Hh2 Hv]. red in Hv.
      eexists. split; [by apply get_prop_obj|done]. }
    erewrite array_filter_run by eauto.
    eexists _, _. split; [done|]. split_and!; [prefix_tac| |done].
    apply todos_at_Some. eexists. split; [apply lookup_arr_alloc|].
    eapply objs_prefix; [|eapply above_objs, Hvs]. prefix_tac. }
  simpl switch.
  eexists _, _. split; [by apply get_prop_obj|]. split_and!; [done| |done].
  apply todos_at_Some. eauto.
Qed.

(** ** Dispatching to the todo reducer *)

Lemma todoDispatch_view h d a tps n ap :
  todo_view h (todoState d) = Some (tps, VNum n) →
  lookup_obj h a = Some ap →
  ∃ s' h' props props',
    todoDispatch a d h =
      Ret (Demo (counterState d) (formState d) s' (cartState d)
                (todoInput d) (editingTodoId d) (editingText d), h') ∧
    h `prefix_of` h' ∧
    lookup_obj h (todoState d) = Some props ∧
    lookup_obj h' s' = Some props' ∧
    prop props' "filter" = prop (todo_props_after ap n props) "filter" ∧
    todo_view h' s' =
      Some (todo_items_after ap (VNum n) tps,
            prop (todo_props_after ap n props) "nextId").
Proof.
  intros Hview Ha.
  destruct (todoReducer_view h (todoState d) a tps n ap Hview Ha)
    as (s' & h' & props & props' & Hrun & Hh & Hs & Hs' & Hf & Hview').
  exists s', h', props, props'. split_and!; try done.
  unfold todoDispatch. by erewrite bind_Ret by done.
Qed.

Lemma todo_view_nextId h s tps next props :
  todo_view h s = Some (tps, next) → lookup_obj h s = Some props →
  prop props "nextId" = next.
Proof.
  intros (props' & elems & Hs & _ & _ & Hn)%todo_view_Some Hs'. congruence.
Qed.

(** ** Invariants of the runs of the todo list *)

Lemma todo_run_view (P : list (gmap string value) → Z → Prop) :
  P [] 1 →
  (∀ ap tps n, P tps n →
     P (todo_items_after ap (VNum (Fin n)) tps)
       (if decide (prop ap "type" = VStr "ADD_TODO") then n + 1 else n)) →
  ∀ h s, todo_run h s →
    ∃ tps n, todo_view h s = Some (tps, VNum (Fin n)) ∧ P tps n.
Proof.
  intros Hinit Hstep h s.
  induction 1 as [h Hmod|h s h1 a s' h' _ IH Hh Hrun].
  - exists [], 1. split; [by apply todo_view_initial|done].
  - destruct IH as (tps & n & Hview & HP).
    eapply todo_view_prefix in Hview; [|done].
    destruct (lookup_obj h1 a) as [ap|] eqn:Ha.
    + destruct (todoReducer_view h1 s a tps (Fin n) ap)
        as (s'' & h'' & props & props' & Hrun' & _ & Hs & _ & _ & Hview');
        try done.
      assert (s'' = s' ∧ h'' = h') as [-> ->] by (split; congruence).
      rewrite (todo_props_after_nextId ap n props) in Hview'
        by eauto using todo_view_nextId.
      eauto.
    + apply todoReducer_not_object in Hrun as [-> ->]; [|done]. eauto.
Qed.

Lemma todo_steps_view (P : list (gmap string value) → Z → Prop)
    (Q : list (gmap string value) → Z → Prop) :
  (∀ tps n, P tps n → Q tps n) →
  (∀ ap tps n, Q tps n →
     Q (todo_items_after ap (VNum (Fin n)) tps)
       (if decide (prop ap "type" = VStr "ADD_TODO") then n + 1 else n)) →
  ∀ h0 s0 h s tps0 n0,
    todo_view h0 s0 = Some (tps0, VNum (Fin n0)) → P tps0 n0 →
    todo_steps h0 s0 h s →
    ∃ tps n, todo_view h s = Some (tps, VNum (Fin n)) ∧ Q tps n.
Proof.
  intros HPQ Hstep h0 s0 h s tps0 n0 Hview0 HP.
  induction 1 as [h s|h0 s0 h1 s1 h2 a s' h' _ IH Hh Hrun].
  - eauto.
  - destruct (IH Hview0) as (tps & n & Hview & HQ).
    eapply todo_view_prefix in Hview; [|done].
    destruct (lookup_obj h2 a) as [ap|] eqn:Ha.
    + destruct (todoReducer_view h2 s1 a tps (Fin n) ap)
        as (s'' & h'' & props & props' & Hrun' & _ & Hs & _ & _ & Hview');
        try done.
      assert (s'' = s' ∧ h'' = h') as [-> ->] by (split; congruence).
      rewrite (todo_props_after_nextId ap n props) in Hview'
        by eauto using todo_view_nextId.
      eauto.
    + apply todoReducer_not_object in Hrun as [-> ->]; [|done]. eauto.
Qed.

Lemma alloc_run o h : alloc o h = Ret (VRef (length h), h ++ [o]).
Proof. done. Qed.

Lemma todo_view_app h s st o :
  todo_view h s = Some st → todo_view (h ++ [o]) s = Some st.
Proof. apply todo_view_prefix, prefix_app_r. done. Qed.

(** The effect of the actions on the todos, one type at a time. *)
Lemma todo_items_after_type ap next tps c :
  prop ap "type" = VStr c →
  todo_items_after ap next tps =
    if decide (c = "ADD_TODO"%string) then
      tps ++ [todo_literal next (prop ap "text")]
    else if decide (c = "TOGGLE_TODO"%string) then
      (λ tp, if strict_eq (prop tp "id") (prop ap "id")
             then <["completed" := js_not (prop tp "completed")]> tp
             else tp) <$> tps
    else if decide (c = "DELETE_TODO"%string) then
      filter (λ tp, negb (strict_eq (prop tp "id") (prop ap "id"))) tps
    else if decide (c = "EDIT_TODO"%string) then
      (λ tp, if strict_eq (prop tp "id") (prop ap "id")
             then <["text" := prop ap "text"]> tp
             else tp) <$> tps
    else if decide (c = "CLEAR_COMPLETED"%string) then
      filter (λ tp, negb (truthy (prop tp "completed"))) tps
    else tps.
Proof.
  intros Hty. unfold todo_items_after. cbv zeta. rewrite Hty.
  repeat case_decide; by simplify_eq.
Qed.

Lemma todo_props_after_type ap n props c :
  prop ap "type" = VStr c →
  todo_props_after ap n props =
    if decide (c = "ADD_TODO"%string) then
      <["nextId" := VNum (num_add n (Fin 1))]> props
    else if decide (c = "SET_FILTER"%string) then
      <["filter" := prop ap "filter"]> props
    else props.
Proof.
  intros Hty. unfold todo_props_after. cbv zeta. rewrite Hty.
  repeat case_decide; by simplify_eq.
Qed.

(** ** The filter buttons *)

Lemma filterButton_shows h d tps n f :
  todo_view h (todoState d) = Some (tps, VNum n) →
  ∃ s' h' v h'',
    filterButton f d h =
      Ret (Demo (counterState d) (formState d) s' (cartState d)
                (todoInput d) (editingTodoId d) (editingText d), h') ∧
    todo_view h' s' = Some (tps, VNum n) ∧
    getFilteredTodos
      (Demo (counterState d) (formState d) s' (cartState d)
            (todoInput d) (editingTodoId d) (editingText d)) h' =
      Ret (v, h'') ∧
    todos_at h'' v = Some (shown (VStr f) tps).
Proof.
  intros Hview. unfold filterButton.
  set (ap := <["type" := VStr "SET_FILTER"]> {[ "filter" := VStr f ]}).
  destruct (todoDispatch_view (h ++ [Obj ap]) d (VRef (length h)) tps n ap)
    as (s' & h' & props & props' & Hrun & Hh & Hs & Hs' & Hf & Hview').
  { by apply todo_view_app. }
  { apply lookup_obj_alloc. }
  rewrite (todo_items_after_type ap _ _ "SET_FILTER") in Hview' by done.
  rewrite (todo_props_after_type ap _ _ "SET_FILTER") in Hview', Hf by done.
  simpl in Hview', Hf.
  rewrite prop_insert_ne in Hview' by done. rewrite prop_insert_eq in Hf.
  rewrite (todo_view_nextId (h ++ [Obj ap]) (todoState d) tps (VNum n) props)
    in Hview' by (try done; by apply todo_view_app).
  set (d' := Demo _ _ s' _ _ _ _) in *.
  destruct (getFilteredTodos_spec h' d' props' tps (VNum n))
    as (v & h'' & Hget & _ & Hat & _); [done..|].
  rewrite Hf in Hat.
  exists s', h', v, h''. split_and!; try done.
Qed.

Lemma shown_active tps :
  shown (VStr "active") tps =
    filter (λ tp, negb (truthy (prop tp "completed"))) tps.
Proof. unfold shown. by rewrite decide_True. Qed.

Lemma shown_completed tps :
  shown (VStr "completed") tps =
    filter (λ tp, truthy (prop tp "completed")) tps.
Proof. unfold shown. rewrite decide_False by done. by rewrite decide_True. Qed.

Lemma shown_other f tps :
  f ≠ VStr "active" → f ≠ VStr "completed" → shown f tps = tps.
Proof. intros. unfold shown. by rewrite !decide_False. Qed.

Lemma filter_completed_partition (tps : list (gmap string value)) :
  filter (λ tp, negb (truthy (prop tp "completed"))) tps ++
  filter (λ tp, truthy (prop tp "completed")) tps ≡ₚ tps.
Proof.
  etrans; [|apply (filter_app_complement
                     (λ tp, negb (truthy (prop tp "completed"))))].
  apply Permutation_app; [done|].
  rewrite (list_filter_iff (λ tp, truthy (prop tp "completed"))
             (λ tp, ¬ negb (truthy (prop tp "completed")))); [done|].
  intros tp. destruct (truthy _); simpl; naive_solver.
Qed.

(** ** The todos keep a boolean [completed] *)

Lemma Forall_filter_keep {A} (P : A → Prop) (q : A → bool) l :
  Forall P l → Forall P (filter q l).
Proof.
  rewrite !Forall_forall. intros H x [_ Hx]%list_elem_of_filter. auto.
Qed.

Lemma completed_flags_after ap next tps :
  completed_flags tps → completed_flags (todo_items_after ap next tps).
Proof.
  unfold completed_flags, todo_items_after. cbv zeta. intros Hall.
  repeat case_decide.
  - apply Forall_app. split; [done|]. apply Forall_singleton.
    exists false. unfold todo_literal.
    by rewrite !lookup_insert_ne, lookup_singleton_eq by done.
  - apply Forall_fmap. eapply Forall_impl; [done|]. intros tp [b Hb]. simpl.
    destruct (strict_eq _ _); [|by exists b].
    unfold js_not. eexists. by rewrite lookup_insert_eq.
  - by apply Forall_filter_keep.
  - apply Forall_fmap. eapply Forall_impl; [done|]. intros tp [b Hb]. simpl.
    destruct (strict_eq _ _); [|by exists b].
    exists b. by rewrite lookup_insert_ne.
  - by apply Forall_filter_keep.
  - done.
Qed.

Lemma toggle_twice id (tps : list (gmap string value)) :
  completed_flags tps →
  (λ tp, if strict_eq (prop tp "id") id
         then <["completed" := js_not (prop tp "completed")]> tp else tp) <$>
  ((λ tp, if strict_eq (prop tp "id") id
          then <["completed" := js_not (prop tp "completed")]> tp else tp) <$>
   tps) = tps.
Proof.
  intros Hall. rewrite <-list_fmap_compose.
  rewrite <-(list_fmap_id tps) at 2. apply Forall_fmap_ext.
  eapply Forall_impl; [done|]. intros tp [b Hb]. simpl.
  destruct (strict_eq (prop tp "id") id) eqn:E.
  - rewrite prop_insert_ne, E by done. rewrite prop_insert_eq.
    rewrite insert_insert_eq. apply insert_id.
    unfold prop. rewrite Hb. simpl. unfold js_not. simpl.
    by rewrite negb_involutive.
  - by rewrite E.
Qed.

Lemma filter_not_completed_idemp (tps : list (gmap string value)) :
  filter (λ tp, negb (truthy (prop tp "completed")))
    (filter (λ tp, negb (truthy (prop tp "completed"))) tps) =
  filter (λ tp, negb (truthy (prop tp "completed"))) tps.
Proof.
  induction tps as [|tp tps IH]; [done|].
  destruct (truthy (prop tp "completed")) eqn:E.
  - rewrite filter_cons_False by (rewrite E; simpl; naive_solver). done.
  - rewrite filter_cons_True by (rewrite E; simpl; naive_solver).
    rewrite filter_cons_True by (rewrite E; simpl; naive_solver). by rewrite IH.
Qed.

Lemma filter_completed_not_completed (tps : list (gmap string value)) :
  filter (λ tp, truthy (prop tp "completed"))
    (filter (λ tp, negb (truthy (prop tp "completed"))) tps) = [].
Proof.
  induction tps as [|tp tps IH]; [done|].
  destruct (truthy (prop tp "completed")) eqn:E.
  - rewrite filter_cons_False by (rewrite E; simpl; naive_solver). done.
  - rewrite filter_cons_True by (rewrite E; simpl; naive_solver).
    rewrite filter_cons_False by (rewrite E; simpl; naive_solver). done.
Qed.

Lemma Forall_not_completed (tps : list (gmap string value)) :
  Forall (λ tp, truthy (prop tp "completed") = false)
    (filter (λ tp, negb (truthy (prop tp "completed"))) tps).
Proof.
  apply Forall_forall. intros tp [Hp _]%list_elem_of_filter.
  by destruct (truthy _).
Qed.

Lemma milk_added_run : todo_run milk_added (VRef 10%nat).
Proof.
  apply (todo_run_step module_heap todoInitialState
           (module_heap ++
              [Obj (<["type" := VStr "ADD_TODO"]> {[ "text" := VStr "milk" ]})])
           (VRef 7%nat)).
  - by apply todo_run_init.
  - by apply prefix_app_r.
  - vm_compute. reflexivity.
Qed.

Lemma todo_run_completed_flags h s :
  todo_run h s →
  ∃ tps n, todo_view h s = Some (tps, VNum (Fin n)) ∧ completed_flags tps.
Proof.
  apply (todo_run_view (λ tps _, completed_flags tps)).
  - apply Forall_nil_2.
  - intros ap tps n. apply completed_flags_after.
Qed.

(** ** The buttons of a row act on that row

    With ids that are pairwise distinct integers, the test
    [todo.id === action.id] singles out one position of the list. *)

Lemma distinct_ids_test (tps : list (gmap string value)) ids i tpi :
  id_of <$> tps = (λ i, VNum (Fin i)) <$> ids → NoDup ids →
  tps !! i = Some tpi →
  ∀ j tpj, tps !! j = Some tpj →
    strict_eq (prop tpj "id") (prop tpi "id") = bool_decide (j = i).
Proof.
  intros Hids Hnd Hi j tpj Hj.
  assert (Hi' : (id_of <$> tps) !! i = Some (id_of tpi))
    by (by rewrite list_lookup_fmap, Hi).
  assert (Hj' : (id_of <$> tps) !! j = Some (id_of tpj))
    by (by rewrite list_lookup_fmap, Hj).
  rewrite Hids, list_lookup_fmap in Hi', Hj'.
  destruct (ids !! i) as [x|] eqn:Hx; [|done].
  destruct (ids !! j) as [y|] eqn:Hy; [|done].
  simpl in Hi', Hj'. unfold id_of in *.
  injection Hi' as <-. injection Hj' as <-. simpl.
  destruct (decide (j = i)) as [->|Hne].
  - rewrite (bool_decide_eq_true_2 (i = i)) by done.
    apply bool_decide_eq_true_2. congruence.
  - rewrite (bool_decide_eq_false_2 (j = i)) by done.
    apply bool_decide_eq_false_2. intros ->.
    apply Hne. by eapply NoDup_lookup.
Qed.

Lemma fmap_if_alter {A} (p : A → bool) (f : A → A) (l : list A) i :
  (∀ j x, l !! j = Some x → p x = bool_decide (j = i)) →
  (λ x, if p x then f x else x) <$> l = alter f i l.
Proof.
  intros Hp. apply list_eq. intros j. rewrite list_lookup_fmap.
  destruct (decide (j = i)) as [->|Hne].
  - rewrite list_lookup_alter_eq. destruct (l !! i) as [x|] eqn:Hx; [|done].
    simpl. by rewrite (Hp i x Hx), bool_decide_eq_true_2.
  - rewrite list_lookup_alter_ne by done.
    destruct (l !! j) as [x|] eqn:Hx; [|done].
    simpl. by rewrite (Hp j x Hx), bool_decide_eq_false_2.
Qed.

Lemma filter_not_delete {A} (p : A → bool) (l : list A) i :
  (i < length l)%nat →
  (∀ j x, l !! j = Some x → p x = bool_decide (j = i)) →
  filter (λ x, negb (p x)) l = delete i l.
Proof.
  revert i. induction l as [|x l IH]; intros i Hi Hp; [simpl in Hi; lia|].
  destruct i as [|i].
  - rewrite filter_cons_False
      by (rewrite (Hp 0%nat x), bool_decide_eq_true_2 by done; simpl; naive_solver).
    simpl. clear IH Hi.
    assert (Hall : ∀ j y, l !! j = Some y → p y = false).
    { intros j y Hy. by rewrite (Hp (S j) y Hy), bool_decide_eq_false_2. }
    clear Hp. induction l as [|y l IH]; [done|].
    rewrite filter_cons_True by (by rewrite (Hall 0%nat y)).
    f_equal. apply IH. intros j z Hz. by apply (Hall (S j)).
  - rewrite filter_cons_True
      by (by rewrite (Hp 0%nat x), bool_decide_eq_false_2).
    simpl. f_equal. apply IH; [simpl in Hi; lia|].
    intros j y Hy. rewrite (Hp (S j) y Hy).
    apply bool_decide_ext. lia.
Qed.

Lemma row_buttons_aux h0 d h props elems i todo :
  todo_run h0 (todoState d) →
  h0 `prefix_of` h →
  lookup_obj h (todoState d) = Some props →
  lookup_arr h (prop props "todos") = Some elems →
  elems !! i = Some todo →
  ∃ tps n tp,
    todo_view h (todoState d) = Some (tps, VNum (Fin n)) ∧
    tps !! i = Some tp ∧ lookup_obj h todo = Some tp ∧
    (∃ d' h',
       deleteButton todo d h = Ret (d', h') ∧
       todo_view h' (todoState d') = Some (delete i tps, VNum (Fin n))) ∧
    (∃ d' h',
       todoCheckbox todo d h = Ret (d', h') ∧
       todo_view h' (todoState d') =
         Some (alter (λ tp, <["completed" := js_not (prop tp "completed")]> tp)
                     i tps,
               VNum (Fin n))) ∧
    (∀ text,
       editingText d = VStr text → all_white_space text = false →
       ∃ d' h',
         saveButton todo d h = Ret (d', h') ∧
         todo_view h' (todoState d') =
           Some (alter (λ tp, <["text" := VStr text]> tp) i tps,
                 VNum (Fin n)) ∧
         editingTodoId d' = VNull ∧ editingText d' = VStr "").
Proof.
  intros Hrun Hh Hs Harr Hi.
  destruct (todo_run_inv _ _ Hrun) as (tps & ids & n & Hview & Hids & Hnd & _).
  eapply todo_view_prefix in Hview; [|done].
  pose proof Hview as (props' & elems' & Hs' & Harr' & Hall & Hn)%todo_view_Some.
  assert (props' = props) as -> by congruence.
  assert (elems' = elems) as -> by congruence.
  apply objs_Some in Hall.
  destruct (Forall2_lookup_l _ _ _ _ _ Hall Hi) as (tp & Htp & Htodo).
  assert (Hlen : (i < length tps)%nat) by (by eapply lookup_lt_Some).
  pose proof (distinct_ids_test tps ids i tp Hids Hnd Htp) as Htest.
  exists tps, n, tp. split_and!; [done..| | |].
  - unfold deleteButton. js_step.
    set (ap := <["type" := VStr "DELETE_TODO"]> {[ "id" := prop tp "id" ]}).
    destruct (todoDispatch_view (h ++ [Obj ap]) d (VRef (length h))
                tps (Fin n) ap)
      as (s' & h' & props0 & props1 & Hd & _ & Hs0 & _ & _ & Hview').
    { by apply todo_view_app. }
    { apply lookup_obj_alloc. }
    rewrite (todo_items_after_type ap _ _ "DELETE_TODO") in Hview' by done.
    rewrite (todo_props_after_type ap _ _ "DELETE_TODO") in Hview' by done.
    simpl in Hview'.
    rewrite (todo_view_nextId (h ++ [Obj ap]) (todoState d) tps
               (VNum (Fin n)) props0) in Hview'
      by (try done; by apply todo_view_app).
    change (prop ap "id") with (prop tp "id") in Hview'.
    rewrite (filter_not_delete
               (λ x, strict_eq (prop x "id") (prop tp "id")) tps i)
      in Hview' by (first [done|exact Htest]).
    eexists _, h'.
    split; [erewrite bind_Ret by apply alloc_run; apply Hd|done].
  - unfold todoCheckbox. js_step.
    set (ap := <["type" := VStr "TOGGLE_TODO"]> {[ "id" := prop tp "id" ]}).
    destruct (todoDispatch_view (h ++ [Obj ap]) d (VRef (length h))
                tps (Fin n) ap)
      as (s' & h' & props0 & props1 & Hd & _ & Hs0 & _ & _ & Hview').
    { by apply todo_view_app. }
    { apply lookup_obj_alloc. }
    rewrite (todo_items_after_type ap _ _ "TOGGLE_TODO") in Hview' by done.
    rewrite (todo_props_after_type ap _ _ "TOGGLE_TODO") in Hview' by done.
    simpl in Hview'.
    rewrite (todo_view_nextId (h ++ [Obj ap]) (todoState d) tps
               (VNum (Fin n)) props0) in Hview'
      by (try done; by apply todo_view_app).
    change (prop ap "id") with (prop tp "id") in Hview'.
    rewrite (fmap_if_alter
               (λ x, strict_eq (prop x "id") (prop tp "id")) _ tps i)
      in Hview' by (first [done|exact Htest]).
    eexists _, h'.
    split; [erewrite bind_Ret by apply alloc_run; apply Hd|done].
  - intros text Htext Hblank. unfold saveButton, handleSaveEdit. js_step.
    rewrite Htext.
    erewrite bind_Ret by apply string_trim_str. rewrite truthy_trim, Hblank.
    change (negb false) with true. cbv iota.
    set (ap := <["type" := VStr "EDIT_TODO"]> (<["id" := prop tp "id"]>
                 {[ "text" := VStr text ]})).
    destruct (todoDispatch_view (h ++ [Obj ap]) d (VRef (length h))
                tps (Fin n) ap)
      as (s' & h' & props0 & props1 & Hd & _ & Hs0 & _ & _ & Hview').
    { by apply todo_view_app. }
    { apply lookup_obj_alloc. }
    rewrite (todo_items_after_type ap _ _ "EDIT_TODO") in Hview' by done.
    rewrite (todo_props_after_type ap _ _ "EDIT_TODO") in Hview' by done.
    simpl in Hview'.
    rewrite (todo_view_nextId (h ++ [Obj ap]) (todoState d) tps
               (VNum (Fin n)) props0) in Hview'
      by (try done; by apply todo_view_app).
    change (prop ap "id") with (prop tp "id") in Hview'.
    change (prop ap "text") with (VStr text) in Hview'.
    rewrite (fmap_if_alter
               (λ x, strict_eq (prop x "id") (prop tp "id")) _ tps i)
      in Hview' by (first [done|exact Htest]).
    eexists _, h'. split_and!.
    + erewrite bind_Ret
        by (erewrite bind_Ret by apply alloc_run; apply Hd).
      done.
    + done.
    + done.
    + done.
Qed.

(** * The cart demo driven by its buttons *)

Lemma catalogue_price id p p' :
  (id, p) ∈ catalogue → (id, p') ∈ catalogue → p = p'.
Proof.
  unfold catalogue. rewrite !elem_of_cons, !elem_of_nil.
  intros [?|[?|[?|[]]]] [?|[?|[?|[]]]]; by simplify_eq.
Qed.

Lemma catalogue_id id p : (id, p) ∈ catalogue → strict_eq id id = true.
Proof.
  unfold catalogue. rewrite !elem_of_cons, !elem_of_nil.
  intros [?|[?|[?|[]]]]; by simplify_eq.
Qed.

Lemma find_item_elem id items it :
  it ∈ items → has_id id it = true → is_Some (find_item id items).
Proof.
  intros Hin Hid. unfold find_item.
  destruct (filter (has_id id) items) as [|it' l] eqn:E; [|by eexists].
  assert (it ∈ filter (has_id id) items) as Hf
    by (apply list_elem_of_filter; split; [by rewrite Hid|done]).
  rewrite E in Hf. by apply elem_of_nil in Hf.
Qed.

Lemma find_item_Some_elem id items it :
  find_item id items = Some it → it ∈ items ∧ has_id id it = true.
Proof.
  unfold find_item. intros Hh.
  assert (it ∈ filter (has_id id) items) as [Hp Hin]%list_elem_of_filter.
  { destruct (filter (has_id id) items) as [|x l]; simplify_eq/=.
    apply list_elem_of_here. }
  split; [done|]. by destruct (has_id id it).
Qed.

(** The effect of the actions of the buttons on items that are
    [item_ok]. *)
Lemma cart_model_item_ok act items total :
  Forall item_ok items →
  match act with
  | ADD_ITEM id price => (id, price) ∈ catalogue
  | UPDATE_QUANTITY _ q => 1 ≤ q
  | _ => True
  end →
  Forall item_ok (cart_model act (items, total)).1.
Proof.
  intros Hall Hact. destruct act as [id price|id|id q| |]; simpl.
  - destruct (find_item id items) as [it0|]; simpl.
    + apply Forall_fmap. eapply Forall_impl; [done|].
      intros it [Hq Hc]. simpl. destruct (has_id id it); [|done].
      split; simpl; [lia|done].
    + apply Forall_app. split; [done|]. apply Forall_singleton.
      split; simpl; [lia|done].
  - destruct (find_item id items) as [it0|]; simpl; [|done].
    by apply Forall_filter_keep.
  - destruct (find_item id items) as [it0|]; simpl; [|done].
    apply Forall_fmap. eapply Forall_impl; [done|].
    intros it [Hq Hc]. simpl. destruct (has_id id it); [|done].
    split; simpl; [lia|done].
  - done.
  - done.
Qed.

Lemma cart_pre_catalogue id price items :
  Forall item_ok items → (id, price) ∈ catalogue →
  cart_pre (ADD_ITEM id price) items.
Proof.
  intros Hall Hc it [Hin Hid]%find_item_Some_elem.
  rewrite Forall_forall in Hall. destruct (Hall it Hin) as [_ Hc'].
  apply has_id_eq in Hid. subst id. by eapply catalogue_price.
Qed.

(** A dispatch of the component to the cart reducer, on an action that a
    button builds. *)
Lemma cartDispatch_inv h d a act :
  cart_inv h d →
  read_cart_action h a = Some act →
  (∀ items, cart_view h (cartState d) = Some (items, cart_sum items) →
     Forall item_ok items →
     cart_present act items ∧
     match act with
     | ADD_ITEM id price => (id, price) ∈ catalogue
     | UPDATE_QUANTITY _ q => 1 ≤ q
     | _ => True
     end) →
  ∃ d' h', cartDispatch a d h = Ret (d', h') ∧ h `prefix_of` h' ∧
           cart_inv h' d'.
Proof.
  intros (Hmod & items & Hview & Hd & Hok) Hact Hcond.
  destruct (Hcond items Hview Hok) as [Hpres Hact'].
  destruct (cartReducer_spec h (cartState d) a items (cart_sum items) act)
    as (s' & h' & Hrun & Hh & Hview'); try done.
  eexists _, h'. split_and!.
  - unfold cartDispatch. by erewrite bind_Ret by done.
  - done.
  - split; [by etrans|]. simpl.
    assert (Hpre : cart_pre act items).
    { destruct act; try done. by apply cart_pre_catalogue. }
    destruct (cart_model_ok act items Hpre Hd) as [Hsum Hd'].
    pose proof (cart_model_item_ok act items (cart_sum items) Hok Hact')
      as Hok'.
    destruct (cart_model act (items, cart_sum items)) as [items' total'].
    simpl in *. subst total'. eauto.
Qed.

Lemma cart_inv_prefix h h' d : h `prefix_of` h' → cart_inv h d → cart_inv h' d.
Proof.
  intros Hh (Hmod & items & Hview & Hd & Hok). split; [by etrans|].
  exists items. split_and!; [|done..]. by eapply cart_view_prefix.
Qed.

Lemma is_product_prefix h h' p :
  h `prefix_of` h' → is_product h p → is_product h' p.
Proof.
  intros Hh (ip & price & Hp & ? & ?). exists ip, price.
  split_and!; [|done..]. by eapply lookup_obj_prefix.
Qed.

(** The items that the rows of the cart are rendered from. *)
Lemma cart_inv_item h d props ielems v :
  cart_inv h d →
  lookup_obj h (cartState d) = Some props →
  lookup_arr h (prop props "items") = Some ielems →
  v ∈ ielems →
  ∃ it ip,
    lookup_obj h v = Some ip ∧
    prop ip "id" = item_id it ∧
    prop ip "quantity" = VNum (Fin (item_quantity it)) ∧
    item_ok it ∧
    ∀ h' items total,
      h `prefix_of` h' →
      cart_view h' (cartState d) = Some (items, total) →
      is_Some (find_item (item_id it) items).
Proof.
  intros (_ & items & Hview & _ & Hok) Hs Harr Hv.
  pose proof Hview as (props' & elems & Hs' & Harr' & Hitems & _)%cart_view_Some.
  assert (props' = props) as -> by congruence.
  assert (elems = ielems) as -> by congruence.
  apply mapM_Some in Hitems.
  apply list_elem_of_lookup in Hv as [i Hi].
  destruct (Forall2_lookup_l _ _ _ _ _ Hitems Hi) as (it & Hit & Hat).
  apply is_item_inv in Hat as (ip & Hip & _ & Hid & _ & Hq).
  assert (Hin : it ∈ items) by (by eapply list_elem_of_lookup_2).
  rewrite Forall_forall in Hok. pose proof (Hok it Hin) as Hitok.
  exists it, ip. split_and!; try done.
  intros h' items' total' Hh' Hview'.
  eapply cart_view_prefix in Hview; [|done].
  assert (items' = items) as -> by congruence.
  apply (find_item_elem _ _ it); [done|].
  unfold has_id. destruct Hitok as [_ Hc]. by eapply catalogue_id.
Qed.

Lemma read_cart_action_alloc h ap :
  read_cart_action (h ++ [Obj ap]) (VRef (length h)) =
    let ty := prop ap "type" in
    if decide (ty = VStr "ADD_ITEM") then
      ip ← lookup_obj (h ++ [Obj ap]) (prop ap "item");
      match prop ip "price" with
      | VNum (Fin p) => Some (ADD_ITEM (prop ip "id") p)
      | _ => None
      end
    else if decide (ty = VStr "REMOVE_ITEM") then
      Some (REMOVE_ITEM (prop ap "id"))
    else if decide (ty = VStr "UPDATE_QUANTITY") then
      match prop ap "quantity" with
      | VNum (Fin q) => Some (UPDATE_QUANTITY (prop ap "id") q)
      | _ => None
      end
    else if decide (ty = VStr "CLEAR_CART") then Some CLEAR_CART
    else Some OTHER.
Proof. unfold read_cart_action. by rewrite lookup_obj_alloc. Qed.

(** ** The buttons, one by one *)

Lemma addToCartButton_inv h d p :
  cart_inv h d → is_product h p →
  ∃ d' h', addToCartButton p d h = Ret (d', h') ∧ h `prefix_of` h' ∧
           cart_inv h' d'.
Proof.
  intros Hinv (ip & price & Hp & Hprice & Hc). unfold addToCartButton.
  set (ap := <["type" := VStr "ADD_ITEM"]> {[ "item" := p ]}).
  destruct (cartDispatch_inv (h ++ [Obj ap]) d (VRef (length h))
              (ADD_ITEM (prop ip "id") price))
    as (d' & h' & Hrun & Hh & Hinv').
  { eapply cart_inv_prefix; [|done]. by apply prefix_app_r. }
  { rewrite read_cart_action_alloc. cbv zeta.
    rewrite decide_True by done.
    change (prop ap "item") with p.
    erewrite lookup_obj_prefix; [|by apply prefix_app_r|done]. simpl.
    by rewrite Hprice. }
  { done. }
  exists d', h'. split_and!; [|by etrans; [apply prefix_app_r|]|done].
  by erewrite bind_Ret by apply alloc_run.
Qed.

Lemma js_gt_num a b h :
  js_gt (VNum a) (VNum b) h = Ret (VBool (num_lt b a), h).
Proof. done. Qed.

Lemma minusButton_inv h d props ielems v :
  cart_inv h d →
  lookup_obj h (cartState d) = Some props →
  lookup_arr h (prop props "items") = Some ielems →
  v ∈ ielems →
  ∃ d' h', minusButton v d h = Ret (d', h') ∧ h `prefix_of` h' ∧
           cart_inv h' d'.
Proof.
  intros Hinv Hs Harr Hv.
  destruct (cart_inv_item h d props ielems v Hinv Hs Harr Hv)
    as (it & ip & Hip & Hid & Hq & [Hq1 Hc] & Hfind).
  unfold minusButton. js_step. rewrite Hq.
  erewrite bind_Ret by apply js_gt_num.
  unfold num_lt, truthy.
  case_bool_decide as Hgt; cbv iota; [|by exists d, h].
  repeat js_step. rewrite Hq, Hid.
  erewrite bind_Ret by apply js_sub_num. simpl num_sub.
  set (ap := <["type" := VStr "UPDATE_QUANTITY"]> (<["id" := item_id it]>
               {[ "quantity" := VNum (Fin (item_quantity it - 1)) ]})).
  destruct (cartDispatch_inv (h ++ [Obj ap]) d (VRef (length h))
              (UPDATE_QUANTITY (item_id it) (item_quantity it - 1)))
    as (d' & h' & Hrun & Hh & Hinv').
  { eapply cart_inv_prefix; [|done]. by apply prefix_app_r. }
  { rewrite read_cart_action_alloc. cbv zeta.
    rewrite decide_False by done. rewrite decide_False by done.
    by rewrite decide_True by done. }
  { intros items Hview _. split; [|lia]. simpl.
    eapply Hfind; [|done]. by apply prefix_app_r. }
  exists d', h'. split_and!; [|by etrans; [apply prefix_app_r|]|done].
  by erewrite bind_Ret by apply alloc_run.
Qed.

Lemma plusButton_inv h d props ielems v :
  cart_inv h d →
  lookup_obj h (cartState d) = Some props →
  lookup_arr h (prop props "items") = Some ielems →
  v ∈ ielems →
  ∃ d' h', plusButton v d h = Ret (d', h') ∧ h `prefix_of` h' ∧
           cart_inv h' d'.
Proof.
  intros Hinv Hs Harr Hv.
  destruct (cart_inv_item h d props ielems v Hinv Hs Harr Hv)
    as (it & ip & Hip & Hid & Hq & [Hq1 Hc] & Hfind).
  unfold plusButton. repeat js_step. rewrite Hq, Hid.
  erewrite bind_Ret by apply js_add_num. simpl num_add.
  set (ap := <["type" := VStr "UPDATE_QUANTITY"]> (<["id" := item_id it]>
               {[ "quantity" := VNum (Fin (item_quantity it + 1)) ]})).
  destruct (cartDispatch_inv (h ++ [Obj ap]) d (VRef (length h))
              (UPDATE_QUANTITY (item_id it) (item_quantity it + 1)))
    as (d' & h' & Hrun & Hh & Hinv').
  { eapply cart_inv_prefix; [|done]. by apply prefix_app_r. }
  { rewrite read_cart_action_alloc. cbv zeta.
    rewrite decide_False by done. rewrite decide_False by done.
    by rewrite decide_True by done. }
  { intros items Hview _. split; [|lia]. simpl.
    eapply Hfind; [|done]. by apply prefix_app_r. }
  exists d', h'. split_and!; [|by etrans; [apply prefix_app_r|]|done].
  by erewrite bind_Ret by apply alloc_run.
Qed.

Lemma removeButton_inv h d props ielems v :
  cart_inv h d →
  lookup_obj h (cartState d) = Some props →
  lookup_arr h (prop props "items") = Some ielems →
  v ∈ ielems →
  ∃ d' h', removeButton v d h = Ret (d', h') ∧ h `prefix_of` h' ∧
           cart_inv h' d'.
Proof.
  intros Hinv Hs Harr Hv.
  destruct (cart_inv_item h d props ielems v Hinv Hs Harr Hv)
    as (it & ip & Hip & Hid & Hq & [Hq1 Hc] & Hfind).
  unfold removeButton. repeat js_step. rewrite Hid.
  set (ap := <["type" := VStr "REMOVE_ITEM"]> {[ "id" := item_id it ]}).
  destruct (cartDispatch_inv (h ++ [Obj ap]) d (VRef (length h))
              (REMOVE_ITEM (item_id it)))
    as (d' & h' & Hrun & Hh & Hinv').
  { eapply cart_inv_prefix; [|done]. by apply prefix_app_r. }
  { rewrite read_cart_action_alloc. cbv zeta.
    rewrite decide_False by done. by rewrite decide_True by done. }
  { intros items Hview _. split; [|done]. simpl.
    eapply Hfind; [|done]. by apply prefix_app_r. }
  exists d', h'. split_and!; [|by etrans; [apply prefix_app_r|]|done].
  done.
Qed.

Lemma clearCartButton_inv h d :
  cart_inv h d →
  ∃ d' h', clearCartButton d h = Ret (d', h') ∧ h `prefix_of` h' ∧
           cart_inv h' d'.
Proof.
  intros Hinv. unfold clearCartButton.
  set (ap := {[ "type" := VStr "CLEAR_CART" ]} : gmap string value).
  destruct (cartDispatch_inv (h ++ [Obj ap]) d (VRef (length h)) CLEAR_CART)
    as (d' & h' & Hrun & Hh & Hinv').
  { eapply cart_inv_prefix; [|done]. by apply prefix_app_r. }
  { rewrite read_cart_action_alloc. cbv zeta.
    rewrite !decide_False by done. by rewrite decide_True by done. }
  { done. }
  exists d', h'. split_and!; [|by etrans; [apply prefix_app_r|]|done].
  by erewrite bind_Ret by apply alloc_run.
Qed.

(** ** What a render puts on the page *)

Lemma products_run h :
  products h =
    Ret (VRef (length h + 3)%nat,
         h ++ [product 1 "Laptop" 999; product 2 "Mouse" 29;
               product 3 "Keyboard" 79;
               Arr [VRef (length h); VRef (length h + 1)%nat;
                    VRef (length h + 2)%nat]]).
Proof.
  unfold products. unfold mbind, js_bind, alloc. simpl.
  rewrite !length_app. simpl.
  rewrite <-!(assoc_L (++)). simpl.
  by replace (length h + 1 + 1)%nat with (length h + 2)%nat by lia;
     replace (length h + 2 + 1)%nat with (length h + 3)%nat by lia.
Qed.

Lemma get_length_arr h v elems :
  lookup_arr h v = Some elems →
  get_length v h = Ret (VNum (Fin (Z.of_nat (length elems))), h).
Proof.
  intros (l & -> & Hl)%lookup_arr_Some. unfold get_length.
  unfold mbind, js_bind, deref. by rewrite Hl.
Qed.

Lemma lookup_products h k o :
  [product 1 "Laptop" 999; product 2 "Mouse" 29; product 3 "Keyboard" 79;
   Arr [VRef (length h); VRef (length h + 1)%nat; VRef (length h + 2)%nat]]
    !! k = Some o →
  (h ++ [product 1 "Laptop" 999; product 2 "Mouse" 29;
         product 3 "Keyboard" 79;
         Arr [VRef (length h); VRef (length h + 1)%nat;
              VRef (length h + 2)%nat]]) !! (length h + k)%nat = Some o.
Proof. intros Hk. by rewrite lookup_app_r, Nat.add_sub' by lia. Qed.

Lemma cart_buttons_spec h d :
  cart_inv h d →
  ∃ bs h' props ielems,
    cart_buttons d h = Ret (bs, h') ∧ h `prefix_of` h' ∧
    lookup_obj h' (cartState d) = Some props ∧
    lookup_arr h' (prop props "items") = Some ielems ∧
    ∀ b, b ∈ bs →
      (∃ p, b = addToCartButton p ∧ is_product h' p) ∨
      (∃ v, v ∈ ielems ∧
            (b = minusButton v ∨ b = plusButton v ∨ b = removeButton v)) ∨
      b = clearCartButton.
Proof.
  intros (Hmod & items & Hview & _).
  apply cart_view_Some in Hview as (props & ielems & Hs & Harr & _ & _).
  set (h' := h ++ [product 1 "Laptop" 999; product 2 "Mouse" 29;
                   product 3 "Keyboard" 79;
                   Arr [VRef (length h); VRef (length h + 1)%nat;
                        VRef (length h + 2)%nat]]).
  assert (Hh : h `prefix_of` h') by (by apply prefix_app_r).
  assert (Hs' : lookup_obj h' (cartState d) = Some props)
    by (by eapply lookup_obj_prefix).
  assert (Harr' : lookup_arr h' (prop props "items") = Some ielems)
    by (by eapply lookup_arr_prefix).
  assert (Hps : lookup_arr h' (VRef (length h + 3)%nat) =
                Some [VRef (length h); VRef (length h + 1)%nat;
                      VRef (length h + 2)%nat]).
  { unfold lookup_arr, h'. by rewrite (lookup_products h 3 _ eq_refl). }
  assert (Hprod : ∀ p, p ∈ [VRef (length h); VRef (length h + 1)%nat;
                            VRef (length h + 2)%nat] → is_product h' p).
  { intros p. rewrite !elem_of_cons, elem_of_nil.
    intros [->|[->|[->|[]]]].
    - exists (<["id" := VNum (Fin 1)]> (<["name" := VStr "Laptop"]>
                {[ "price" := VNum (Fin 999) ]})), 999.
      split_and!; [|done|unfold catalogue; rewrite !elem_of_cons; auto].
      unfold lookup_obj, h'. by rewrite lookup_app_r, Nat.sub_diag by lia.
    - exists (<["id" := VNum (Fin 2)]> (<["name" := VStr "Mouse"]>
                {[ "price" := VNum (Fin 29) ]})), 29.
      split_and!; [|done|unfold catalogue; rewrite !elem_of_cons; auto].
      unfold lookup_obj, h'. by rewrite (lookup_products h 1 _ eq_refl).
    - exists (<["id" := VNum (Fin 3)]> (<["name" := VStr "Keyboard"]>
                {[ "price" := VNum (Fin 79) ]})), 79.
      split_and!; [|done|unfold catalogue; rewrite !elem_of_cons; auto].
      unfold lookup_obj, h'. by rewrite (lookup_products h 2 _ eq_refl). }
  assert (Hadd : ∀ b, b ∈ addToCartButton <$>
                        [VRef (length h); VRef (length h + 1)%nat;
                         VRef (length h + 2)%nat] →
                  ∃ p, b = addToCartButton p ∧ is_product h' p).
  { intros b (p & -> & Hp)%list_elem_of_fmap. eauto. }
  unfold cart_buttons.
  erewrite bind_Ret by apply products_run. fold h'.
  repeat js_step.
  erewrite bind_Ret by (by apply get_length_arr).
  destruct (strict_eq _ _).
  - eexists _, h', props, ielems. split_and!; try done. auto.
  - repeat js_step.
    eexists _, h', props, ielems. split_and!; try done.
    intros b. rewrite !elem_of_app, list_elem_of_singleton.
    intros [Hb|[Hb|Hb]]; [auto| |auto].
    right. left. apply list_elem_of_bind in Hb as (v & Hb & Hv).
    exists v. split; [done|].
    revert Hb. rewrite !elem_of_cons, elem_of_nil. tauto.
Qed.

Lemma cart_buttons_click h d :
  cart_inv h d →
  ∃ bs h',
    cart_buttons d h = Ret (bs, h') ∧ h `prefix_of` h' ∧
    ∀ b, b ∈ bs →
      ∃ d' h'', b d h' = Ret (d', h'') ∧ h' `prefix_of` h'' ∧
                cart_inv h'' d'.
Proof.
  intros Hinv.
  destruct (cart_buttons_spec h d Hinv)
    as (bs & h' & props & ielems & Hrun & Hh & Hs & Harr & Hbs).
  exists bs, h'. split_and!; [done..|].
  assert (Hinv' : cart_inv h' d) by (by eapply cart_inv_prefix).
  intros b [(p & -> & Hp)|[(v & Hv & [->|[->| ->]])| ->]]%Hbs.
  - by apply addToCartButton_inv.
  - by eapply minusButton_inv.
  - by eapply plusButton_inv.
  - by eapply removeButton_inv.
  - by apply clearCartButton_inv.
Qed.

Lemma cart_ui_inv h d : cart_ui h d → cart_inv h d.
Proof.
  induction 1 as [h Hmod|h d h0 bs h1 b d' h' _ IH Hh Hbs Hb Hrun].
  - split; [done|]. exists []. split_and!; [|done..].
    by apply cart_view_initial.
  - eapply cart_inv_prefix in IH; [|done].
    destruct (cart_buttons_click h0 d IH) as (bs' & h1' & Hbs' & _ & Hall).
    assert (bs' = bs ∧ h1' = h1) as [-> ->] by (split; congruence).
    destruct (Hall b Hb) as (d'' & h'' & Hrun' & _ & Hinv).
    assert (d'' = d' ∧ h'' = h') as [-> ->] by (split; congruence).
    done.
Qed.

Lemma distinct_ids_NoDup items :
  Forall item_ok items → distinct_ids items → NoDup (item_id <$> items).
Proof.
  induction items as [|it items IH]; intros Hok Hd; [apply NoDup_nil_2|].
  apply Forall_cons in Hok as [[_ Hc] Hok]. destruct Hd as [Hne Hd].
  rewrite fmap_cons. apply NoDup_cons_2; [|by apply IH].
  intros (it' & Hid & Hin)%list_elem_of_fmap.
  rewrite Forall_forall in Hne. specialize (Hne it' Hin).
  unfold has_id in Hne. rewrite <-Hid in Hne.
  by rewrite (catalogue_id _ _ Hc) in Hne.
Qed.

Lemma cart_rows_bound items :
  Forall item_ok items → distinct_ids items → (length items ≤ 3)%nat.
Proof.
  intros Hok Hd. rewrite <-(length_fmap item_id).
  change 3%nat with (length (catalogue.*1)).
  apply submseteq_length, NoDup_submseteq; [by apply distinct_ids_NoDup|].
  intros id (it & -> & Hin)%list_elem_of_fmap.
  rewrite Forall_forall in Hok. destruct (Hok it Hin) as [_ Hc].
  apply list_elem_of_fmap. by exists (item_id it, item_price it).
Qed.

Lemma laptop_demo_ui : cart_ui laptop_in_cart laptop_demo.
Proof.
  apply (cart_ui_click module_heap UseReducerDemo module_heap
           (addToCartButton <$> [VRef 7%nat; VRef 8%nat; VRef 9%nat])
           products_heap (addToCartButton (VRef 7%nat))).
  - by apply cart_ui_init.
  - done.
  - reflexivity.
  - apply list_elem_of_here.
  - vm_compute. reflexivity.
Qed.

(** ** "+" then "-" on a row *)





(** * The counter demo driven by its buttons *)

Lemma counterDispatch_run h d a props ap c :
  lookup_obj h (counterState d) = Some props →
  prop props "count" = VNum c →
  lookup_obj h a = Some ap →
  prop ap "type" ∈ VStr <$> counter_types →
  (prop ap "type" = VStr "INCREMENT_BY" → is_number (prop ap "payload") = true) →
  ∃ c',
    counterDispatch a d h =
      Ret (Demo (VRef (length h)) (formState d) (todoState d) (cartState d)
                (todoInput d) (editingTodoId d) (editingText d),
           h ++ [Obj {[ "count" := VNum c' ]}]) ∧
    c' = if decide (prop ap "type" = VStr "INCREMENT") then num_add c (Fin 1)
         else if decide (prop ap "type" = VStr "DECREMENT")
              then num_sub c (Fin 1)
         else if decide (prop ap "type" = VStr "RESET") then Fin 0
         else match prop ap "payload" with
              | VNum p => num_add c p
              | _ => NaN
              end.
Proof.
  intros Hs Hc Ha Hty Hp.
  destruct (counterReducer_spec h (counterState d) a props ap c)
    as (c' & Hrun & Hc'); try done.
  exists c'. split; [|done].
  unfold counterDispatch. by erewrite bind_Ret by done.
Qed.

Lemma displayed_count_Some h d n :
  displayed_count h d = Some (VNum (Fin n)) ↔
  ∃ props, lookup_obj h (counterState d) = Some props ∧
           prop props "count" = VNum (Fin n).
Proof.
  unfold displayed_count. destruct (lookup_obj h (counterState d)); simpl.
  - split; [intros [=]; eauto|]. by intros (? & [= <-] & ->).
  - split; [done|]. by intros (? & ? & ?).
Qed.

Ltac counter_button c :=
  match goal with
  | Hs : lookup_obj ?h (counterState ?d) = Some ?props,
    Hc : prop ?props "count" = VNum (Fin ?n) |- context [alloc (Obj ?ap)] =>
      let c' := fresh "c" in
      let Hrun := fresh "Hrun" in
      let Hc' := fresh "Hc" in
      destruct (counterDispatch_run (h ++ [Obj ap]) d (VRef (length h))
                  props ap (Fin n))
        as (c' & Hrun & Hc');
        [ by eapply lookup_obj_prefix; [apply prefix_app_r|]
        | done
        | apply lookup_obj_alloc
        | apply elem_of_types; exists c; split; [done|];
          unfold counter_types; rewrite !elem_of_cons; auto
        | done
        | eexists _, _; split_and!;
          [ erewrite bind_Ret by apply alloc_run; apply Hrun
          | by apply prefix_app_r, prefix_app_r
          | apply displayed_count_Some; eexists; split;
            [apply lookup_obj_alloc|rewrite prop_singleton, Hc'; done] ] ]
  end.

Lemma counter_buttons_run h d n :
  displayed_count h d = Some (VNum (Fin n)) →
  (∃ d' h', incrementButton d h = Ret (d', h') ∧ h `prefix_of` h' ∧
            displayed_count h' d' = Some (VNum (Fin (n + 1)))) ∧
  (∃ d' h', decrementButton d h = Ret (d', h') ∧ h `prefix_of` h' ∧
            displayed_count h' d' = Some (VNum (Fin (n - 1)))) ∧
  (∃ d' h', plusFiveButton d h = Ret (d', h') ∧ h `prefix_of` h' ∧
            displayed_count h' d' = Some (VNum (Fin (n + 5)))) ∧
  (∃ d' h', resetButton d h = Ret (d', h') ∧ h `prefix_of` h' ∧
            displayed_count h' d' = Some (VNum (Fin 0))).
Proof.
  intros (props & Hs & Hc)%displayed_count_Some. split_and!.
  - unfold incrementButton. counter_button "INCREMENT"%string.
  - unfold decrementButton. counter_button "DECREMENT"%string.
  - unfold plusFiveButton. counter_button "INCREMENT_BY"%string.
  - unfold resetButton. counter_button "RESET"%string.
Qed.

Lemma displayed_count_prefix h h' d c :
  h `prefix_of` h' → displayed_count h d = Some c →
  displayed_count h' d = Some c.
Proof.
  unfold displayed_count. intros Hh.
  destruct (lookup_obj h (counterState d)) as [props|] eqn:Hs; [|done].
  by rewrite (lookup_obj_prefix h h' _ props).
Qed.

Lemma counter_ui_inv h d :
  counter_ui h d → ∃ n, displayed_count h d = Some (VNum (Fin n)).
Proof.
  induction 1 as [h Hmod|h d h0 b d' h' _ [n IH] Hh Hb Hrun].
  - exists 0. eapply displayed_count_prefix; [done|]. done.
  - eapply displayed_count_prefix in IH; [|done].
    destruct (counter_buttons_run h0 d n IH)
      as ((d1 & h1 & Hr1 & _ & Hc1) & (d2 & h2 & Hr2 & _ & Hc2) &
          (d3 & h3 & Hr3 & _ & Hc3) & (d4 & h4 & Hr4 & _ & Hc4)).
    unfold counter_buttons in Hb.
    rewrite !elem_of_cons, elem_of_nil in Hb.
    destruct Hb as [->|[->|[->|[->|[]]]]].
    + rewrite Hr1 in Hrun. injection Hrun as <- <-. eauto.
    + rewrite Hr2 in Hrun. injection Hrun as <- <-. eauto.
    + rewrite Hr3 in Hrun. injection Hrun as <- <-. eauto.
    + rewrite Hr4 in Hrun. injection Hrun as <- <-. eauto.
Qed.

(** * Regular expressions: the matcher and the strings it accepts *)

Lemma nullable_lang r : nullable r = true ↔ lang r [].
Proof.
  split.
  - induction r; simpl; try done; intros H.
    + constructor.
    + apply andb_true_iff in H as [H1 H2].
      apply (lang_seq _ _ [] []); auto.
    + apply orb_true_iff in H as [H|H];
        [apply lang_alt_l|apply lang_alt_r]; auto.
    + constructor.
  - remember [] as s0 eqn:Hs. induction 1; simpl; try done.
    + apply app_eq_nil in Hs as [-> ->]. rewrite IHlang1, IHlang2; done.
    + rewrite IHlang; done.
    + rewrite IHlang; [|done]. by rewrite orb_true_r.
Qed.

Lemma deriv_lang c r s : lang (deriv c r) s ↔ lang r (c :: s).
Proof.
  split.
  - revert s. induction r; simpl; intros s H; try by inversion H.
    + destruct (Ascii.eqb_spec c c0) as [->|]; inversion H. constructor.
    + destruct (is_white_space c) eqn:E; inversion H. by constructor.
    + inversion H. constructor.
    + destruct (nullable r1) eqn:E.
      * inversion H as [| | | | |? ? ? H1|? ? ? H1| |]; subst.
        -- inversion H1; subst.
           apply (lang_seq _ _ (c :: _)); auto.
        -- apply (lang_seq _ _ []); [by apply nullable_lang|auto].
      * inversion H; subst. apply (lang_seq _ _ (c :: _)); auto.
    + inversion H; subst; [apply lang_alt_l|apply lang_alt_r]; auto.
    + inversion H; subst. apply (lang_star_cons _ (c :: _)); auto.
  - remember (c :: s) as cs eqn:Hcs. intros H. revert s Hcs.
    induction H; intros t Hcs; simpl; try done.
    + injection Hcs as -> <-. rewrite Ascii.eqb_refl. constructor.
    + injection Hcs as -> <-. rewrite H. constructor.
    + injection Hcs as -> <-. constructor.
    + destruct s1 as [|c1 s1]; simpl in Hcs.
      * subst s2. assert (nullable r1 = true) as -> by (by apply nullable_lang).
        apply lang_alt_r. auto.
      * injection Hcs as -> <-.
        assert (lang (RSeq (deriv c r1) r2) (s1 ++ s2))
          by (constructor; auto).
        destruct (nullable r1); [by apply lang_alt_l|done].
    + apply lang_alt_l. auto.
    + apply lang_alt_r. auto.
    + destruct s1 as [|c1 s1]; simpl in Hcs.
      * auto.
      * injection Hcs as -> <-. constructor; auto.
Qed.

Lemma matches_lang r s : matches r s = true ↔ lang r s.
Proof.
  revert r. induction s as [|c s IH]; intros r; simpl.
  - apply nullable_lang.
  - rewrite IH. apply deriv_lang.
Qed.

Lemma lang_star_any s : lang (RStar RAny) s.
Proof.
  induction s as [|c s IH]; [constructor|].
  apply (lang_star_cons _ [c]); [constructor|done].
Qed.

Lemma lang_star_nonspace s :
  lang (RStar RNonSpace) s ↔ Forall (λ c, is_white_space c = false) s.
Proof.
  split.
  - remember (RStar RNonSpace) as r eqn:Hr. induction 1; try done.
    injection Hr as ->. apply Forall_app. split; [|auto].
    inversion H; subst. by apply Forall_singleton.
  - induction 1 as [|c s Hc _ IH]; [constructor|].
    apply (lang_star_cons _ [c]); [by constructor|done].
Qed.

Lemma lang_plus_nonspace s : lang (RPlus RNonSpace) s ↔ non_space s.
Proof.
  unfold RPlus, non_space. split.
  - inversion 1 as [| | | |? ? s1 s2 H1 H2| | | |]; subst.
    inversion H1; subst. split; [done|].
    apply Forall_cons. split; [done|]. by apply lang_star_nonspace.
  - intros [Hne Hall]. destruct s as [|c s]; [done|].
    apply Forall_cons in Hall as [Hc Hall].
    apply (lang_seq _ _ [c]); [by constructor|by apply lang_star_nonspace].
Qed.

Lemma lang_seq_inv r1 r2 s :
  lang (RSeq r1 r2) s ↔ ∃ s1 s2, s = s1 ++ s2 ∧ lang r1 s1 ∧ lang r2 s2.
Proof.
  split.
  - inversion 1; subst. eauto.
  - intros (s1 & s2 & -> & ? & ?). by constructor.
Qed.

Lemma lang_char_inv c s : lang (RChar c) s ↔ s = [c].
Proof. split; [by inversion 1|intros ->; constructor]. Qed.

Lemma email_regex_lang s :
  lang email_regex s ↔
  ∃ a b c,
    s = a ++ [char "@"] ++ b ++ [char "."] ++ c ∧
    non_space a ∧ non_space b ∧ non_space c.
Proof.
  unfold email_regex. rewrite lang_seq_inv. split.
  - intros (a & s1 & -> & Ha%lang_plus_nonspace &
            (x & s2 & -> & ->%lang_char_inv &
             (b & s3 & -> & Hb%lang_plus_nonspace &
              (y & c & -> & ->%lang_char_inv &
               Hc%lang_plus_nonspace)%lang_seq_inv)%lang_seq_inv)%lang_seq_inv).
    by exists a, b, c.
  - intros (a & b & c & -> & Ha & Hb & Hc).
    exists a, ([char "@"] ++ b ++ [char "."] ++ c).
    split_and!; [done|by apply lang_plus_nonspace|].
    apply lang_seq_inv. eexists _, _. split_and!; [done|constructor|].
    apply lang_seq_inv. eexists _, _.
    split_and!; [done|by apply lang_plus_nonspace|].
    apply lang_seq_inv. eexists _, _.
    split_and!; [done|constructor|by apply lang_plus_nonspace].
Qed.

Lemma re_test_lang r s :
  re_test r s = true ↔
  ∃ pre m post,
    String.list_ascii_of_string s = pre ++ m ++ post ∧ lang r m.
Proof.
  unfold re_test. rewrite matches_lang, lang_seq_inv. split.
  - intros (pre & s1 & Hs & _ & (m & post & -> & Hm & _)%lang_seq_inv).
    by exists pre, m, post.
  - intros (pre & m & post & Hs & Hm). exists pre, (m ++ post).
    split_and!; [done|apply lang_star_any|].
    constructor; [done|apply lang_star_any].
Qed.

(** ** The form *)

Lemma set_prop_last h m k x :
  set_prop (VRef (length h)) k x (h ++ [Obj m]) =
    Ret (tt, h ++ [Obj (<[k := x]> m)]).
Proof.
  unfold set_prop. rewrite lookup_app_r, Nat.sub_diag by lia. simpl.
  f_equal. f_equal.
  rewrite <-(Nat.add_0_r (length h)) at 1.
  by rewrite insert_app_r.
Qed.

Lemma lookup_obj_app h v props o :
  lookup_obj h v = Some props → lookup_obj (h ++ [o]) v = Some props.
Proof. intros H. eapply lookup_obj_prefix; [|done]. by apply prefix_app_r. Qed.

Lemma get_length_str s h :
  get_length (VStr s) h = Ret (VNum (Fin (Z.of_nat (String.length s))), h).
Proof. done. Qed.

Lemma js_lt_num a b h :
  js_lt (VNum a) (VNum b) h = Ret (VBool (num_lt a b), h).
Proof. done. Qed.

Lemma regexp_test_str r s h :
  regexp_test r (VStr s) h = Ret (VBool (re_test r s), h).
Proof. done. Qed.

Lemma validateForm_spec d h props u e p a :
  lookup_obj h (formState d) = Some props →
  form_fields props u e p a →
  validateForm d h =
    Ret (VRef (length h), h ++ [Obj (field_errors u e p a)]).
Proof.
  intros Hs (Hu & He & Hp & Ha). unfold validateForm.
  erewrite bind_Ret by apply alloc_run.
  assert (∀ m k, get_prop (formState d) k (h ++ [Obj m]) =
            Ret (prop props k, h ++ [Obj m])) as Hget.
  { intros m k. by apply get_prop_obj, lookup_obj_app. }
  unfold field_errors. generalize (∅ : gmap string value). intros m.
  (* username *)
  erewrite bind_Ret by apply Hget. rewrite Hu.
  erewrite bind_Ret by apply string_trim_str.
  erewrite (bind_Ret _ _ _ tt
              (h ++ [Obj (set_error "username" (username_error u) m)])).
  2:{ unfold js_not, username_error. rewrite truthy_trim, negb_involutive.
      destruct (all_white_space u); cbn [truthy]; cbv iota.
      - apply set_prop_last.
      - erewrite bind_Ret by apply Hget. rewrite Hu.
        erewrite bind_Ret by apply get_length_str.
        erewrite bind_Ret by apply js_lt_num. cbn [truthy num_lt].
        case_bool_decide; [apply set_prop_last|done]. }
  generalize (set_error "username" (username_error u) m). clear m. intros m.
  (* email *)
  erewrite bind_Ret by apply Hget. rewrite He.
  erewrite bind_Ret by apply string_trim_str.
  erewrite (bind_Ret _ _ _ tt
              (h ++ [Obj (set_error "email" (email_error e) m)])).
  2:{ unfold js_not, email_error. rewrite truthy_trim, negb_involutive.
      destruct (all_white_space e); cbn [truthy]; cbv iota.
      - apply set_prop_last.
      - erewrite bind_Ret by apply Hget. rewrite He.
        erewrite bind_Ret by apply regexp_test_str. cbn [truthy].
        destruct (re_test email_regex e); cbn [negb]; cbv iota;
          [done|apply set_prop_last]. }
  generalize (set_error "email" (email_error e) m). clear m. intros m.
  (* password *)
  erewrite bind_Ret by apply Hget. rewrite Hp.
  erewrite (bind_Ret _ _ _ tt
              (h ++ [Obj (set_error "password" (password_error p) m)])).
  2:{ unfold js_not, password_error. cbn [truthy]. rewrite negb_involutive.
      destruct (String.eqb p ""); cbv iota.
      - apply set_prop_last.
      - erewrite bind_Ret by apply Hget. rewrite Hp.
        erewrite bind_Ret by apply get_length_str.
        erewrite bind_Ret by apply js_lt_num. cbn [truthy num_lt].
        case_bool_decide; [apply set_prop_last|done]. }
  generalize (set_error "password" (password_error p) m). clear m. intros m.
  (* age *)
  erewrite bind_Ret by apply Hget. rewrite Ha.
  erewrite (bind_Ret _ _ _ tt
              (h ++ [Obj (set_error "age" (age_error a) m)])); [done|].
  unfold js_not, age_error. destruct a as [n|]; cbn [age_value truthy].
  2:{ cbn. apply set_prop_last. }
  rewrite negb_involutive.
  destruct (Z.eqb_spec n 0) as [->|Hn]; cbv iota.
  { rewrite bool_decide_true by done. apply set_prop_last. }
  rewrite (bool_decide_false (n = 0)) by done.
  erewrite bind_Ret by apply Hget. rewrite Ha. cbn [age_value].
  erewrite bind_Ret by apply js_lt_num. cbn [truthy num_lt].
  case_bool_decide as H18.
  - erewrite bind_Ret by done. cbn [truthy].
    rewrite bool_decide_true by lia.
    apply set_prop_last.
  - erewrite bind_Ret.
    2:{ erewrite bind_Ret by apply Hget. rewrite Ha. apply js_gt_num. }
    cbn [truthy num_lt]. case_bool_decide as H100.
    + rewrite bool_decide_true by lia. apply set_prop_last.
    + by rewrite bool_decide_false by lia.
Qed.

Lemma field_errors_lookup u e p a :
  field_errors u e p a !! "username" = VStr <$> username_error u ∧
  field_errors u e p a !! "email" = VStr <$> email_error e ∧
  field_errors u e p a !! "password" = VStr <$> password_error p ∧
  field_errors u e p a !! "age" = VStr <$> age_error a ∧
  ∀ k, is_Some (field_errors u e p a !! k) →
       k ∈ ["username"; "email"; "password"; "age"]%string.
Proof.
  unfold field_errors.
  destruct (username_error u), (email_error e), (password_error p),
    (age_error a); cbn [set_error fmap option_fmap option_map];
    (split_and!; [by simplify_map_eq..|]);
    intros k [x Hx]; rewrite !elem_of_cons;
    repeat (apply lookup_insert_Some in Hx as [[<- _]|[_ Hx]]; [tauto|]);
    by rewrite lookup_empty in Hx.
Qed.

Lemma field_errors_empty u e p a :
  field_errors u e p a = ∅ ↔
  username_error u = None ∧ email_error e = None ∧
  password_error p = None ∧ age_error a = None.
Proof.
  unfold field_errors. split.
  - intros H.
    destruct (username_error u), (email_error e), (password_error p),
      (age_error a); cbn [set_error] in H; try done;
      by apply (f_equal size) in H;
         rewrite ?map_size_insert, map_size_empty in H;
         repeat case_match.
  - by intros (-> & -> & -> & ->).
Qed.

Lemma email_test_not_blank e :
  re_test email_regex e = true → all_white_space e = false.
Proof.
  intros (pre & m & post & Hs & (a & b & c & -> & [Ha Hns] & _)%email_regex_lang)
    %re_test_lang.
  unfold all_white_space. rewrite Hs. apply not_true_is_false.
  rewrite forallb_forall. intros Hall.
  destruct a as [|x a]; [done|]. apply Forall_cons in Hns as [Hx _].
  rewrite (Hall x) in Hx; [done|].
  apply in_or_app. right. apply in_or_app. left. by left.
Qed.

Lemma username_error_None u :
  username_error u = None ↔
  all_white_space u = false ∧ (3 ≤ String.length u)%nat.
Proof.
  unfold username_error. destruct (all_white_space u); [by split; [|intros []]|].
  case_bool_decide; [|split; [split; [done|lia]|done]].
  split; [done|]. intros [_ ?]. lia.
Qed.

Lemma email_error_None e :
  email_error e = None ↔ re_test email_regex e = true.
Proof.
  unfold email_error. split.
  - destruct (all_white_space e); [done|]. by destruct (re_test _ _).
  - intros He. by rewrite (email_test_not_blank e He), He.
Qed.

Lemma password_error_None p :
  password_error p = None ↔ (6 ≤ String.length p)%nat.
Proof.
  unfold password_error. destruct (String.eqb_spec p "") as [->|_].
  { simpl. split; [done|lia]. }
  case_bool_decide; [|split; [lia|done]].
  split; [done|lia].
Qed.

Lemma age_error_None a :
  age_error a = None ↔ ∃ n, a = Some n ∧ 18 ≤ n ≤ 100.
Proof.
  unfold age_error. destruct a as [n|]; [|by split; [|intros (? & ? & ?)]].
  repeat case_bool_decide; split; try done.
  - intros (? & [= <-] & ?). lia.
  - intros (? & [= <-] & ?). lia.
  - intros _. exists n. split; [done|lia].
Qed.

(** The forms that pass. *)
Lemma field_errors_valid u e p a :
  field_errors u e p a = ∅ ↔
  all_white_space u = false ∧ (3 ≤ String.length u)%nat ∧
  re_test email_regex e = true ∧
  (6 ≤ String.length p)%nat ∧
  ∃ n, a = Some n ∧ 18 ≤ n ≤ 100.
Proof.
  rewrite field_errors_empty, username_error_None, email_error_None,
    password_error_None, age_error_None. tauto.
Qed.

Lemma object_keys_obj h v props :
  lookup_obj h v = Some props →
  object_keys v h =
    Ret (VRef (length h), h ++ [Arr (VStr <$> (map_to_list props).*1)]).
Proof.
  intros (l & -> & Hl)%lookup_obj_Some. unfold object_keys.
  unfold mbind at 1, js_bind, deref. by rewrite Hl.
Qed.

Lemma lookup_obj_last h o props :
  o = Obj props → lookup_obj (h ++ [o]) (VRef (length h)) = Some props.
Proof.
  intros ->. unfold lookup_obj. by rewrite lookup_app_r, Nat.sub_diag by lia.
Qed.

Lemma lookup_arr_last h elems :
  lookup_arr (h ++ [Arr elems]) (VRef (length h)) = Some elems.
Proof. unfold lookup_arr. by rewrite lookup_app_r, Nat.sub_diag by lia. Qed.

(** The form reducer, one action type at a time. *)
Lemma formReducer_type h s a props ap c :
  lookup_obj h s = Some props → lookup_obj h a = Some ap →
  prop ap "type" = VStr c →
  formReducer s a h =
    if decide (c = "SET_ERRORS"%string) then
      Ret (VRef (length h),
           h ++ [Obj (<["errors" := prop ap "errors"]> props)])
    else if decide (c = "SUBMIT_START"%string) then
      Ret (VRef (length h), h ++ [Obj (<["isSubmitting" := VBool true]> props)])
    else if decide (c = "SUBMIT_FAILURE"%string) then
      Ret (VRef (length h), h ++ [Obj (<["isSubmitting" := VBool false]> props)])
    else if decide (c = "SUBMIT_SUCCESS"%string ∨ c = "RESET_FORM"%string) then
      Ret (formInitialState, h)
    else if decide (c = "UPDATE_FIELD"%string ∨ c = "SET_ERROR"%string) then
      formReducer s a h
    else Ret (s, h).
Proof.
  intros Hs Ha Hty.
  destruct (decide (c = "SET_ERRORS"%string)) as [->|?].
  { unfold formReducer. js_step. rewrite Hty. cbn [switch strict_eq].
    repeat (rewrite bool_decide_false by done; cbv iota).
    rewrite bool_decide_true by done; cbv iota. by repeat js_step. }
  destruct (decide (c = "SUBMIT_START"%string)) as [->|?].
  { unfold formReducer. js_step. rewrite Hty. cbn [switch strict_eq].
    repeat (rewrite bool_decide_false by done; cbv iota).
    rewrite bool_decide_true by done; cbv iota. by repeat js_step. }
  destruct (decide (c = "SUBMIT_FAILURE"%string)) as [->|?].
  { unfold formReducer. js_step. rewrite Hty. cbn [switch strict_eq].
    repeat (rewrite bool_decide_false by done; cbv iota).
    rewrite bool_decide_true by done; cbv iota. by repeat js_step. }
  destruct (decide (c = "SUBMIT_SUCCESS"%string ∨ c = "RESET_FORM"%string))
    as [[->| ->]|?].
  { unfold formReducer. js_step. by rewrite Hty. }
  { unfold formReducer. js_step. by rewrite Hty. }
  destruct (decide (c = "UPDATE_FIELD"%string ∨ c = "SET_ERROR"%string))
    as [?|?]; [done|].
  unfold formReducer. js_step. rewrite Hty. cbn [switch strict_eq].
  repeat (rewrite bool_decide_false by naive_solver; cbv iota). done.
Qed.

(** What [handleFormSubmit] does, on the two sides of the check. *)
Lemma handleFormSubmit_spec d h props u e p a :
  lookup_obj h (formState d) = Some props →
  form_fields props u e p a →
  ∃ s' h' cbs,
    handleFormSubmit d h =
      Ret ((Demo (counterState d) s' (todoState d) (cartState d)
                 (todoInput d) (editingTodoId d) (editingText d), cbs), h') ∧
    h `prefix_of` h' ∧
    if decide (field_errors u e p a = ∅) then
      cbs = [(1000, submitted)] ∧
      lookup_obj h' s' = Some (<["isSubmitting" := VBool true]> props)
    else
      cbs = [] ∧
      ∃ er, lookup_obj h' s' = Some (<["errors" := er]> props) ∧
            lookup_obj h' er = Some (field_errors u e p a).
Proof.
  intros Hs Hf. unfold handleFormSubmit.
  erewrite bind_Ret by by eapply validateForm_spec.
  erewrite bind_Ret by by apply object_keys_obj, lookup_obj_last.
  erewrite bind_Ret by apply get_length_arr, lookup_arr_last.
  erewrite bind_Ret by apply js_gt_num.
  cbn [truthy num_lt]. rewrite length_fmap, length_fmap, length_map_to_list.
  set (errs := field_errors u e p a).
  set (h2 := (h ++ [Obj errs]) ++ _).
  assert (h `prefix_of` h2) as Hpre by (apply prefix_app_r; prefix_tac).
  assert (lookup_obj h2 (formState d) = Some props) as Hs2
    by by eapply lookup_obj_prefix.
  assert (lookup_obj h2 (VRef (length h)) = Some errs) as He2.
  { eapply lookup_obj_prefix; [|by apply lookup_obj_last].
    by apply prefix_app_r. }
  destruct (decide (errs = ∅)) as [Hempty|Hne].
  - rewrite bool_decide_false by (rewrite Hempty, map_size_empty; lia).
    erewrite bind_Ret by apply alloc_run.
    unfold formDispatch.
    erewrite bind_Ret.
    2:{ erewrite bind_Ret; [done|].
        by erewrite (formReducer_type _ _ _ props _ "SUBMIT_START");
          [|by apply lookup_obj_app|by apply lookup_obj_last|]. }
    cbn. eexists _, _, _. split; [done|]. split; [prefix_tac|].
    split; [done|]. by apply lookup_obj_last.
  - rewrite bool_decide_true.
    2:{ assert (size errs ≠ 0%nat) by by rewrite map_size_non_empty_iff. lia. }
    erewrite bind_Ret by apply alloc_run.
    unfold formDispatch.
    erewrite bind_Ret.
    2:{ erewrite bind_Ret; [done|].
        by erewrite (formReducer_type _ _ _ props _ "SET_ERRORS");
          [|by apply lookup_obj_app|by apply lookup_obj_last|]. }
    cbn. eexists _, _, _. split; [done|]. split; [prefix_tac|].
    split; [done|]. eexists. split; [by apply lookup_obj_last|].
    unfold prop. rewrite lookup_insert_ne, lookup_singleton_eq by done.
    cbn [default]. eapply lookup_obj_prefix; [|exact He2].
    apply prefix_app_r. prefix_tac.
Qed.

Lemma submitted_run d h :
  submitted d h =
    Ret (Demo (counterState d) formInitialState (todoState d) (cartState d)
              (todoInput d) (editingTodoId d) (editingText d),
         h ++ [Obj {[ "type" := VStr "SUBMIT_SUCCESS" ]}]).
Proof.
  unfold submitted. erewrite bind_Ret by apply alloc_run.
  unfold formDispatch, formReducer.
  erewrite bind_Ret; [done|].
  erewrite bind_Ret by by apply get_prop_obj, lookup_obj_last.
  done.
Qed.

Lemma update_field_run f v d h props eprops :
  lookup_obj h (formState d) = Some props →
  lookup_obj h (prop props "errors") = Some eprops →
  (a ← alloc (Obj (<["type" := VStr "UPDATE_FIELD"]>
                     (<["field" := VStr f]> {[ "value" := v ]})));
   formDispatch a d) h =
    Ret (Demo (counterState d) (VRef (S (S (length h)))) (todoState d)
              (cartState d) (todoInput d) (editingTodoId d) (editingText d),
         h ++ [Obj (<["type" := VStr "UPDATE_FIELD"]>
                      (<["field" := VStr f]> {[ "value" := v ]}));
               Obj (<[f := VStr ""]> eprops);
               Obj (<["errors" := VRef (S (length h))]>
                      (<[f := v]> props))]).
Proof.
  intros Hs He.
  erewrite bind_Ret by apply alloc_run.
  set (ap := <["type" := VStr "UPDATE_FIELD"]> _).
  assert (lookup_obj (h ++ [Obj ap]) (VRef (length h)) = Some ap) as Ha
    by by apply lookup_obj_last.
  apply (lookup_obj_app _ _ _ (Obj ap)) in Hs, He.
  unfold formDispatch. erewrite bind_Ret; [done|].
  unfold formReducer. js_step.
  change (prop ap "type") with (VStr "UPDATE_FIELD").
  cbn [switch strict_eq]. rewrite bool_decide_true by done. cbv iota.
  unfold to_property_key.
  repeat first
    [ js_step
    | progress change (prop ap "field") with (VStr f)
    | progress cbn [to_string]
    | erewrite bind_Ret by apply alloc_run ].
  rewrite ?alloc_run, !length_app, !Nat.add_1_r.
  change (prop ap "value") with v.
  rewrite <-!(assoc_L (++)). done.
Qed.

Lemma fieldInput_run f text d h props eprops :
  lookup_obj h (formState d) = Some props →
  lookup_obj h (prop props "errors") = Some eprops →
  fieldInput f text d h =
    Ret (Demo (counterState d) (VRef (S (S (length h)))) (todoState d)
              (cartState d) (todoInput d) (editingTodoId d) (editingText d),
         h ++ [Obj (<["type" := VStr "UPDATE_FIELD"]>
                      (<["field" := VStr f]> {[ "value" := VStr text ]}));
               Obj (<[f := VStr ""]> eprops);
               Obj (<["errors" := VRef (S (length h))]>
                      (<[f := VStr text]> props))]).
Proof. apply update_field_run. Qed.

(** ** The form as the user drives it *)

Lemma lookup_obj_last3 (h : heap) a b c :
  lookup_obj (h ++ [a; b; Obj c]) (VRef (S (S (length h)))) = Some c.
Proof.
  unfold lookup_obj. rewrite lookup_app_r by lia.
  by replace (S (S (length h)) - length h)%nat with 2%nat by lia.
Qed.

Lemma lookup_obj_last3_2 (h : heap) a b c :
  lookup_obj (h ++ [a; Obj b; c]) (VRef (S (length h))) = Some b.
Proof.
  unfold lookup_obj. rewrite lookup_app_r by lia.
  by replace (S (length h) - length h)%nat with 1%nat by lia.
Qed.

Lemma parseInt_str text h :
  parseInt (VStr text) h = Unsupported ∨
  parseInt (VStr text) h = Ret (VNum NaN, h) ∨
  ∃ n, parseInt (VStr text) h = Ret (VNum (Fin n), h).
Proof.
  unfold parseInt. cbn [to_string]. erewrite bind_Ret by done.
  repeat case_match; eauto.
Qed.

(** The value that the age input dispatches. *)
Lemma age_value_truthy n :
  ∃ a, (if truthy (VNum n) then VNum n else VStr "") = age_value a ∧
       a ≠ Some 0.
Proof.
  destruct n as [z|]; [|by exists None].
  cbn [truthy]. destruct (Z.eqb_spec z 0) as [->|Hz]; [by exists None|].
  exists (Some z). split; [done|]. by intros [= ->].
Qed.

Lemma form_inv_prefix h h' d :
  form_inv h d → h `prefix_of` h' → form_inv h' d.
Proof.
  intros (Hm & props & eprops & u & e & p & a & Hs & He & Hf & Ha) Hh.
  split; [by etrans|]. exists props, eprops, u, e, p, a.
  split_and!; try done; by eapply lookup_obj_prefix.
Qed.

Lemma form_inv_initial h d :
  module_heap `prefix_of` h → formState d = formInitialState → form_inv h d.
Proof.
  intros Hm Hd. split; [done|]. rewrite Hd.
  eexists _, _, ""%string, ""%string, ""%string, None.
  split; [by eapply lookup_obj_prefix|].
  split; [by eapply lookup_obj_prefix|]. done.
Qed.

Lemma fieldInput_inv f text d h :
  f ∈ ["username"; "email"; "password"]%string →
  form_inv h d →
  ∃ d' h', fieldInput f text d h = Ret (d', h') ∧ form_inv h' d'.
Proof.
  intros Hf (Hm & props & eprops & u & e & p & a & Hs & He & Hff & Ha).
  eexists _, _. split; [by eapply fieldInput_run|].
  split; [by etrans; [|apply prefix_app_r]|].
  destruct Hff as (Hu & Hem & Hp & Hage).
  eexists _, _,
    (if decide (f = "username"%string) then text else u),
    (if decide (f = "email"%string) then text else e),
    (if decide (f = "password"%string) then text else p), a.
  split; [apply lookup_obj_last3|].
  split.
  { rewrite prop_insert_eq. apply lookup_obj_last3_2. }
  split; [|done].
  rewrite !elem_of_cons, elem_of_nil in Hf.
  destruct Hf as [->|[->|[->|[]]]]; repeat split;
    rewrite ?decide_True, ?decide_False by done;
    rewrite prop_insert_ne by done;
    by rewrite ?prop_insert_eq, ?prop_insert_ne by done.
Qed.

Lemma ageInput_ret text n d h :
  parseInt (VStr text) h = Ret (VNum n, h) →
  form_inv h d →
  ∃ d' h', ageInput text d h = Ret (d', h') ∧ form_inv h' d'.
Proof.
  intros Hn (Hm & props & eprops & u & e & p & a & Hs & He & Hff & Ha).
  unfold ageInput. erewrite bind_Ret by done.
  destruct (age_value_truthy n) as (a' & -> & Ha').
  eexists _, _. split; [by eapply update_field_run|].
  split; [by etrans; [|apply prefix_app_r]|].
  destruct Hff as (Hu & Hem & Hp & Hage).
  eexists _, _, u, e, p, a'.
  split; [apply lookup_obj_last3|].
  split.
  { rewrite prop_insert_eq. apply lookup_obj_last3_2. }
  split; [|done].
  repeat split; rewrite prop_insert_ne by done;
    by rewrite ?prop_insert_eq, ?prop_insert_ne by done.
Qed.

Lemma ageInput_inv text d h :
  form_inv h d →
  ageInput text d h = Unsupported ∨
  ∃ d' h', ageInput text d h = Ret (d', h') ∧ form_inv h' d'.
Proof.
  intros Hinv.
  destruct (parseInt_str text h) as [Hp|[Hp|[n Hp]]];
    [|right; by eapply ageInput_ret..].
  left. unfold ageInput, mbind, js_bind. by rewrite Hp.
Qed.

Lemma handleFormSubmit_inv d h :
  form_inv h d →
  ∃ d' cbs h',
    handleFormSubmit d h = Ret ((d', cbs), h') ∧ form_inv h' d' ∧
    (cbs = [] ∨ cbs = [(1000, submitted)]).
Proof.
  intros (Hm & props & eprops & u & e & p & a & Hs & He & Hff & Ha).
  destruct (handleFormSubmit_spec d h props u e p a Hs Hff)
    as (s' & h' & cbs & Hrun & Hpre & Hcase).
  eexists _, cbs, h'. split; [done|].
  destruct Hff as (Hu & Hem & Hp & Hage).
  destruct (decide (field_errors u e p a = ∅)) as [Hempty|Hne].
  - destruct Hcase as [-> Hs']. split; [|by right].
    split; [by etrans|]. exists (<["isSubmitting" := VBool true]> props),
      eprops, u, e, p, a.
    split; [done|]. rewrite prop_insert_ne by done.
    split; [by eapply lookup_obj_prefix|].
    split; [|done]. by repeat split; rewrite prop_insert_ne by done.
  - destruct Hcase as [-> (er & Hs' & Her)]. split; [|by left].
    split; [by etrans|]. exists (<["errors" := er]> props),
      (field_errors u e p a), u, e, p, a.
    split; [done|]. rewrite prop_insert_eq.
    split; [done|].
    split; [|done]. by repeat split; rewrite prop_insert_ne by done.
Qed.

Lemma submitted_inv d h :
  module_heap `prefix_of` h →
  ∃ d' h', submitted d h = Ret (d', h') ∧ form_inv h' d'.
Proof.
  intros Hm. eexists _, _. split; [apply submitted_run|].
  apply form_inv_initial; [|done]. by etrans; [|apply prefix_app_r].
Qed.

Lemma resetFormButton_run d h :
  resetFormButton d h =
    Ret (Demo (counterState d) formInitialState (todoState d) (cartState d)
              (todoInput d) (editingTodoId d) (editingText d),
         h ++ [Obj {[ "type" := VStr "RESET_FORM" ]}]).
Proof.
  unfold resetFormButton. erewrite bind_Ret by apply alloc_run.
  unfold formDispatch, formReducer.
  erewrite bind_Ret; [done|].
  erewrite bind_Ret by by apply get_prop_obj, lookup_obj_last.
  done.
Qed.

Lemma resetFormButton_inv d h :
  module_heap `prefix_of` h →
  ∃ d' h', resetFormButton d h = Ret (d', h') ∧ form_inv h' d'.
Proof.
  intros Hm. eexists _, _. split; [apply resetFormButton_run|].
  apply form_inv_initial; [|done]. by etrans; [|apply prefix_app_r].
Qed.

(** The invariant holds in every state that the user reaches, and the
    callbacks that wait are those of [handleFormSubmit]. *)
Lemma form_ui_inv h d q :
  form_ui h d q → form_inv h d ∧ Forall (λ tc, tc = (1000, submitted)) q.
Proof.
  induction 1 as [h Hm|h d q h' _ [IH IHq] Hh|h d q f text d' h' _ [IH IHq] Hf Hrun
                 |h d q text d' h' _ [IH IHq] Hrun
                 |h d q d' cbs h' _ [IH IHq] Hrun
                 |h d q d' h' _ [IH IHq] Hrun
                 |h d q1 t cb q2 d' h' _ [IH IHq] Hrun].
  - split; [by apply form_inv_initial|done].
  - split; [by eapply form_inv_prefix|done].
  - destruct (fieldInput_inv f text d h Hf IH) as (? & ? & Hr & ?).
    split; [congruence|done].
  - destruct (ageInput_inv text d h IH) as [Hr|(? & ? & Hr & ?)];
      [congruence|]. split; [congruence|done].
  - destruct (handleFormSubmit_inv d h IH) as (? & ? & ? & Hr & ? & Hc).
    rewrite Hr in Hrun. injection Hrun as <- <- <-. split; [done|].
    apply Forall_app. split; [done|]. destruct Hc as [->| ->]; by repeat constructor.
  - destruct (resetFormButton_inv d h (proj1 IH)) as (? & ? & Hr & ?).
    split; [congruence|done].
  - apply Forall_app in IHq as [Hq1 [Hcb Hq2]%Forall_cons].
    injection Hcb as -> ->.
    destruct (submitted_inv d h (proj1 IH)) as (? & ? & Hr & ?).
    split; [congruence|]. by apply Forall_app.
Qed.

(** ** [parseInt] *)

Lemma digit_of_bound c d : digit_of c = Some d → 0 ≤ d.
Proof.
  unfold digit_of. intros H. repeat case_match; simplify_eq; lia.
Qed.

Lemma parse_digits_bound r acc s :
  0 ≤ acc → 0 < r →
  0 ≤ parse_digits r acc s < (acc + 1) * r ^ Z.of_nat (String.length s).
Proof.
  intros Hacc Hr. revert acc Hacc.
  induction s as [|c s IH]; intros acc Hacc; simpl parse_digits.
  { simpl. lia. }
  assert (0 < r ^ Z.of_nat (String.length s)) by (apply Z.pow_pos_nonneg; lia).
  replace (Z.of_nat (String.length (String c s)))
    with (Z.succ (Z.of_nat (String.length s))) by (simpl; lia).
  rewrite Z.pow_succ_r by lia.
  unfold radix_digit. destruct (digit_of c) as [d|] eqn:Hd; [|nia].
  apply digit_of_bound in Hd.
  destruct (Z.ltb_spec d r); [|nia].
  specialize (IH (acc * r + d) ltac:(nia)). nia.
Qed.

Lemma trim_start_length s :
  (String.length (trim_start s) ≤ String.length s)%nat.
Proof.
  induction s as [|c s IH]; simpl; [done|].
  destruct (is_white_space c); simpl; lia.
Qed.

(** On a short text [parseInt] returns a number. *)
Lemma parseInt_short text h :
  (String.length text ≤ 13)%nat →
  parseInt (VStr text) h = Ret (VNum NaN, h) ∨
  ∃ n, parseInt (VStr text) h = Ret (VNum (Fin n), h).
Proof.
  intros Hlen. unfold parseInt. cbn [to_string]. erewrite bind_Ret by done.
  pose proof (trim_start_length text) as Ht.
  destruct (match trim_start text with
            | String c s' =>
                if Ascii.eqb c (char "-") then (-1, s')
                else if Ascii.eqb c (char "+") then (1, s')
                else (1, trim_start text)
            | EmptyString => (1, trim_start text)
            end) as [sign s2] eqn:E2.
  assert (String.length s2 ≤ 13)%nat as H2.
  { destruct (trim_start text) as [|c s'] eqn:E; simplify_eq; [simpl; lia|].
    simpl in Ht. repeat case_match; simplify_eq; simpl; lia. }
  destruct (match s2 with
            | String c (String x s') =>
                if Ascii.eqb c (char "0") &&
                   (Ascii.eqb x (char "x") || Ascii.eqb x (char "X"))
                then (16, s') else (10, s2)
            | _ => (10, s2)
            end) as [r s3] eqn:E3.
  assert ((r = 10 ∨ r = 16) ∧ (String.length s3 ≤ 13)%nat) as [Hr H3].
  { destruct s2 as [|c [|x s']]; simplify_eq; [auto..|].
    simpl in H2. repeat case_match; simplify_eq; simpl; split; auto; lia. }
  destruct (starts_with_digit r s3); [|by left].
  right. rewrite decide_True; [by eexists|].
  pose proof (parse_digits_bound r 0 s3 ltac:(lia) ltac:(lia)) as Hb.
  assert (r ^ Z.of_nat (String.length s3) ≤ 16 ^ 13); [|lia].
  trans (16 ^ Z.of_nat (String.length s3)).
  - apply Z.pow_le_mono_l. lia.
  - apply Z.pow_le_mono_r; lia.
Qed.

Lemma radix_digit_pretty (x : N) :
  (x < 10)%N → radix_digit 10 (pretty_N_char x) = Some (Z.of_N x).
Proof.
  intros Hx.
  assert (x = 0 ∨ x = 1 ∨ x = 2 ∨ x = 3 ∨ x = 4 ∨ x = 5 ∨ x = 6 ∨ x = 7 ∨
          x = 8 ∨ x = 9)%N as Hc by lia.
  repeat (destruct Hc as [->|Hc]; [done|]). by subst.
Qed.

Lemma parse_digits_pretty_go (x : N) s :
  parse_digits 10 0 (pretty_N_go x s) = parse_digits 10 (Z.of_N x) s.
Proof.
  revert s. induction (N.lt_wf_0 x) as [x _ IH]; intros s.
  destruct (decide (x = 0%N)) as [->|Hx]; [done|].
  rewrite pretty_N_go_step by lia.
  rewrite IH by (apply N.div_lt; lia).
  simpl parse_digits. rewrite radix_digit_pretty by (apply N.mod_lt; lia).
  f_equal. rewrite (N.div_mod x 10) at 3 by done. lia.
Qed.

(** A numeral starts with a digit other than zero. *)
Lemma pretty_N_go_head (x : N) s :
  (0 < x)%N →
  ∃ y s', (0 < y < 10)%N ∧ pretty_N_go x s = String (pretty_N_char y) s'.
Proof.
  revert s. induction (N.lt_wf_0 x) as [x _ IH]; intros s Hx.
  rewrite pretty_N_go_step by done.
  destruct (decide (x < 10)%N) as [Hlt|Hge].
  - rewrite N.div_small, N.mod_small, pretty_N_go_0 by done.
    exists x, s. split; [lia|done].
  - apply IH; [apply N.div_lt; lia|].
    apply N.div_str_pos. lia.
Qed.

Lemma parseInt_pretty_pos (p : positive) h :
  Z.pos p < 2 ^ 53 →
  parseInt (VStr (pretty (N.pos p))) h = Ret (VNum (Fin (Z.pos p)), h) ∧
  parseInt (VStr ("-" +:+ pretty (N.pos p))) h =
    Ret (VNum (Fin (Z.neg p)), h).
Proof.
  intros Hp. unfold pretty, pretty_N. rewrite decide_False by done.
  destruct (pretty_N_go_head (N.pos p) "" ltac:(lia))
    as (y & s' & Hy & Hs).
  pose proof (parse_digits_pretty_go (N.pos p) "") as Hparse.
  simpl parse_digits in Hparse at 2. rewrite Hs in *.
  assert (y = 1 ∨ y = 2 ∨ y = 3 ∨ y = 4 ∨ y = 5 ∨ y = 6 ∨ y = 7 ∨
          y = 8 ∨ y = 9)%N as Hc by lia.
  unfold parseInt. cbn [to_string]. rewrite !(bind_Ret _ _ h _ h eq_refl).
  assert (∃ c, pretty_N_char y = c ∧ is_white_space c = false ∧
               Ascii.eqb c (char "-") = false ∧
               Ascii.eqb c (char "+") = false ∧
               Ascii.eqb c (char "0") = false ∧
               is_Some (radix_digit 10 c)) as (c & Hyc & Hw & Hm & Hpl & H0 & Hd).
  { eexists. split; [done|].
    repeat (destruct Hc as [->|Hc]; [by repeat split|]). subst.
    by repeat split. }
  rewrite Hyc in *. clear Hyc.
  assert (∀ sign,
    (let '(r, s3) :=
       match String c s' with
       | String c0 (String x s'0) =>
           if Ascii.eqb c0 (char "0") &&
              (Ascii.eqb x (char "x") || Ascii.eqb x (char "X"))
           then (16, s'0) else (10, String c s')
       | _ => (10, String c s')
       end in
     if starts_with_digit r s3 then
       let n := parse_digits r 0 s3 in
       if decide (n < 2 ^ 53) then mret (VNum (Fin (sign * n)))
       else unsupported
     else mret (VNum NaN)) h = Ret (VNum (Fin (sign * Z.pos p)), h)) as Hrest.
  { intros sign. rewrite H0. cbn [andb].
    replace (match s' with
             | String _ _ | _ => (10, String c s')
             end) with (10, String c s') by by destruct s'.
    cbn [starts_with_digit]. rewrite bool_decide_true by done.
    cbv zeta. rewrite Hparse, decide_True by done. done. }
  split.
  - cbn [trim_start]. rewrite Hw, Hm, Hpl. apply (Hrest 1).
  - change ("-" +:+ String c s')%string with (String (char "-") (String c s')).
    cbn [trim_start]. change (is_white_space (char "-")) with false.
    cbv iota. change (Ascii.eqb (char "-") (char "-")) with true. cbv iota.
    apply (Hrest (-1)).
Qed.

(** [parseInt(String(n))] is [n]. *)
Lemma parseInt_pretty n h :
  Z.abs n < 2 ^ 53 →
  parseInt (VStr (pretty n)) h = Ret (VNum (Fin n), h).
Proof.
  intros Hn. destruct n as [|p|p].
  - done.
  - apply parseInt_pretty_pos. lia.
  - apply parseInt_pretty_pos. lia.
Qed.

(** * The todo list: what the component shows and what its handlers do *)



(** X2.  The filter buttons partition the list.  From any todo state,
    the "Active" button followed by [getFilteredTodos] shows a sublist of
    the todos and the "Completed" button followed by [getFilteredTodos]
    shows another, and the two together hold every todo exactly once; the
    "All" button shows the whole list.  None of the buttons changes the
    todos. *)
Theorem filter_buttons_partition h d tps n :
  todo_view h (todoState d) = Some (tps, VNum n) →
  ∃ da ha va ha' la dc hc vc hc' lc dl hl vl hl',
    filterButton "active" d h = Ret (da, ha) ∧
    getFilteredTodos da ha = Ret (va, ha') ∧ todos_at ha' va = Some la ∧
    filterButton "completed" d h = Ret (dc, hc) ∧
    getFilteredTodos dc hc = Ret (vc, hc') ∧ todos_at hc' vc = Some lc ∧
    filterButton "all" d h = Ret (dl, hl) ∧
    getFilteredTodos dl hl = Ret (vl, hl') ∧ todos_at hl' vl = Some tps ∧
    la ++ lc ≡ₚ tps ∧ la `sublist_of` tps ∧ lc `sublist_of` tps ∧
    todos_of ha (todoState da) = Some tps ∧
    todos_of hc (todoState dc) = Some tps ∧
    todos_of hl (todoState dl) = Some tps.
Proof.
  intros Hview.
  destruct (filterButton_shows h d tps n "active" Hview)
    as (sa & ha & va & ha' & Hra & Hva & Hga & Hla).
  destruct (filterButton_shows h d tps n "completed" Hview)
    as (sc & hc & vc & hc' & Hrc & Hvc & Hgc & Hlc).
  destruct (filterButton_shows h d tps n "all" Hview)
    as (sl & hl & vl & hl' & Hrl & Hvl & Hgl & Hll).
  rewrite shown_active in Hla. rewrite shown_completed in Hlc.
  rewrite shown_other in Hll by done.
  eexists _, ha, va, ha', _, _, hc, vc, hc', _, _, hl, vl, hl'.
  split_and!; try done.
  - apply filter_completed_partition.
  - apply sublist_filter.
  - apply sublist_filter.
  - unfold todos_of. simpl. by rewrite Hva.
  - unfold todos_of. simpl. by rewrite Hvc.
  - unfold todos_of. simpl. by rewrite Hvl.
Qed.

Lemma filter_buttons_partition_witness :
  ∃ da ha va ha' la dc hc vc hc' lc dl hl vl hl',
    filterButton "active" two_todos_demo two_todos_store = Ret (da, ha) ∧
    getFilteredTodos da ha = Ret (va, ha') ∧ todos_at ha' va = Some la ∧
    filterButton "completed" two_todos_demo two_todos_store = Ret (dc, hc) ∧
    getFilteredTodos dc hc = Ret (vc, hc') ∧ todos_at hc' vc = Some lc ∧
    filterButton "all" two_todos_demo two_todos_store = Ret (dl, hl) ∧
    getFilteredTodos dl hl = Ret (vl, hl') ∧
    todos_at hl' vl = Some two_todos ∧
    la ++ lc ≡ₚ two_todos ∧
    la `sublist_of` two_todos ∧ lc `sublist_of` two_todos ∧
    todos_of ha (todoState da) = Some two_todos ∧
    todos_of hc (todoState dc) = Some two_todos ∧
    todos_of hl (todoState dl) = Some two_todos.
Proof.
  apply (filter_buttons_partition two_todos_store two_todos_demo _ (Fin 3)).
  reflexivity.
Defined.

(** X3.  "Clear Completed" and the list on display.  After the button's
    dispatch of ['CLEAR_COMPLETED'] the state holds the todos whose
    [completed] was falsy, in their order; [getFilteredTodos] then shows no
    completed todo, nothing at all under the filter ['completed'], and
    every remaining todo under any other filter. *)
Theorem clear_completed_view h d props tps n :
  lookup_obj h (todoState d) = Some props →
  todo_view h (todoState d) = Some (tps, VNum n) →
  ∃ d' h' v h'' l,
    clearCompletedButton d h = Ret (d', h') ∧
    todos_of h' (todoState d') =
      Some (filter (λ tp, negb (truthy (prop tp "completed"))) tps) ∧
    getFilteredTodos d' h' = Ret (v, h'') ∧
    todos_at h'' v = Some l ∧
    Forall (λ tp, truthy (prop tp "completed") = false) l ∧
    (prop props "filter" = VStr "completed" → l = []) ∧
    (prop props "filter" ≠ VStr "completed" →
     l = filter (λ tp, negb (truthy (prop tp "completed"))) tps).
Proof.
  intros Hs Hview. unfold clearCompletedButton.
  set (ap := {[ "type" := VStr "CLEAR_COMPLETED" ]} : gmap string value).
  destruct (todoDispatch_view (h ++ [Obj ap]) d (VRef (length h)) tps n ap)
    as (s' & h' & props0 & props' & Hrun & Hh & Hs0 & Hs' & Hf & Hview').
  { by apply todo_view_app. }
  { apply lookup_obj_alloc. }
  assert (props0 = props) as ->.
  { apply (lookup_obj_prefix _ (h ++ [Obj ap])) in Hs;
      [congruence|by apply prefix_app_r]. }
  rewrite (todo_items_after_type ap _ _ "CLEAR_COMPLETED") in Hview' by done.
  rewrite (todo_props_after_type ap _ _ "CLEAR_COMPLETED") in Hview', Hf
    by done.
  simpl in Hview', Hf.
  set (d' := Demo _ _ s' _ _ _ _) in *.
  destruct (getFilteredTodos_spec h' d' props' _ _ Hs' Hview')
    as (v & h'' & Hget & _ & Hat & _).
  rewrite Hf in Hat.
  exists d', h', v, h'', (shown (prop props "filter")
    (filter (λ tp, negb (truthy (prop tp "completed"))) tps)).
  split_and!; try done.
  - unfold todos_of. simpl. by rewrite Hview'.
  - unfold shown. repeat case_decide.
    + rewrite filter_not_completed_idemp. apply Forall_not_completed.
    + by rewrite filter_completed_not_completed.
    + apply Forall_not_completed.
  - intros Hc. rewrite Hc, shown_completed.
    apply filter_completed_not_completed.
  - intros Hc. unfold shown. rewrite (decide_False (P := _ = VStr "completed"))
      by done.
    case_decide; [apply filter_not_completed_idemp|done].
Qed.

Lemma clear_completed_view_witness :
  ∃ d' h' v h'' l,
    clearCompletedButton two_todos_demo two_todos_store = Ret (d', h') ∧
    todos_of h' (todoState d') =
      Some [todo_literal (VNum (Fin 2)) (VStr "eggs")] ∧
    getFilteredTodos d' h' = Ret (v, h'') ∧
    todos_at h'' v = Some l ∧
    Forall (λ tp, truthy (prop tp "completed") = false) l.
Proof.
  destruct (clear_completed_view two_todos_store two_todos_demo
              (<["todos" := VRef 9%nat]> (<["filter" := VStr "active"]>
                 {[ "nextId" := VNum (Fin 3) ]}))
              two_todos (Fin 3))
    as (d' & h' & v & h'' & l & Hrun & Htodos & Hget & Hat & Hall & _);
    [reflexivity..|].
  by exists d', h', v, h'', l.
Defined.

(** X4.  [handleAddTodo].  When the text in the input box is empty or
    all white space, the handler dispatches nothing and changes nothing.
    Otherwise it appends to the todos one todo with the current [nextId]
    as id, the text as typed (not trimmed) and [completed: false],
    increments [nextId], and empties the input box; the rest of the
    component's state stays as it was. *)
Theorem handleAddTodo_adds h d text tps n :
  todoInput d = VStr text →
  todo_view h (todoState d) = Some (tps, VNum n) →
  if all_white_space text then handleAddTodo d h = Ret (d, h)
  else
    ∃ s' h',
      handleAddTodo d h =
        Ret (Demo (counterState d) (formState d) s' (cartState d)
                  (VStr "") (editingTodoId d) (editingText d), h') ∧
      todo_view h' s' =
        Some (tps ++ [todo_literal (VNum n) (VStr text)],
              VNum (num_add n (Fin 1))).
Proof.
  intros Hin Hview. unfold handleAddTodo. rewrite Hin.
  erewrite bind_Ret by apply string_trim_str. rewrite truthy_trim.
  destruct (all_white_space text);
    [change (negb true) with false|change (negb false) with true]; cbv iota.
  { by destruct d; simpl in *; subst. }
  set (ap := <["type" := VStr "ADD_TODO"]> {[ "text" := VStr text ]}).
  destruct (todoDispatch_view (h ++ [Obj ap]) d (VRef (length h)) tps n ap)
    as (s' & h' & props & props' & Hrun & Hh & Hs & Hs' & Hf & Hview').
  { by apply todo_view_app. }
  { apply lookup_obj_alloc. }
  rewrite (todo_items_after_type ap _ _ "ADD_TODO") in Hview' by done.
  rewrite (todo_props_after_type ap _ _ "ADD_TODO") in Hview' by done.
  simpl in Hview'. rewrite prop_insert_eq in Hview'.
  exists s', h'. split; [|done].
  erewrite bind_Ret by apply alloc_run.
  erewrite bind_Ret by apply Hrun. done.
Qed.

Lemma handleAddTodo_adds_witness :
  ∃ s' h',
    handleAddTodo two_todos_demo two_todos_store =
      Ret (Demo counterInitialState formInitialState s' cartInitialState
                (VStr "") (VNum (Fin 2)) (VStr "six eggs"), h') ∧
    todo_view h' s' =
      Some (two_todos ++ [todo_literal (VNum (Fin 3)) (VStr " bread")],
            VNum (Fin 4)).
Proof.
  apply (handleAddTodo_adds two_todos_store two_todos_demo " bread"
           two_todos (Fin 3)); reflexivity.
Defined.

(** X5.  [handleSaveEdit].  Saving leaves edit mode whatever the text:
    [editingTodoId] becomes [null] and [editingText] empty.  When the
    edited text is empty or all white space nothing is dispatched and the
    todo state is the one it was.  Otherwise the todos with the given id
    get the edited text (as typed), every other todo and every other
    property of a todo stay as they were, and so do the order and
    [nextId]. *)
Theorem handleSaveEdit_saves h d id text tps n :
  editingText d = VStr text →
  todo_view h (todoState d) = Some (tps, VNum n) →
  ∃ s' h',
    handleSaveEdit id d h =
      Ret (Demo (counterState d) (formState d) s' (cartState d)
                (todoInput d) VNull (VStr ""), h') ∧
    if all_white_space text then s' = todoState d ∧ h' = h
    else
      todo_view h' s' =
        Some ((λ tp, if strict_eq (prop tp "id") id
                     then <["text" := VStr text]> tp else tp) <$> tps,
              VNum n).
Proof.
  intros Hin Hview. unfold handleSaveEdit. rewrite Hin.
  erewrite bind_Ret by apply string_trim_str. rewrite truthy_trim.
  destruct (all_white_space text);
    [change (negb true) with false|change (negb false) with true]; cbv iota.
  { exists (todoState d), h. split; [|done].
    by erewrite bind_Ret by reflexivity. }
  set (ap := <["type" := VStr "EDIT_TODO"]> (<["id" := id]>
               {[ "text" := VStr text ]})).
  destruct (todoDispatch_view (h ++ [Obj ap]) d (VRef (length h)) tps n ap)
    as (s' & h' & props & props' & Hrun & Hh & Hs & Hs' & Hf & Hview').
  { by apply todo_view_app. }
  { apply lookup_obj_alloc. }
  rewrite (todo_items_after_type ap _ _ "EDIT_TODO") in Hview' by done.
  rewrite (todo_props_after_type ap _ _ "EDIT_TODO") in Hview' by done.
  simpl in Hview'.
  rewrite (todo_view_nextId (h ++ [Obj ap]) (todoState d) tps (VNum n) props)
    in Hview' by (try done; by apply todo_view_app).
  exists s', h'. split; [|done].
  erewrite bind_Ret
    by (erewrite bind_Ret by apply alloc_run; apply Hrun).
  done.
Qed.

Lemma handleSaveEdit_saves_witness :
  ∃ s' h',
    handleSaveEdit (VNum (Fin 2)) two_todos_demo two_todos_store =
      Ret (Demo counterInitialState formInitialState s' cartInitialState
                (VStr " bread") VNull (VStr ""), h') ∧
    todo_view h' s' =
      Some ([ <["id" := VNum (Fin 1)]> (<["text" := VStr "milk"]>
                {[ "completed" := VBool true ]});
              <["text" := VStr "six eggs"]>
                (todo_literal (VNum (Fin 2)) (VStr "eggs")) ],
            VNum (Fin 3)).
Proof.
  apply (handleSaveEdit_saves two_todos_store two_todos_demo (VNum (Fin 2))
           "six eggs" two_todos (Fin 3)); reflexivity.
Defined.

(** X6.  An id is never given twice.  Take a state [s0] that the todo
    list has reached, and any later state [s1], whatever was added,
    ticked, edited or deleted in between.  An ['ADD_TODO'] in [s1] gives
    the new todo an id that is larger than the id of every todo of [s0]:
    the id of a todo that has been deleted does not come back. *)
Theorem todo_id_never_reused h0 s0 h1 s1 h2 a ap s' h' :
  todo_run h0 s0 →
  todo_steps h0 s0 h1 s1 →
  h1 `prefix_of` h2 →
  lookup_obj h2 a = Some ap →
  prop ap "type" = VStr "ADD_TODO" →
  todoReducer s1 a h2 = Ret (s', h') →
  ∃ ids0 tps n,
    todo_ids h0 s0 = Some ((λ i, VNum (Fin i)) <$> ids0) ∧
    todo_view h' s' =
      Some (tps ++ [todo_literal (VNum (Fin n)) (prop ap "text")],
            VNum (Fin (n + 1))) ∧
    Forall (λ i, i < n) ids0.
Proof.
  intros Hrun0 Hsteps Hh Ha Hty Hrun.
  destruct (todo_run_inv h0 s0 Hrun0) as (tps0 & ids0 & n0 & Hview0 & Hids & _ & Hlt).
  destruct (todo_steps_view (λ _ n, n = n0) (λ _ n, n0 ≤ n))
    with (h0 := h0) (s0 := s0) (h := h1) (s := s1) (tps0 := tps0) (n0 := n0)
    as (tps & n & Hview & Hn); try done.
  { intros; lia. }
  { intros ap' tps' n' Hn'. case_decide; lia. }
  eapply todo_view_prefix in Hview; [|done].
  destruct (todoReducer_view h2 s1 a tps (Fin n) ap Hview Ha)
    as (s'' & h'' & props & props' & Hrun' & _ & Hs & _ & _ & Hview').
  assert (s'' = s' ∧ h'' = h') as [-> ->] by (split; congruence).
  rewrite (todo_items_after_type ap _ _ "ADD_TODO") in Hview' by done.
  rewrite (todo_props_after_type ap _ _ "ADD_TODO") in Hview' by done.
  simpl in Hview'. rewrite prop_insert_eq in Hview'.
  exists ids0, tps, n. split_and!; [|done|].
  - unfold todo_ids. by rewrite Hview0, Hids.
  - eapply Forall_impl; [done|]. intros i Hi. simpl in Hi. lia.
Qed.

Lemma todo_id_never_reused_witness :
  ∃ ids0 tps n,
    todo_ids milk_added (VRef 10%nat) =
      Some ((λ i, VNum (Fin i)) <$> ids0) ∧
    todo_view tea_added (VRef 14%nat) =
      Some (tps ++
              [todo_literal (VNum (Fin n))
                 (prop (<["type" := VStr "ADD_TODO"]>
                          {[ "text" := VStr "tea" ]}) "text")],
            VNum (Fin (n + 1))) ∧
    Forall (λ i, i < n) ids0.
Proof.
  apply (todo_id_never_reused milk_added (VRef 10%nat)
           milk_added (VRef 10%nat)
           (milk_added ++
              [Obj (<["type" := VStr "ADD_TODO"]> {[ "text" := VStr "tea" ]})])
           (VRef 11%nat)
           (<["type" := VStr "ADD_TODO"]> {[ "text" := VStr "tea" ]})).
  - apply milk_added_run.
  - constructor.
  - by apply prefix_app_r.
  - reflexivity.
  - reflexivity.
  - vm_compute. reflexivity.
Defined.

(** X7.  Ticking a todo twice restores the list.  In a state that the
    todo list has reached, two ['TOGGLE_TODO'] actions for the same id, one
    after the other, leave every todo with the properties it had before
    (and [nextId] as it was): the second toggle undoes the first. *)
Theorem toggle_twice_restores h s h1 a1 ap1 :
  todo_run h s →
  h `prefix_of` h1 →
  lookup_obj h1 a1 = Some ap1 →
  prop ap1 "type" = VStr "TOGGLE_TODO" →
  ∃ tps n s1 h2,
    todo_view h1 s = Some (tps, VNum (Fin n)) ∧
    todoReducer s a1 h1 = Ret (s1, h2) ∧
    ∀ h3 a2 ap2,
      h2 `prefix_of` h3 →
      lookup_obj h3 a2 = Some ap2 →
      prop ap2 "type" = VStr "TOGGLE_TODO" →
      prop ap2 "id" = prop ap1 "id" →
      ∃ s2 h4,
        todoReducer s1 a2 h3 = Ret (s2, h4) ∧
        todo_view h4 s2 = Some (tps, VNum (Fin n)).
Proof.
  intros Hrun Hh Ha1 Hty1.
  destruct (todo_run_completed_flags h s Hrun) as (tps & n & Hview & Hflags).
  eapply todo_view_prefix in Hview; [|done].
  destruct (todoReducer_view h1 s a1 tps (Fin n) ap1 Hview Ha1)
    as (s1 & h2 & props & props1 & Hrun1 & Hh2 & Hs & Hs1 & _ & Hview1).
  rewrite (todo_items_after_type ap1 _ _ "TOGGLE_TODO") in Hview1 by done.
  rewrite (todo_props_after_type ap1 _ _ "TOGGLE_TODO") in Hview1 by done.
  simpl in Hview1.
  rewrite (todo_view_nextId h1 s tps (VNum (Fin n)) props) in Hview1 by done.
  exists tps, n, s1, h2. split_and!; [done..|].
  intros h3 a2 ap2 Hh3 Ha2 Hty2 Hid.
  eapply todo_view_prefix in Hview1; [|done].
  destruct (todoReducer_view h3 s1 a2 _ (Fin n) ap2 Hview1 Ha2)
    as (s2 & h4 & props1' & props2 & Hrun2 & Hh4 & Hs1' & Hs2 & _ & Hview2).
  rewrite (todo_items_after_type ap2 _ _ "TOGGLE_TODO") in Hview2 by done.
  rewrite (todo_props_after_type ap2 _ _ "TOGGLE_TODO") in Hview2 by done.
  simpl in Hview2.
  rewrite (todo_view_nextId h3 s1 _ (VNum (Fin n)) props1') in Hview2 by done.
  rewrite Hid, toggle_twice in Hview2 by done.
  by exists s2, h4.
Qed.

Lemma toggle_twice_restores_witness :
  ∃ tps n s1 h2,
    todo_view
      (milk_added ++
         [Obj (<["type" := VStr "TOGGLE_TODO"]> {[ "id" := VNum (Fin 1) ]})])
      (VRef 10%nat) = Some (tps, VNum (Fin n)) ∧
    todoReducer (VRef 10%nat) (VRef 11%nat)
      (milk_added ++
         [Obj (<["type" := VStr "TOGGLE_TODO"]> {[ "id" := VNum (Fin 1) ]})])
      = Ret (s1, h2) ∧
    ∀ h3 a2 ap2,
      h2 `prefix_of` h3 →
      lookup_obj h3 a2 = Some ap2 →
      prop ap2 "type" = VStr "TOGGLE_TODO" →
      prop ap2 "id" =
        prop (<["type" := VStr "TOGGLE_TODO"]> {[ "id" := VNum (Fin 1) ]})
          "id" →
      ∃ s2 h4,
        todoReducer s1 a2 h3 = Ret (s2, h4) ∧
        todo_view h4 s2 = Some (tps, VNum (Fin n)).
Proof.
  apply (toggle_twice_restores milk_added (VRef 10%nat)
           (milk_added ++
              [Obj (<["type" := VStr "TOGGLE_TODO"]>
                      {[ "id" := VNum (Fin 1) ]})])
           (VRef 11%nat)
           (<["type" := VStr "TOGGLE_TODO"]> {[ "id" := VNum (Fin 1) ]})).
  - apply milk_added_run.
  - by apply prefix_app_r.
  - reflexivity.
  - reflexivity.
Defined.

(** X8.  The buttons of a row act on that row only.  In a state that the
    todo list has reached, for the todo at position [i] of [state.todos]:
    its "Delete" button removes exactly that todo from the list; its
    checkbox negates the [completed] of that todo and of no other; its
    "Save" button, for an edited text that is not blank, replaces the text
    of that todo and of no other, and leaves edit mode.  The other todos
    keep all their properties and their order. *)
Theorem row_buttons h0 d h props elems i todo :
  todo_run h0 (todoState d) →
  h0 `prefix_of` h →
  lookup_obj h (todoState d) = Some props →
  lookup_arr h (prop props "todos") = Some elems →
  elems !! i = Some todo →
  ∃ tps n,
    todo_view h (todoState d) = Some (tps, VNum (Fin n)) ∧
    (∃ d' h',
       deleteButton todo d h = Ret (d', h') ∧
       todo_view h' (todoState d') = Some (delete i tps, VNum (Fin n))) ∧
    (∃ d' h',
       todoCheckbox todo d h = Ret (d', h') ∧
       todo_view h' (todoState d') =
         Some (alter (λ tp, <["completed" := js_not (prop tp "completed")]> tp)
                     i tps,
               VNum (Fin n))) ∧
    (∀ text,
       editingText d = VStr text → all_white_space text = false →
       ∃ d' h',
         saveButton todo d h = Ret (d', h') ∧
         todo_view h' (todoState d') =
           Some (alter (λ tp, <["text" := VStr text]> tp) i tps,
                 VNum (Fin n)) ∧
         editingTodoId d' = VNull ∧ editingText d' = VStr "").
Proof.
  intros Hrun Hh Hs Harr Hi.
  destruct (row_buttons_aux h0 d h props elems i todo Hrun Hh Hs Harr Hi)
    as (tps & n & tp & Hview & _ & _ & Hrest).
  by exists tps, n.
Qed.

Lemma row_buttons_witness :
  ∃ tps n,
    todo_view milk_added (todoState milk_demo) = Some (tps, VNum (Fin n)) ∧
    (∃ d' h',
       deleteButton (VRef 8%nat) milk_demo milk_added = Ret (d', h') ∧
       todo_view h' (todoState d') = Some (delete 0%nat tps, VNum (Fin n))) ∧
    (∃ d' h',
       todoCheckbox (VRef 8%nat) milk_demo milk_added = Ret (d', h') ∧
       todo_view h' (todoState d') =
         Some (alter (λ tp, <["completed" := js_not (prop tp "completed")]> tp)
                     0%nat tps,
               VNum (Fin n))) ∧
    (∀ text,
       editingText milk_demo = VStr text → all_white_space text = false →
       ∃ d' h',
         saveButton (VRef 8%nat) milk_demo milk_added = Ret (d', h') ∧
         todo_view h' (todoState d') =
           Some (alter (λ tp, <["text" := VStr text]> tp) 0%nat tps,
                 VNum (Fin n)) ∧
         editingTodoId d' = VNull ∧ editingText d' = VStr "").
Proof.
  apply (row_buttons milk_added milk_demo milk_added
           (<["todos" := VRef 9%nat]> (<["filter" := VStr "all"]>
              {[ "nextId" := VNum (Fin 2) ]}))
           [VRef 8%nat] 0%nat (VRef 8%nat)).
  - apply milk_added_run.
  - reflexivity.
  - reflexivity.
  - reflexivity.
  - reflexivity.
Defined.

(** X9.  "Edit" then "Save" without typing.  In a state that the todo
    list has reached, for a todo whose text is a string: its "Edit" button
    puts the component in edit mode for that todo, with the todo's text in
    the edit box; "Save" right after it leaves every todo with the
    properties it had, and leaves edit mode. *)
Theorem edit_then_save_unchanged h0 d h props elems i todo tp text :
  todo_run h0 (todoState d) →
  h0 `prefix_of` h →
  lookup_obj h (todoState d) = Some props →
  lookup_arr h (prop props "todos") = Some elems →
  elems !! i = Some todo →
  lookup_obj h todo = Some tp →
  prop tp "text" = VStr text →
  ∃ d1 tps n d2 h2,
    editButton todo d h = Ret (d1, h) ∧
    editingTodoId d1 = prop tp "id" ∧ editingText d1 = VStr text ∧
    todoState d1 = todoState d ∧
    todo_view h (todoState d) = Some (tps, VNum (Fin n)) ∧
    saveButton todo d1 h = Ret (d2, h2) ∧
    todo_view h2 (todoState d2) = Some (tps, VNum (Fin n)) ∧
    editingTodoId d2 = VNull ∧ editingText d2 = VStr "".
Proof.
  intros Hrun Hh Hs Harr Hi Htodo Htext.
  set (d1 := setEditingText (VStr text) (setEditingTodoId (prop tp "id") d)).
  assert (Hrun1 : todo_run h0 (todoState d1)) by done.
  destruct (row_buttons_aux h0 d1 h props elems i todo Hrun1 Hh Hs Harr Hi)
    as (tps & n & tp' & Hview & Htp & Htodo' & _ & _ & Hsave).
  assert (tp' = tp) as -> by congruence.
  destruct (all_white_space text) eqn:Hblank.
  - exists d1, tps, n,
      (setEditingText (VStr "") (setEditingTodoId VNull d1)), h.
    split_and!; try done.
    + unfold editButton, handleEditTodo. repeat js_step. by rewrite Htext.
    + unfold saveButton, handleSaveEdit. js_step.
      erewrite bind_Ret by apply string_trim_str. rewrite truthy_trim, Hblank.
      change (negb true) with false. cbv iota.
      by erewrite bind_Ret by reflexivity.
  - destruct (Hsave text eq_refl Hblank) as (d2 & h2 & Hsave2 & Hview2 & ? & ?).
    exists d1, tps, n, d2, h2. split_and!; try done.
    + unfold editButton, handleEditTodo. repeat js_step. by rewrite Htext.
    + rewrite Hview2. do 2 f_equal. apply list_eq. intros j.
      destruct (decide (j = i)) as [->|Hne].
      * rewrite list_lookup_alter_eq, Htp. simpl. f_equal. apply insert_id.
        by apply prop_Some.
      * by rewrite list_lookup_alter_ne.
Qed.

Lemma edit_then_save_unchanged_witness :
  ∃ d1 tps n d2 h2,
    editButton (VRef 8%nat) milk_demo milk_added = Ret (d1, milk_added) ∧
    editingTodoId d1 = prop (todo_literal (VNum (Fin 1)) (VStr "milk")) "id" ∧
    editingText d1 = VStr "milk" ∧
    todoState d1 = todoState milk_demo ∧
    todo_view milk_added (todoState milk_demo) = Some (tps, VNum (Fin n)) ∧
    saveButton (VRef 8%nat) d1 milk_added = Ret (d2, h2) ∧
    todo_view h2 (todoState d2) = Some (tps, VNum (Fin n)) ∧
    editingTodoId d2 = VNull ∧ editingText d2 = VStr "".
Proof.
  apply (edit_then_save_unchanged milk_added milk_demo milk_added
           (<["todos" := VRef 9%nat]> (<["filter" := VStr "all"]>
              {[ "nextId" := VNum (Fin 2) ]}))
           [VRef 8%nat] 0%nat (VRef 8%nat)
           (todo_literal (VNum (Fin 1)) (VStr "milk")) "milk").
  - apply milk_added_run.
  - reflexivity.
  - reflexivity.
  - reflexivity.
  - reflexivity.
  - reflexivity.
  - reflexivity.
Defined.

(** * The cart demo: what its buttons can and cannot do *)

(** X10.  The buttons of the cart never make the reducer fault.  In every
    state that the user reaches by clicking buttons of the cart demo, the
    component renders its buttons, and a click on any of them returns a
    state: the "-", "+" and "Remove" buttons belong to items that are in
    the cart, so the reducer's lookup always finds the item. *)
Theorem cart_buttons_never_fault h d h0 :
  cart_ui h d →
  h `prefix_of` h0 →
  ∃ bs h1,
    cart_buttons d h0 = Ret (bs, h1) ∧
    ∀ b, b ∈ bs → ∃ d' h', b d h1 = Ret (d', h').
Proof.
  intros Hinv%cart_ui_inv Hh.
  eapply cart_inv_prefix in Hinv; [|done].
  destruct (cart_buttons_click h0 d Hinv) as (bs & h1 & Hbs & _ & Hall).
  exists bs, h1. split; [done|].
  intros b Hb. destruct (Hall b Hb) as (d' & h' & Hrun & _). eauto.
Qed.

Lemma cart_buttons_never_fault_witness :
  ∃ bs h1,
    cart_buttons laptop_demo laptop_in_cart = Ret (bs, h1) ∧
    ∀ b, b ∈ bs → ∃ d' h', b laptop_demo h1 = Ret (d', h').
Proof.
  apply (cart_buttons_never_fault laptop_in_cart laptop_demo laptop_in_cart).
  - apply laptop_demo_ui.
  - reflexivity.
Defined.

(** X11.  What the buttons keep true of the cart.  In every state that the
    user reaches by clicking buttons of the cart demo, every item of the
    cart is a product of the catalogue at its catalogue price with a
    quantity of at least 1 (the "-" button stops at 1), no two items have
    the same id, so the cart has at most three rows, and the total is the
    sum over the items of price times quantity. *)
Theorem cart_ui_items h d :
  cart_ui h d →
  ∃ items,
    cart_view h (cartState d) = Some (items, cart_sum items) ∧
    Forall (λ it, 1 ≤ item_quantity it ∧
                  (item_id it, item_price it) ∈ catalogue) items ∧
    NoDup (item_id <$> items) ∧
    (length items ≤ 3)%nat.
Proof.
  intros (_ & items & Hview & Hd & Hok)%cart_ui_inv.
  exists items. split_and!; try done.
  - by apply distinct_ids_NoDup.
  - by apply cart_rows_bound.
Qed.

Lemma cart_ui_items_witness :
  ∃ items,
    cart_view laptop_in_cart (cartState laptop_demo) =
      Some (items, cart_sum items) ∧
    Forall (λ it, 1 ≤ item_quantity it ∧
                  (item_id it, item_price it) ∈ catalogue) items ∧
    NoDup (item_id <$> items) ∧
    (length items ≤ 3)%nat.
Proof. apply cart_ui_items, laptop_demo_ui. Defined.



(** * The counter demo: its buttons *)

(** X13.  The buttons of the counter never make the reducer throw.  In
    every state that the user reaches by clicking the four buttons of the
    counter demo, the displayed count is an integer [n], and each button
    returns a state: "Increment" with the count [n + 1], "Decrement" with
    [n - 1], "+5" with [n + 5] and "Reset" with [0].  The error that
    [counterReducer] throws on an unknown action type cannot be reached
    from the page. *)
Theorem counter_buttons_never_throw h d h0 :
  counter_ui h d →
  h `prefix_of` h0 →
  ∃ n,
    displayed_count h0 d = Some (VNum (Fin n)) ∧
    (∃ d' h', incrementButton d h0 = Ret (d', h') ∧
              displayed_count h' d' = Some (VNum (Fin (n + 1)))) ∧
    (∃ d' h', decrementButton d h0 = Ret (d', h') ∧
              displayed_count h' d' = Some (VNum (Fin (n - 1)))) ∧
    (∃ d' h', plusFiveButton d h0 = Ret (d', h') ∧
              displayed_count h' d' = Some (VNum (Fin (n + 5)))) ∧
    (∃ d' h', resetButton d h0 = Ret (d', h') ∧
              displayed_count h' d' = Some (VNum (Fin 0))).
Proof.
  intros [n Hn]%counter_ui_inv Hh.
  eapply displayed_count_prefix in Hn; [|done].
  exists n. split; [done|].
  destruct (counter_buttons_run h0 d n Hn)
    as ((d1 & h1 & Hr1 & _ & Hc1) & (d2 & h2 & Hr2 & _ & Hc2) &
        (d3 & h3 & Hr3 & _ & Hc3) & (d4 & h4 & Hr4 & _ & Hc4)).
  split_and!; eauto.
Qed.

Lemma counter_buttons_never_throw_witness :
  ∃ n,
    displayed_count module_heap UseReducerDemo = Some (VNum (Fin n)) ∧
    (∃ d' h', incrementButton UseReducerDemo module_heap = Ret (d', h') ∧
              displayed_count h' d' = Some (VNum (Fin (n + 1)))) ∧
    (∃ d' h', decrementButton UseReducerDemo module_heap = Ret (d', h') ∧
              displayed_count h' d' = Some (VNum (Fin (n - 1)))) ∧
    (∃ d' h', plusFiveButton UseReducerDemo module_heap = Ret (d', h') ∧
              displayed_count h' d' = Some (VNum (Fin (n + 5)))) ∧
    (∃ d' h', resetButton UseReducerDemo module_heap = Ret (d', h') ∧
              displayed_count h' d' = Some (VNum (Fin 0))).
Proof.
  apply (counter_buttons_never_throw module_heap UseReducerDemo module_heap).
  - by apply counter_ui_init.
  - reflexivity.
Defined.

(** * The form: the email check, [validateForm] and the submission *)

(** X14.  The strings that pass the email check.
    [/\S+@\S+\.\S+/.test(s)] is true exactly when [s] contains, somewhere,
    a non-empty run of characters that are not white space, then ["@"],
    then another such run, then ["."], then a third such run.  (Nothing
    is asked of what comes before or after, and the runs may themselves
    contain ["@"] and ["."].) *)
Theorem email_regex_accepts s :
  re_test email_regex s = true ↔
  ∃ pre a b c post,
    String.list_ascii_of_string s =
      pre ++ a ++ [char "@"] ++ b ++ [char "."] ++ c ++ post ∧
    non_space a ∧ non_space b ∧ non_space c.
Proof.
  rewrite re_test_lang. split.
  - intros (pre & m & post & -> &
            (a & b & c & -> & Ha & Hb & Hc)%email_regex_lang).
    exists pre, a, b, c, post. split; [|done].
    by rewrite <-!(assoc_L (++)).
  - intros (pre & a & b & c & post & -> & Ha & Hb & Hc).
    exists pre, (a ++ [char "@"] ++ b ++ [char "."] ++ c), post.
    split; [by rewrite <-!(assoc_L (++))|].
    apply email_regex_lang. by exists a, b, c.
Qed.

(** X15.  The messages of [validateForm].  On a form whose username,
    email and password are strings and whose age is the empty string or
    an integer, [validateForm] returns a new object and changes nothing
    that was in the store.  The object has, for each of the four fields,
    the message of the first check that the field fails, and no property
    for a field that passes; it has no other property. *)
Theorem validateForm_messages d h props u e p a :
  lookup_obj h (formState d) = Some props →
  form_fields props u e p a →
  ∃ errs,
    validateForm d h = Ret (VRef (length h), h ++ [Obj errs]) ∧
    errs !! "username" = VStr <$> username_error u ∧
    errs !! "email" = VStr <$> email_error e ∧
    errs !! "password" = VStr <$> password_error p ∧
    errs !! "age" = VStr <$> age_error a ∧
    ∀ k, is_Some (errs !! k) →
         k ∈ ["username"; "email"; "password"; "age"]%string.
Proof.
  intros Hs Hf. exists (field_errors u e p a).
  split; [by eapply validateForm_spec|]. apply field_errors_lookup.
Qed.

Lemma validateForm_messages_witness :
  ∃ errs,
    validateForm UseReducerDemo module_heap =
      Ret (VRef (length module_heap), module_heap ++ [Obj errs]) ∧
    errs !! "username" = VStr <$> username_error "" ∧
    errs !! "email" = VStr <$> email_error "" ∧
    errs !! "password" = VStr <$> password_error "" ∧
    errs !! "age" = VStr <$> age_error None ∧
    ∀ k, is_Some (errs !! k) →
         k ∈ ["username"; "email"; "password"; "age"]%string.
Proof.
  eapply (validateForm_messages UseReducerDemo module_heap).
  - reflexivity.
  - repeat split; reflexivity.
Defined.

(** X16.  The forms that [validateForm] accepts.  The object it returns
    is empty exactly when the username has a character that is not white
    space and is at least 3 characters long, the email passes the test of
    the regular expression, the password is at least 6 characters long and
    the age is an integer from 18 to 100. *)
Theorem validateForm_accepts d h props u e p a :
  lookup_obj h (formState d) = Some props →
  form_fields props u e p a →
  ∃ errs,
    validateForm d h = Ret (VRef (length h), h ++ [Obj errs]) ∧
    (errs = ∅ ↔
     all_white_space u = false ∧ (3 ≤ String.length u)%nat ∧
     re_test email_regex e = true ∧
     (6 ≤ String.length p)%nat ∧
     ∃ n, a = Some n ∧ 18 ≤ n ≤ 100).
Proof.
  intros Hs Hf. exists (field_errors u e p a).
  split; [by eapply validateForm_spec|]. apply field_errors_valid.
Qed.

Lemma validateForm_accepts_witness :
  ∃ errs,
    validateForm UseReducerDemo module_heap =
      Ret (VRef (length module_heap), module_heap ++ [Obj errs]) ∧
    (errs = ∅ ↔
     all_white_space "" = false ∧ (3 ≤ String.length "")%nat ∧
     re_test email_regex "" = true ∧
     (6 ≤ String.length "")%nat ∧
     ∃ n, @None Z = Some n ∧ 18 ≤ n ≤ 100).
Proof.
  eapply (validateForm_accepts UseReducerDemo module_heap).
  - reflexivity.
  - repeat split; reflexivity.
Defined.

(** X17.  The submission.  On such a form [handleFormSubmit] returns,
    touches only the form state and changes no object of the store.  If
    [validateForm] leaves a message, the new form state is the old one
    with [errors] the object of the messages, and nothing is scheduled.
    If it leaves none, the new form state is the old one with
    [isSubmitting] true, and one callback is scheduled, after 1000 ms;
    whenever that callback runs, on whatever state the component is in by
    then, it returns and puts [formInitialState] back as the form
    state. *)
Theorem handleFormSubmit_outcome d h props u e p a :
  lookup_obj h (formState d) = Some props →
  form_fields props u e p a →
  ∃ s' h' cbs,
    handleFormSubmit d h =
      Ret ((Demo (counterState d) s' (todoState d) (cartState d)
                 (todoInput d) (editingTodoId d) (editingText d), cbs), h') ∧
    h `prefix_of` h' ∧
    (field_errors u e p a ≠ ∅ →
       cbs = [] ∧
       ∃ er, lookup_obj h' s' = Some (<["errors" := er]> props) ∧
             lookup_obj h' er = Some (field_errors u e p a)) ∧
    (field_errors u e p a = ∅ →
       lookup_obj h' s' = Some (<["isSubmitting" := VBool true]> props) ∧
       ∃ cb, cbs = [(1000, cb)] ∧
         ∀ d2 h2, ∃ h2',
           cb d2 h2 =
             Ret (Demo (counterState d2) formInitialState (todoState d2)
                       (cartState d2) (todoInput d2) (editingTodoId d2)
                       (editingText d2), h2') ∧
           h2 `prefix_of` h2').
Proof.
  intros Hs Hf.
  destruct (handleFormSubmit_spec d h props u e p a Hs Hf)
    as (s' & h' & cbs & Hrun & Hpre & Hcase).
  exists s', h', cbs. split; [done|]. split; [done|].
  destruct (decide (field_errors u e p a = ∅)) as [Hempty|Hne].
  - destruct Hcase as [-> Hs']. split; [done|]. intros _. split; [done|].
    exists submitted. split; [done|]. intros d2 h2. eexists.
    split; [apply submitted_run|]. by apply prefix_app_r.
  - split; [done|]. by intros ?.
Qed.

Lemma handleFormSubmit_outcome_witness :
  ∃ s' h' cbs,
    handleFormSubmit UseReducerDemo module_heap =
      Ret ((Demo (counterState UseReducerDemo) s' (todoState UseReducerDemo)
                 (cartState UseReducerDemo) (todoInput UseReducerDemo)
                 (editingTodoId UseReducerDemo)
                 (editingText UseReducerDemo), cbs), h') ∧
    module_heap `prefix_of` h' ∧
    (field_errors "" "" "" None ≠ ∅ →
       cbs = [] ∧
       ∃ er,
         lookup_obj h' s' =
           Some (<["errors" := er]>
                   (<["username" := VStr ""]> (<["email" := VStr ""]>
                      (<["password" := VStr ""]> (<["age" := VStr ""]>
                      (<["errors" := VRef 1%nat]>
                         {[ "isSubmitting" := VBool false ]})))))) ∧
         lookup_obj h' er = Some (field_errors "" "" "" None)) ∧
    (field_errors "" "" "" None = ∅ →
       lookup_obj h' s' =
         Some (<["isSubmitting" := VBool true]>
                 (<["username" := VStr ""]> (<["email" := VStr ""]>
                    (<["password" := VStr ""]> (<["age" := VStr ""]>
                    (<["errors" := VRef 1%nat]>
                       {[ "isSubmitting" := VBool false ]})))))) ∧
       ∃ cb, cbs = [(1000, cb)] ∧
         ∀ d2 h2, ∃ h2',
           cb d2 h2 =
             Ret (Demo (counterState d2) formInitialState (todoState d2)
                       (cartState d2) (todoInput d2) (editingTodoId d2)
                       (editingText d2), h2') ∧
           h2 `prefix_of` h2').
Proof.
  eapply (handleFormSubmit_outcome UseReducerDemo module_heap).
  - reflexivity.
  - repeat split; reflexivity.
Defined.

(** X18.  Typing into a field.  The [onChange] of the username, email or
    password input, on a form state whose [errors] is an object, returns
    and touches only the form state.  The new form state has the text
    typed under that field and every other field as before; its [errors]
    is a new object with the empty string under that field and every
    other message as before.  No object that was in the store changes. *)
Theorem fieldInput_updates f text d h props eprops :
  f ≠ "errors"%string →
  lookup_obj h (formState d) = Some props →
  lookup_obj h (prop props "errors") = Some eprops →
  ∃ s' h' props' eprops',
    fieldInput f text d h =
      Ret (Demo (counterState d) s' (todoState d) (cartState d)
                (todoInput d) (editingTodoId d) (editingText d), h') ∧
    h `prefix_of` h' ∧
    lookup_obj h' s' = Some props' ∧
    lookup_obj h' (prop props' "errors") = Some eprops' ∧
    props' !! f = Some (VStr text) ∧
    (∀ k, k ≠ f → k ≠ "errors"%string → props' !! k = props !! k) ∧
    eprops' !! f = Some (VStr "") ∧
    (∀ k, k ≠ f → eprops' !! k = eprops !! k).
Proof.
  intros Hf Hs He. eexists _, _, _, _.
  split; [by eapply fieldInput_run|].
  split; [by apply prefix_app_r|].
  assert (∀ (h0 : heap) a b c, lookup_obj (h0 ++ [a; b; Obj c])
            (VRef (S (S (length h0)))) = Some c) as Hlast.
  { intros h0 a b c. unfold lookup_obj.
    rewrite lookup_app_r by lia.
    by replace (S (S (length h0)) - length h0)%nat with 2%nat by lia. }
  split; [apply Hlast|].
  split.
  { unfold prop at 1. rewrite lookup_insert_eq. cbn [default id].
    unfold lookup_obj. rewrite lookup_app_r by lia.
    by replace (S (length h) - length h)%nat with 1%nat by lia. }
  split; [by rewrite lookup_insert_ne, lookup_insert_eq|].
  split; [intros k ? ?; by rewrite !lookup_insert_ne|].
  split; [by rewrite lookup_insert_eq|].
  intros k ?. by rewrite lookup_insert_ne.
Qed.

Lemma fieldInput_updates_witness :
  ∃ s' h' props' eprops',
    fieldInput "email" "a@b.c" UseReducerDemo module_heap =
      Ret (Demo (counterState UseReducerDemo) s' (todoState UseReducerDemo)
                (cartState UseReducerDemo) (todoInput UseReducerDemo)
                (editingTodoId UseReducerDemo)
                (editingText UseReducerDemo), h') ∧
    module_heap `prefix_of` h' ∧
    lookup_obj h' s' = Some props' ∧
    lookup_obj h' (prop props' "errors") = Some eprops' ∧
    props' !! "email" = Some (VStr "a@b.c") ∧
    (∀ k, k ≠ "email"%string → k ≠ "errors"%string →
          props' !! k =
            (<["username" := VStr ""]> (<["email" := VStr ""]>
               (<["password" := VStr ""]> (<["age" := VStr ""]>
               (<["errors" := VRef 1%nat]>
                  {[ "isSubmitting" := VBool false ]})))) :
              gmap string value) !! k) ∧
    eprops' !! "email" = Some (VStr "") ∧
    (∀ k, k ≠ "email"%string → eprops' !! k = (∅ : gmap string value) !! k).
Proof.
  eapply (fieldInput_updates "email" "a@b.c" UseReducerDemo module_heap).
  - done.
  - reflexivity.
  - reflexivity.
Defined.

(** X19.  The form never throws.  In every state that the user reaches
    by typing into the four inputs, submitting, clicking "Reset Form" and
    letting the scheduled callbacks run, the username, email and password
    of the form state are strings, its age is the empty string or an
    integer other than zero (never NaN), and its [errors] is an object.
    So every handler of the form returns a state: the three text inputs
    on any text, the age input on any text of at most 13 characters, the
    submission, which schedules nothing or one callback, "Reset Form",
    and each callback that waits. *)
Theorem form_handlers_return h d q h0 :
  form_ui h d q →
  h `prefix_of` h0 →
  (∃ props eprops u e p a,
     lookup_obj h0 (formState d) = Some props ∧
     lookup_obj h0 (prop props "errors") = Some eprops ∧
     form_fields props u e p a ∧ a ≠ Some 0) ∧
  (∀ f text, f ∈ ["username"; "email"; "password"]%string →
     ∃ d' h', fieldInput f text d h0 = Ret (d', h')) ∧
  (∀ text, (String.length text ≤ 13)%nat →
     ∃ d' h', ageInput text d h0 = Ret (d', h')) ∧
  (∃ d' cbs h', handleFormSubmit d h0 = Ret ((d', cbs), h') ∧
                (length cbs ≤ 1)%nat) ∧
  (∃ d' h', resetFormButton d h0 = Ret (d', h')) ∧
  (∀ t cb, (t, cb) ∈ q → ∃ d' h', cb d h0 = Ret (d', h')).
Proof.
  intros [Hinv Hq]%form_ui_inv Hh.
  eapply form_inv_prefix in Hinv; [|done].
  split; [apply Hinv|].
  split.
  { intros f text Hf.
    destruct (fieldInput_inv f text d h0 Hf Hinv) as (d' & h' & Hr & _).
    eauto. }
  split.
  { intros text Hlen.
    destruct (parseInt_short text h0 Hlen) as [Hp|[n Hp]];
      destruct (ageInput_ret text _ d h0 Hp Hinv) as (d' & h' & Hr & _);
      eauto. }
  split.
  { destruct (handleFormSubmit_inv d h0 Hinv)
      as (d' & cbs & h' & Hr & _ & Hc).
    exists d', cbs, h'. split; [done|]. destruct Hc as [->| ->]; simpl; lia. }
  split.
  { destruct (resetFormButton_inv d h0 (proj1 Hinv)) as (d' & h' & Hr & _).
    eauto. }
  intros t cb Hin. rewrite Forall_forall in Hq.
  specialize (Hq _ Hin). injection Hq as -> ->.
  destruct (submitted_inv d h0 (proj1 Hinv)) as (d' & h' & Hr & _). eauto.
Qed.

Lemma form_handlers_return_witness :
  (∃ props eprops u e p a,
     lookup_obj module_heap (formState UseReducerDemo) = Some props ∧
     lookup_obj module_heap (prop props "errors") = Some eprops ∧
     form_fields props u e p a ∧ a ≠ Some 0) ∧
  (∀ f text, f ∈ ["username"; "email"; "password"]%string →
     ∃ d' h', fieldInput f text UseReducerDemo module_heap = Ret (d', h')) ∧
  (∀ text, (String.length text ≤ 13)%nat →
     ∃ d' h', ageInput text UseReducerDemo module_heap = Ret (d', h')) ∧
  (∃ d' cbs h',
     handleFormSubmit UseReducerDemo module_heap = Ret ((d', cbs), h') ∧
     (length cbs ≤ 1)%nat) ∧
  (∃ d' h', resetFormButton UseReducerDemo module_heap = Ret (d', h')) ∧
  (∀ t cb, (t, cb) ∈ @nil (Z * (demo → js demo)) →
     ∃ d' h', cb UseReducerDemo module_heap = Ret (d', h')).
Proof.
  apply (form_handlers_return module_heap UseReducerDemo [] module_heap).
  - by apply form_ui_init.
  - reflexivity.
Defined.

(** X20.  The age input reads back what the form displays.  For an
    integer [n] other than zero and below 2^53 in magnitude, the age
    input given the text of [n] (as [String(n)] writes it) stores the
    number [n] as the age, keeps every other field and touches only the
    form state: [parseInt] undoes the conversion to a string. *)
Theorem ageInput_reads_back n d h props eprops :
  n ≠ 0 → Z.abs n < 2 ^ 53 →
  lookup_obj h (formState d) = Some props →
  lookup_obj h (prop props "errors") = Some eprops →
  ∃ text s' h' props',
    to_string (VNum (Fin n)) h = Ret (text, h) ∧
    ageInput text d h =
      Ret (Demo (counterState d) s' (todoState d) (cartState d)
                (todoInput d) (editingTodoId d) (editingText d), h') ∧
    h `prefix_of` h' ∧
    lookup_obj h' s' = Some props' ∧
    props' !! "age" = Some (VNum (Fin n)) ∧
    (∀ k, k ≠ "age"%string → k ≠ "errors"%string →
          props' !! k = props !! k).
Proof.
  intros Hn Hb Hs He. exists (pretty n).
  assert (to_string (VNum (Fin n)) h = Ret (pretty n, h)) as Hstr.
  { cbn [to_string]. rewrite decide_True; [done|].
    assert (2 ^ 53 < 10 ^ 21) by done. lia. }
  eexists _, _, _. split; [done|].
  split.
  { unfold ageInput. erewrite bind_Ret by by apply parseInt_pretty.
    cbn [truthy]. destruct (Z.eqb_spec n 0) as [?|_]; [done|]. cbn [negb].
    by eapply update_field_run. }
  split; [by apply prefix_app_r|].
  split; [apply lookup_obj_last3|].
  split; [by rewrite lookup_insert_ne, lookup_insert_eq|].
  intros k ? ?. by rewrite !lookup_insert_ne.
Qed.

Lemma ageInput_reads_back_witness :
  ∃ text s' h' props',
    to_string (VNum (Fin 25)) module_heap = Ret (text, module_heap) ∧
    ageInput text UseReducerDemo module_heap =
      Ret (Demo (counterState UseReducerDemo) s' (todoState UseReducerDemo)
                (cartState UseReducerDemo) (todoInput UseReducerDemo)
                (editingTodoId UseReducerDemo)
                (editingText UseReducerDemo), h') ∧
    module_heap `prefix_of` h' ∧
    lookup_obj h' s' = Some props' ∧
    props' !! "age" = Some (VNum (Fin 25)) ∧
    (∀ k, k ≠ "age"%string → k ≠ "errors"%string →
          props' !! k =
            ((<["username" := VStr ""]> (<["email" := VStr ""]>
               (<["password" := VStr ""]> (<["age" := VStr ""]>
               (<["errors" := VRef 1%nat]>
                  {[ "isSubmitting" := VBool false ]})))) :
              gmap string value) !! k)).
Proof.
  eapply (ageInput_reads_back 25 UseReducerDemo module_heap).
  - done.
  - reflexivity.
  - reflexivity.
  - reflexivity.
Defined.
